(** * switchyard.lib.topo.topobuild: a shallow embedding

    The development follows [src/switchyard/lib/topo/topobuild.py]:
    interfaces, nodes, the topology over a networkx graph, its construction
    API, address assignment, (un)serialisation and union.

    Conventions.
    - Python [str] is [string] (ASCII); Python [int] is [N] or [Z].
    - A Python [dict] is an association list in insertion order (the order
      Python 3.7+ dictionaries iterate in); [dict_set] overwrites in place
      or appends, like [d[k] = v].
    - A method that mutates [self] and may raise is a function
      [S -> outcome A * S]: the state that comes back with [Raise] is the
      state the exception leaves behind. *)

From Stdlib Require Import Ascii String HexString SpecFloat.
From stdpp Require Import base strings list pretty gmap sorting.

Open Scope string_scope.
Open Scope list_scope.
Open Scope N_scope.

(** ** Exceptions and the state/exception monad *)

Inductive exc : Type :=
| DuplicateNode (name : string)      (* __addNode: "A node by the name ... already exists" *)
| NoNodeForLink (name : string)      (* addLink: "No node ... exists for building a link" *)
| MissingNodeobj (name : string)     (* unserialize: "Required nodetype information ..." *)
| KeyError (key : string)            (* a failed dict lookup d[key] *)
| IndexError                         (* a failed list index l[i] *)
| NameError (name : string)          (* eval of an unknown class name *)
| StopIteration                      (* next() on an exhausted generator *)
| NetworkXError                      (* nx.union on graphs sharing a node *)
| FormatError (arg : string)         (* raised inside switchyard.lib.topo.util *)
| TypeError                          (* len(None); next() on a list *)
| ValueError                         (* ipaddress: not an IPv4 network *)
| MalformedJSON                      (* node_link_graph on a document of another shape *)
| OutOfFuel.                         (* not a Python exception: a modelled loop ran out of fuel *)

Inductive outcome (A : Type) : Type :=
| Return (a : A)
| Raise (e : exc).
Arguments Return {A} a.
Arguments Raise {A} e.

Definition M (S A : Type) : Type := S -> outcome A * S.

Definition ret {S A} (a : A) : M S A := fun s => (Return a, s).
Definition raise {S A} (e : exc) : M S A := fun s => (Raise e, s).
Definition bind {S A B} (m : M S A) (k : A -> M S B) : M S B :=
  fun s => match m s with
           | (Return a, s') => k a s'
           | (Raise e, s') => (Raise e, s')
           end.
Definition get {S} : M S S := fun s => (Return s, s).
Definition put {S} (s : S) : M S unit := fun _ => (Return tt, s).
Definition lift {S A} (o : outcome A) : M S A := fun s => (o, s).

Declare Scope topo_scope.
Delimit Scope topo_scope with topo.
Notation "x <- m ;; k" := (bind m (fun x => k))
  (at level 100, m at next level, right associativity) : topo_scope.
Notation "m ;;; k" := (bind m (fun _ => k))
  (at level 100, right associativity) : topo_scope.

(** The same sequencing for code that raises but has no state. *)
Definition obind {A B} (o : outcome A) (k : A -> outcome B) : outcome B :=
  match o with Return a => k a | Raise e => Raise e end.

Definition index {A} (l : list A) (i : nat) : outcome A :=
  match l !! i with Some x => Return x | None => Raise IndexError end.

(** ** Python dictionaries *)

Abbreviation dict V := (list (string * V)).

Fixpoint dict_get {V} (d : dict V) (k : string) : option V :=
  match d with
  | [] => None
  | (k', v) :: d' => if decide (k' = k) then Some v else dict_get d' k
  end.

Fixpoint dict_set {V} (d : dict V) (k : string) (v : V) : dict V :=
  match d with
  | [] => [(k, v)]
  | (k', v') :: d' =>
      if decide (k' = k) then (k', v) :: d' else (k', v') :: dict_set d' k v
  end.

Fixpoint dict_del {V} (d : dict V) (k : string) : dict V :=
  match d with
  | [] => []
  | (k', v') :: d' => if decide (k' = k) then d' else (k', v') :: dict_del d' k
  end.

Definition dict_has {V} (d : dict V) (k : string) : bool :=
  match dict_get d k with Some _ => true | None => false end.

Definition keys {V} (d : dict V) : list string := d.*1.

(** [d[k]], raising [KeyError]. *)
Definition getitem {V} (d : dict V) (k : string) : outcome V :=
  match dict_get d k with Some v => Return v | None => Raise (KeyError k) end.

(** ** Python string operations used by the source *)

(** [str.isspace] on the ASCII range. *)
Definition isspace (c : ascii) : bool :=
  let n := N_of_ascii c in
  ((9 <=? n) && (n <=? 13)) || ((28 <=? n) && (n <=? 32)).

(** [s.split()]: the maximal runs of characters that are not whitespace. *)
Fixpoint split_aux (s : string) : string * list string :=
  match s with
  | "" => ("", [])
  | String c r =>
      let '(w, ws) := split_aux r in
      if isspace c
      then ("", match w with "" => ws | _ => w :: ws end)
      else (String c w, ws)
  end.

Definition split (s : string) : list string :=
  let '(w, ws) := split_aux s in
  match w with "" => ws | _ => w :: ws end.

(** [s.split(sep)] for a one-character separator. *)
Fixpoint split_on (sep : ascii) (s : string) : list string :=
  match s with
  | "" => [""]
  | String c r =>
      if decide (c = sep) then "" :: split_on sep r
      else match split_on sep r with
           | w :: ws => String c w :: ws
           | [] => [String c ""]
           end
  end.

(** [s[n:]] *)
Fixpoint string_drop (n : nat) (s : string) : string :=
  match n, s with
  | O, _ => s
  | S n', String _ r => string_drop n' r
  | S _, "" => ""
  end.

(** [[s[j:j+2] for j in range(0, len(s), 2)]] *)
Fixpoint chunks2 (s : string) : list string :=
  match s with
  | "" => []
  | String a "" => [String a ""]
  | String a (String b r) => String a (String b "") :: chunks2 r
  end.

(** [sep.join(l)] *)
Definition join (sep : string) (l : list string) : string := String.concat sep l.

(** [str(n)] for a non-negative integer. *)
Definition str_int (n : N) : string := pretty n.

(** ['{:012x}'.format(n)]: lower-case hexadecimal, zero-padded on the left to
    a width of at least twelve. *)
Definition hex (n : N) : string :=
  match n with
  | N0 => "0"
  | Npos p => HexString.Raw.of_pos p ""
  end.

Fixpoint zeros (k : nat) : string :=
  match k with O => "" | S k' => String "0" (zeros k') end.

Definition format_012x (n : N) : string :=
  let h := hex n in zeros (12 - String.length h) +:+ h.

(** ** Values that reach the address fields

    Modelled from the spec: [EthAddr] and [IPAddr] come from
    [switchyard.lib.address], which is not part of the sources at hand.  The
    spec describes them as typed addresses built from the canonical string
    form; the model keeps the text an address object was built from and
    [str] gives that text back.  [PIPv4Address] is an
    [ipaddress.IPv4Address], a 32-bit number. *)

Inductive pyval : Type :=
| PNone
| PStr (s : string)
| PEthAddr (s : string)
| PIPAddr (s : string)
| PIPv4Address (a : N).

Global Instance pyval_eq_dec : EqDecision pyval.
Proof. solve_decision. Defined.

(** [str] of an [ipaddress.IPv4Address]: the four octets in decimal, the
    highest first. *)
Definition dotted_quad (a : N) : string :=
  str_int ((a / 16777216) `mod` 256) +:+ "." +:+ str_int ((a / 65536) `mod` 256) +:+ "."
  +:+ str_int ((a / 256) `mod` 256) +:+ "." +:+ str_int (a `mod` 256).

Definition str (v : pyval) : string :=
  match v with
  | PNone => "None"
  | PStr s => s
  | PEthAddr s => s
  | PIPAddr s => s
  | PIPv4Address a => dotted_quad a
  end.

Example dotted_quad_ex :
  dotted_quad 3232235777 = "192.168.1.1" ∧ dotted_quad 4294967040 = "255.255.255.0" ∧
  dotted_quad 167772416 = "10.0.1.0".
Proof. by vm_compute. Qed.

(** Truthiness, as tested by [if mac:], [if ip:], [if netmask:]. *)
Definition truthy (v : pyval) : bool :=
  match v with
  | PNone => false
  | PStr "" => false
  | _ => true
  end.

(** ** class Interface *)

Record Interface : Type := mkInterface {
  name : string;
  ethaddr : pyval;
  ipaddr : pyval;
  netmask : pyval
}.

Global Instance Interface_eq_dec : EqDecision Interface.
Proof. solve_decision. Defined.

(** The three property setters (lines 36-45, 51-60, 66-75). *)
Definition ethaddr_setter (value : pyval) : pyval :=
  match value with
  | PEthAddr _ => value
  | PStr s => PEthAddr s
  | PNone => PStr "00:00:00:00:00:00"
  | _ => value
  end.

Definition ipaddr_setter (value : pyval) : pyval :=
  match value with
  | PIPAddr _ => value
  | PStr s => PIPAddr s
  | PNone => PStr "0.0.0.0"
  | _ => value
  end.

Definition netmask_setter (value : pyval) : pyval :=
  match value with
  | PIPAddr _ => value
  | PStr s => PIPAddr s
  | PNone => PStr "255.255.255.255"
  | _ => value
  end.

(** [Interface.__init__]: the name is stored, the addresses go through the
    setters. *)
Definition Interface_init (name : string) (ethaddr ipaddr netmask : pyval) : Interface :=
  {| name := name;
     ethaddr := ethaddr_setter ethaddr;
     ipaddr := ipaddr_setter ipaddr;
     netmask := netmask_setter netmask |}.

(** [Interface.__str__] *)
Definition Interface_str (i : Interface) : string :=
  let s := name i +:+ " mac:" +:+ str (ethaddr i) in
  if decide (str (ipaddr i) = "0.0.0.0") then s
  else s +:+ " ip:" +:+ str (ipaddr i) +:+ "/" +:+ str (netmask i).

(** ** class Node and its subclasses Host, Switch, Router *)

Inductive NodeClass : Type := Host | Switch | Router.

Global Instance NodeClass_eq_dec : EqDecision NodeClass.
Proof. solve_decision. Defined.

(** [cls.__name__] *)
Definition class_name (c : NodeClass) : string :=
  match c with Host => "Host" | Switch => "Switch" | Router => "Router" end.

(** [eval(name)] in the module's namespace, restricted to the node classes. *)
Definition eval_class (s : string) : outcome NodeClass :=
  if decide (s = "Host") then Return Host
  else if decide (s = "Switch") then Return Switch
  else if decide (s = "Router") then Return Router
  else Raise (NameError s).

Record Node : Type := mkNode {
  cls : NodeClass;
  ifnum : N;
  interfaces : dict Interface
}.

Global Instance Node_eq_dec : EqDecision Node.
Proof. solve_decision. Defined.

(** [Node.nodetype] *)
Definition nodetype (n : Node) : string := class_name (cls n).

(** One round of the loop of [Node.__init__] (lines 90-95): the interface
    string is taken apart again. *)
Definition parse_interface (ifname ifstr : string) : outcome Interface :=
  let ifcomponents := split ifstr in
  obind (index ifcomponents 1) (fun c1 =>
  let mac := string_drop 4 c1 in
  if decide (2 < length ifcomponents)%nat then
    obind (index ifcomponents 2) (fun c2 =>
    obind (index (split_on ":" c2) 1) (fun c21 =>
    let ipmask := split_on "/" c21 in
    obind (index ipmask 0) (fun ip =>
    obind (index ipmask 1) (fun mask =>
    Return (Interface_init ifname (PStr mac) (PStr ip) (PStr mask))))))
  else Return (Interface_init ifname (PStr mac) PNone PNone)).

Fixpoint load_interfaces (items : dict string) (acc : dict Interface)
  : outcome (dict Interface) :=
  match items with
  | [] => Return acc
  | (ifname, ifstr) :: rest =>
      obind (parse_interface ifname ifstr) (fun i =>
      load_interfaces rest (dict_set acc ifname i))
  end.

(** [Node.__init__] with keyword arguments, for a subclass [c].  Of the keyword arguments
    only [interfaces] is read; [kw_interfaces] is [None] when that key is
    absent from [kwargs]. *)
Definition Node_init (c : NodeClass) (kw_interfaces : option (dict string)) : outcome Node :=
  match kw_interfaces with
  | None => Return {| cls := c; ifnum := 0; interfaces := [] |}
  | Some items =>
      obind (load_interfaces items []) (fun ifs =>
      Return {| cls := c; ifnum := 0; interfaces := ifs |})
  end.

(** [cls()] *)
Definition Node_new (c : NodeClass) : Node := {| cls := c; ifnum := 0; interfaces := [] |}.

(** [Node.getInterface] *)
Definition getInterface (devname : string) : M Node Interface :=
  fun self => (getitem (interfaces self) devname, self).

(** [Node.addInterface] *)
Definition addInterface (ethaddr ipaddr netmask : pyval) : M Node string :=
  fun self =>
    let ifname := "eth" +:+ str_int (ifnum self) in
    let self1 := {| cls := cls self; ifnum := ifnum self + 1; interfaces := interfaces self |} in
    let intf := Interface_init ifname ethaddr ipaddr netmask in
    (Return ifname,
     {| cls := cls self1; ifnum := ifnum self1;
        interfaces := dict_set (interfaces self1) ifname intf |}).

(** [Node.asDict]: the class name and the interfaces, each printed. *)
Definition asDict (self : Node) : string * dict string :=
  (class_name (cls self), map (fun '(ifname, ifobj) => (ifname, Interface_str ifobj)) (interfaces self)).

Example split_ex : split "eth0 mac:00:00:00:00:00:01  ip:10.0.0.1/255.0.0.0"
                   = ["eth0"; "mac:00:00:00:00:00:01"; "ip:10.0.0.1/255.0.0.0"].
Proof. reflexivity. Qed.

Example format_ex : join ":" (chunks2 (format_012x 43)) = "00:00:00:00:00:2b".
Proof. reflexivity. Qed.

Example parse_ex :
  parse_interface "eth0" "eth0 mac:00:00:00:00:00:01 ip:10.0.0.1/255.0.0.0"
  = Return (mkInterface "eth0" (PEthAddr "00:00:00:00:00:01") (PIPAddr "10.0.0.1") (PIPAddr "255.0.0.0")).
Proof. reflexivity. Qed.

Example addInterface_ex :
  addInterface PNone PNone PNone (Node_new Host)
  = (Return "eth0", mkNode Host 1 [("eth0", mkInterface "eth0" (PStr "00:00:00:00:00:00") (PStr "0.0.0.0") (PStr "255.255.255.255"))]).
Proof. reflexivity. Qed.

(** ** The formatting collaborator

    [unhumanize_capacity], [unhumanize_delay], [humanize_capacity] and
    [humanize_delay] come from [switchyard.lib.topo.util], which is not part
    of the sources at hand.  They are taken as parameters: the two parsers
    may raise on a string they do not understand, the two printers are
    total.  A Python [float] is a [spec_float]. *)

Definition float : Type := spec_float.

Class Formatting : Type := {
  unhumanize_capacity : string -> outcome Z;
  unhumanize_delay : string -> outcome float;
  humanize_capacity : Z -> string;
  humanize_delay : float -> string
}.

Section Topo.
Context {F : Formatting}.

(** ** The networkx graph

    [networkx.Graph] is modelled by what the source uses of it: the graph
    attribute [name], the node table [G.node] (name to attribute dictionary)
    and the undirected edges, each with one attribute dictionary shared by
    both directions [G[u][v]] and [G[v][u]]. *)

(** A value of an edge attribute dictionary. *)
Inductive attr : Type :=
| AStr (s : string)
| AInt (z : Z)
| AFloat (d : float).

(** The attribute dictionary of a node: [__addNode] sets exactly the keys
    ['label'], ['nodeobj'] and ['type']. *)
Record NodeAttrs : Type := mkNodeAttrs {
  label : string;
  nodeobj : Node;
  type : string
}.

Record Graph : Type := mkGraph {
  graph_name : string;
  node : dict NodeAttrs;
  edge : list (string * string * dict attr)
}.

(** [nx.Graph(name=name)] *)
Definition Graph_new (name : string) : Graph :=
  {| graph_name := name; node := []; edge := [] |}.

(** [G.nodes()] *)
Definition Graph_nodes (G : Graph) : list string := keys (node G).

(** [G.has_node(n)], [n in G] *)
Definition has_node (G : Graph) (n : string) : bool := dict_has (node G) n.

(** Does the stored edge [e] join [u] and [v], in either direction? *)
Definition joins (u v : string) (e : string * string * dict attr) : bool :=
  let '(a, b, _) := e in
  bool_decide (a = u ∧ b = v) || bool_decide (a = v ∧ b = u).

(** [G[u][v]] as an option. *)
Fixpoint lookup_edge (E : list (string * string * dict attr)) (u v : string)
  : option (dict attr) :=
  match E with
  | [] => None
  | e :: E' => if joins u v e then Some e.2 else lookup_edge E' u v
  end.

Definition find_edge (G : Graph) (u v : string) : option (dict attr) :=
  lookup_edge (edge G) u v.

(** [G.add_edge(u, v)] between two existing nodes, without attributes: a
    new edge gets an empty dictionary, an existing one is left as it is. *)
Definition add_edge (G : Graph) (u v : string) : Graph :=
  match find_edge G u v with
  | Some _ => G
  | None => {| graph_name := graph_name G; node := node G;
               edge := edge G ++ [(u, v, [])] |}
  end.

(** An update of the attribute dictionary [G[u][v]] in place. *)
Fixpoint edge_apply (E : list (string * string * dict attr)) (u v : string)
    (f : dict attr -> dict attr) : list (string * string * dict attr) :=
  match E with
  | [] => []
  | e :: E' =>
      if joins u v e then (e.1.1, e.1.2, f e.2) :: E'
      else e :: edge_apply E' u v f
  end.

(** [G[u][v][k] = x] on an existing edge. *)
Definition edge_update (E : list (string * string * dict attr)) (u v k : string) (x : attr)
  : list (string * string * dict attr) :=
  edge_apply E u v (fun d => dict_set d k x).

(** [G.edges()]: every node in turn reports the edges to the neighbours that
    have not reported yet, so an edge comes out once, as (the endpoint that
    is first in node order, the other endpoint). *)
Definition report (n : string) (seen : list string) (e : string * string * dict attr)
  : option (string * string * dict attr) :=
  let '(a, b, d) := e in
  if decide (a = n) then (if decide (b ∈ seen) then None else Some (n, b, d))
  else if decide (b = n) then (if decide (a ∈ seen) then None else Some (n, a, d))
  else None.

Fixpoint edges_from_nodes (E : list (string * string * dict attr))
    (ns seen : list string) : list (string * string * dict attr) :=
  match ns with
  | [] => []
  | n :: ns' => omap (report n seen) E ++ edges_from_nodes E ns' (n :: seen)
  end.

Definition Graph_edges (G : Graph) : list (string * string * dict attr) :=
  edges_from_nodes (edge G) (Graph_nodes G) [].

(** ** class Topology *)

Record Topology : Type := mkTopology {
  nxgraph : Graph;
  hnum : N;
  snum : N;
  rnum : N;
  auto_macs : bool;
  topo_ifnum : N          (* [self.__ifnum], the MAC counter *)
}.

(** [Topology.__init__].  [if nxgraph:] tests the graph's truth value, which
    for a networkx graph is "has at least one node". *)
Definition Topology_init (name : string) (nxgraph : option Graph) (auto_macs : bool) : Topology :=
  let G := match nxgraph with
           | Some G => match node G with [] => Graph_new name | _ => G end
           | None => Graph_new name
           end in
  {| nxgraph := G; hnum := 0; snum := 0; rnum := 0; auto_macs := auto_macs; topo_ifnum := 1 |}.

Definition Topology_new : Topology := Topology_init "No name topology" None true.

Definition set_nxgraph (self : Topology) (G : Graph) : Topology :=
  {| nxgraph := G; hnum := hnum self; snum := snum self; rnum := rnum self;
     auto_macs := auto_macs self; topo_ifnum := topo_ifnum self |}.

(** [Topology.name] *)
Definition topo_name (self : Topology) : string := graph_name (nxgraph self).

(** [Topology.nodes], [Topology.links] *)
Definition nodes (self : Topology) : list string := Graph_nodes (nxgraph self).
Definition links (self : Topology) : list (string * string) :=
  map (fun e => (e.1.1, e.1.2)) (Graph_edges (nxgraph self)).

(** [__getnodes(typefilter)] with a filter; [hosts], [switches], [routers] *)
Definition getnodes (self : Topology) (typefilter : string) : list string :=
  omap (fun '(n, ndict) => if decide (type ndict = typefilter) then Some n else None)
       (node (nxgraph self)).
Definition hosts (self : Topology) : list string := getnodes self "Host".
Definition switches (self : Topology) : list string := getnodes self "Switch".
Definition routers (self : Topology) : list string := getnodes self "Router".

(** [Topology.__addNode]: the four statements after the check build one
    entry of the node table. *)
Definition addNode (name : string) (c : NodeClass) : M Topology unit :=
  fun self =>
    if decide (name ∈ nodes self) then (Raise (DuplicateNode name), self)
    else
      let G := nxgraph self in
      let ndict := {| label := name; nodeobj := Node_new c; type := class_name c |} in
      (Return tt,
       set_nxgraph self {| graph_name := graph_name G;
                           node := dict_set (node G) name ndict;
                           edge := edge G |}).

(** [Topology.getNode], [Topology.getEdge], [Topology.getLink] *)
Definition getNode (name : string) : M Topology NodeAttrs :=
  fun self => (getitem (node (nxgraph self)) name, self).

Definition getEdge (node1 node2 : string) : M Topology (dict attr) :=
  fun self =>
    (if has_node (nxgraph self) node1 then
       match find_edge (nxgraph self) node1 node2 with
       | Some d => Return d
       | None => Raise (KeyError node2)
       end
     else Raise (KeyError node1), self).

Definition getLink (node1 node2 : string) : M Topology (dict attr) := getEdge node1 node2.

(** The [while True] loop of [addHost], [addSwitch] and [addRouter]: count
    up from [k] until the name is not a node; returns the name and the
    counter after the last increment.  [fuel] bounds the number of
    rounds. *)
Fixpoint next_name (prefix : string) (G : Graph) (fuel : nat) (k : N) : option (string * N) :=
  match fuel with
  | O => None
  | S fuel' =>
      let name := prefix +:+ str_int k in
      if has_node G name then next_name prefix G fuel' (k + 1)
      else Some (name, k + 1)
  end.

Definition set_counters (self : Topology) (h s r : N) : Topology :=
  {| nxgraph := nxgraph self; hnum := h; snum := s; rnum := r;
     auto_macs := auto_macs self; topo_ifnum := topo_ifnum self |}.

(** [Topology.addHost], [Topology.addSwitch], [Topology.addRouter].  The
    loop gets one round more than there are nodes. *)
Definition addHost (name : option string) : M Topology string :=
  fun self =>
    match name with
    | None =>
        match next_name "h" (nxgraph self) (S (length (nodes self))) (hnum self) with
        | Some (name, k) =>
            (addNode name Host ;;; ret name)%topo (set_counters self k (snum self) (rnum self))
        | None => (Raise OutOfFuel, self)
        end
    | Some name => (addNode name Host ;;; ret name)%topo self
    end.

Definition addSwitch (name : option string) : M Topology string :=
  fun self =>
    match name with
    | None =>
        match next_name "s" (nxgraph self) (S (length (nodes self))) (snum self) with
        | Some (name, k) =>
            (addNode name Switch ;;; ret name)%topo (set_counters self (hnum self) k (rnum self))
        | None => (Raise OutOfFuel, self)
        end
    | Some name => (addNode name Switch ;;; ret name)%topo self
    end.

Definition addRouter (name : option string) : M Topology string :=
  fun self =>
    match name with
    | None =>
        match next_name "r" (nxgraph self) (S (length (nodes self))) (rnum self) with
        | Some (name, k) =>
            (addNode name Router ;;; ret name)%topo (set_counters self (hnum self) (snum self) k)
        | None => (Raise OutOfFuel, self)
        end
    | Some name => (addNode name Router ;;; ret name)%topo self
    end.

(** Lines 278-281: the MAC address text made from a counter value. *)
Definition macaddr (n : N) : string := join ":" (chunks2 (format_012x n)).

(** Lines 275-281: [macs], and the counter moved on by two when automatic
    MACs are on. *)
Definition alloc_macs : M Topology (pyval * pyval) :=
  fun self =>
    if auto_macs self then
      (Return (PStr (macaddr (topo_ifnum self)), PStr (macaddr (topo_ifnum self + 1))),
       {| nxgraph := nxgraph self; hnum := hnum self; snum := snum self; rnum := rnum self;
          auto_macs := auto_macs self; topo_ifnum := topo_ifnum self + 1 + 1 |})
    else (Return (PNone, PNone), self).

(** [self.__nxgraph.node[name]['nodeobj'].m(...)]: a method of the node
    object stored in the graph, run in place. *)
Definition on_nodeobj {A} (name : string) (m : M Node A) : M Topology A :=
  fun self =>
    let G := nxgraph self in
    match dict_get (node G) name with
    | None => (Raise (KeyError name), self)
    | Some ndict =>
        let '(r, obj) := m (nodeobj ndict) in
        (r, set_nxgraph self
              {| graph_name := graph_name G;
                 node := dict_set (node G) name
                           {| label := label ndict; nodeobj := obj; type := type ndict |};
                 edge := edge G |})
    end.

(** [self.__nxgraph.add_edge(node1, node2)] *)
Definition do_add_edge (node1 node2 : string) : M Topology unit :=
  fun self => (Return tt, set_nxgraph self (add_edge (nxgraph self) node1 node2)).

(** [self.__nxgraph[node1][node2][k] = x] *)
Definition setitem_edge (node1 node2 k : string) (x : attr) : M Topology unit :=
  fun self =>
    let G := nxgraph self in
    match find_edge G node1 node2 with
    | None => (Raise (KeyError node2), self)
    | Some _ =>
        (Return tt,
         set_nxgraph self {| graph_name := graph_name G; node := node G;
                             edge := edge_update (edge G) node1 node2 k x |})
    end.

Definition check_node (n : string) : M Topology unit :=
  fun self =>
    if has_node (nxgraph self) n then (Return tt, self)
    else (Raise (NoNodeForLink n), self).

(** The body of [Topology.addLink]; the value is the pair of locals
    [(node1if, node2if)]. *)
Definition addLink_body (node1 node2 capacity delay : string) : M Topology (string * string) :=
  (check_node node1 ;;;
   check_node node2 ;;;
   macs <- alloc_macs ;;
   node1if <- on_nodeobj node1 (addInterface macs.1 PNone PNone) ;;
   node2if <- on_nodeobj node2 (addInterface macs.2 PNone PNone) ;;
   do_add_edge node1 node2 ;;;
   capbits <- lift (unhumanize_capacity capacity) ;;
   delaysec <- lift (unhumanize_delay delay) ;;
   setitem_edge node1 node2 "label"
     (AStr (humanize_capacity capbits +:+ " " +:+ humanize_delay delaysec)) ;;;
   setitem_edge node1 node2 "capacity" (AInt capbits) ;;;
   setitem_edge node1 node2 "delay" (AFloat delaysec) ;;;
   setitem_edge node1 node2 node1 (AStr node1if) ;;;
   setitem_edge node1 node2 node2 (AStr node2if) ;;;
   ret (node1if, node2if))%topo.

(** [Topology.addLink] returns nothing. *)
Definition addLink (node1 node2 capacity delay : string) : M Topology unit :=
  (addLink_body node1 node2 capacity delay ;;; ret tt)%topo.

(** [Topology.getLinkInterfaces] (line 355 reads [linkdata[node1]] twice) *)
Definition getLinkInterfaces (node1 node2 : string) : M Topology (attr * attr) :=
  (linkdata <- getLink node1 node2 ;;
   a <- lift (getitem linkdata node1) ;;
   b <- lift (getitem linkdata node1) ;;
   ret (a, b))%topo.

(** [Topology.setInterfaceAddresses] *)
Definition setInterfaceAddresses (n interface : string) (mac ip mask : pyval) : M Topology unit :=
  (_ <- getNode n ;;
   on_nodeobj n (fun obj =>
     match dict_get (interfaces obj) interface with
     | None => (Raise (KeyError interface), obj)
     | Some intf =>
         let intf1 := if truthy mac
                      then mkInterface (name intf) (ethaddr_setter mac) (ipaddr intf) (netmask intf)
                      else intf in
         let intf2 := if truthy ip
                      then mkInterface (name intf1) (ethaddr intf1) (ipaddr_setter ip) (netmask intf1)
                      else intf1 in
         let intf3 := if truthy mask
                      then mkInterface (name intf2) (ethaddr intf2) (ipaddr intf2) (netmask_setter mask)
                      else intf2 in
         (Return tt, mkNode (cls obj) (ifnum obj) (dict_set (interfaces obj) interface intf3))
     end))%topo.

(** [Topology.getInterfaceAddresses] *)
Definition getInterfaceAddresses (n interface : string) : M Topology (pyval * pyval * pyval) :=
  (ndict <- getNode n ;;
   intf <- lift (getitem (interfaces (nodeobj ndict)) interface) ;;
   ret (ethaddr intf, ipaddr intf, netmask intf))%topo.

(** ** Address assignment *)

(** [ipaddress.IPv4Network]: the network address and the prefix length.
    The standard library's parsing of the text [str(prefix)] is not
    modelled: a prefix is given as the address and the prefix length that
    the text denotes.  [strict=False] masks the host bits away. *)
Record IPv4Network : Type := mkIPv4Network {
  network_address : N;
  prefixlen : N
}.

Definition mask_of (plen : N) : N := 2 ^ 32 - 2 ^ (32 - plen).

Definition IPv4Network_init (address plen : N) : outcome IPv4Network :=
  if (address <? 2 ^ 32) && (plen <=? 32)
  then Return {| network_address := N.land address (mask_of plen); prefixlen := plen |}
  else Raise ValueError.

Definition subnet_netmask (subnet : IPv4Network) : N := mask_of (prefixlen subnet).
Definition broadcast_address (subnet : IPv4Network) : N :=
  network_address subnet + 2 ^ (32 - prefixlen subnet) - 1.

(** A generator over [range(cur, stop)]. *)
Record generator : Type := mkGenerator { cur : N; stop : N }.

(** What [subnet.hosts()] returns: a generator or a list. *)
Inductive iterable : Type :=
| Gen (g : generator)
| Lst (l : list N).

(** [subnet.hosts()], as in the [ipaddress] module of Python 3.11: a
    generator over the addresses strictly between the network and the
    broadcast address; for a /31 a generator over its two addresses
    ([self.hosts = self.__iter__]); for a /32 a list of its one address
    ([self.hosts = lambda: [IPv4Address(addr)]]).  (In older versions of
    the module a /32 had no special case and gave the empty generator.) *)
Definition subnet_hosts (subnet : IPv4Network) : iterable :=
  if decide (prefixlen subnet = 31)
  then Gen {| cur := network_address subnet; stop := broadcast_address subnet + 1 |}
  else if decide (prefixlen subnet = 32)
  then Lst [network_address subnet]
  else Gen {| cur := network_address subnet + 1; stop := broadcast_address subnet |}.

(** [next(g)] on a generator *)
Definition generator_next (g : generator) : outcome N * generator :=
  if cur g <? stop g then (Return (cur g), {| cur := cur g + 1; stop := stop g |})
  else (Raise StopIteration, g).

(** [next(it)]: a list is not an iterator, and [next] raises [TypeError]
    on it. *)
Definition next (it : iterable) : outcome N * iterable :=
  match it with
  | Gen g => let '(r, g') := generator_next g in (r, Gen g')
  | Lst _ => (Raise TypeError, it)
  end.

(** [sorted] on a list of pairs of strings: tuples compare
    lexicographically, strings by code point. *)
Definition tuple_le (p q : string * string) : bool :=
  match String.compare p.1 q.1 with
  | Lt => true
  | Gt => false
  | Eq => String.leb p.2 q.2
  end.

Fixpoint insert_tuple (p : string * string) (l : list (string * string)) : list (string * string) :=
  match l with
  | [] => [p]
  | q :: l' => if tuple_le p q then p :: l else q :: insert_tuple p l'
  end.

Definition sorted (l : list (string * string)) : list (string * string) :=
  foldr insert_tuple [] l.

(** Lines 341-346, the body of the inner loop for one endpoint [n] of a
    link whose attribute dictionary is [linkdata].  The state is the
    topology together with [ipgenerator]. *)
Definition assign_endpoint (mask : N) (nodes_to_number : list string)
    (linkdata : dict attr) (n : string) : M (Topology * iterable) unit :=
  fun '(self, ipgenerator) =>
    if decide (n ∈ nodes_to_number) then
      match dict_get linkdata n with
      | None => (Raise (KeyError n), (self, ipgenerator))
      | Some (AStr ifname) =>
          let G := nxgraph self in
          match dict_get (node G) n with
          | None => (Raise (KeyError n), (self, ipgenerator))
          | Some ndict =>
              match dict_get (interfaces (nodeobj ndict)) ifname with
              | None => (Raise (KeyError ifname), (self, ipgenerator))
              | Some intf =>
                  match next ipgenerator with
                  | (Return a, g) =>
                      let intf' := mkInterface (name intf) (ethaddr intf)
                                     (ipaddr_setter (PIPv4Address a))
                                     (netmask_setter (PIPv4Address mask)) in
                      let obj := nodeobj ndict in
                      let obj' := mkNode (cls obj) (ifnum obj)
                                    (dict_set (interfaces obj) ifname intf') in
                      (Return tt,
                       (set_nxgraph self
                          {| graph_name := graph_name G;
                             node := dict_set (node G) n
                                       {| label := label ndict; nodeobj := obj'; type := type ndict |};
                             edge := edge G |}, g))
                  | (Raise e, g) => (Raise e, (self, g))
                  end
              end
          end
      | Some _ => (Raise (KeyError ""), (self, ipgenerator))  (* the key is not a string *)
      end
    else (Return tt, (self, ipgenerator)).

(** Lines 338-346, the outer loop over the sorted links. *)
Fixpoint assign_links (mask : N) (nodes_to_number : list string)
    (ls : list (string * string)) : M (Topology * iterable) unit :=
  match ls with
  | [] => ret tt
  | (u, v) :: rest =>
      (linkdata <- (fun st => let '(r, self) := getLink u v st.1 in (r, (self, st.2))) ;;
       assign_endpoint mask nodes_to_number linkdata u ;;;
       assign_endpoint mask nodes_to_number linkdata v ;;;
       assign_links mask nodes_to_number rest)%topo
  end.

(** [Topology.assignIPAddresses] *)
Definition assignIPAddresses (prefix : option (N * N)) : M Topology unit :=
  fun self =>
    match (match prefix with
           | None => IPv4Network_init 167772160 8        (* '10.0.0.0/8' *)
           | Some (address, plen) => IPv4Network_init address plen
           end) with
    | Raise e => (Raise e, self)
    | Return subnet =>
        let ipgenerator := subnet_hosts subnet in
        let nodes_to_number := (hosts self ++ routers self) in
        let '(r, (self', _)) :=
          assign_links (subnet_netmask subnet) nodes_to_number (sorted (links self))
                       (self, ipgenerator) in
        (r, self')
    end.

(** ** Relabelling and union *)

Definition renamer (prefix name : string) : string := prefix +:+ "_" +:+ name.

(** [d0.update(d)] *)
Definition dict_update {V} (d0 d : dict V) : dict V :=
  foldl (fun acc kx => dict_set acc kx.1 kx.2) d0 d.

(** [R.add_edge(u, v, attr_dict=d)] on the edges of [R] *)
Definition add_edge_data (E : list (string * string * dict attr)) (u v : string) (d : dict attr)
  : list (string * string * dict attr) :=
  match lookup_edge E u v with
  | Some _ => edge_apply E u v (fun d0 => dict_update d0 d)
  | None => E ++ [(u, v, d)]
  end.

(** [R.add_edges_from(es)] on the edges of [R] *)
Definition add_edges_from (E es : list (string * string * dict attr))
  : list (string * string * dict attr) :=
  foldl (fun E e => add_edge_data E e.1.1 e.1.2 e.2) E es.

(** The names of the node table after nodes were added: a name that is
    there stays where it is, a new one goes to the end.  [add_edges_from]
    adds the two ends of every edge in this way, [add_nodes_from] the
    nodes it is given. *)
Definition add_names (names new : list string) : list string :=
  foldl (fun acc n => if decide (n ∈ acc) then acc else acc ++ [n]) names new.

(** [nx.relabel_nodes(G, f, copy=True)] for a one-to-one [f], as in
    networkx 1.x ([_relabel_copy]): the new graph first gets the edges of
    [G.edges_iter(data=True)] with both ends renamed, then the renamed
    nodes, and then every node its attribute dictionary.  So the nodes of
    the new graph come in the order in which the edges name them, followed
    by the nodes without an edge.  (A name without an entry in the
    attribute table cannot occur: the ends of an edge are nodes.) *)
Definition relabel_nodes (G : Graph) (f : string -> string) : Graph :=
  let es := map (fun '(u, v, d) => (f u, f v, d)) (Graph_edges G) in
  let attrs := map (fun '(n, ndict) => (f n, ndict)) (node G) in
  let names := add_names (add_names [] (concat (map (fun e => [e.1.1; e.1.2]) es)))
                         (map f (Graph_nodes G)) in
  {| graph_name := graph_name G;
     node := omap (fun m => pair m <$> dict_get attrs m) names;
     edge := add_edges_from [] es |}.

(** [G[u][v][new] = G[u][v][old]; del G[u][v][old]] *)
Definition rekey (G : Graph) (u v new old : string) : outcome Graph :=
  match find_edge G u v with
  | None => Raise (KeyError v)
  | Some d =>
      match dict_get d old with
      | None => Raise (KeyError old)
      | Some x =>
          Return {| graph_name := graph_name G; node := node G;
                    edge := edge_apply (edge G) u v
                              (fun d => dict_del (dict_set d new x) old) |}
      end
  end.

(** Lines 391-395 *)
Fixpoint relabel_edges (plen : nat) (es : list (string * string * dict attr)) (G : Graph)
  : outcome Graph :=
  match es with
  | [] => Return G
  | (u, v, _) :: rest =>
      obind (rekey G u v u (string_drop (plen + 1) u)) (fun G1 =>
      obind (rekey G1 u v v (string_drop (plen + 1) v)) (fun G2 =>
      relabel_edges plen rest G2))
  end.

(** [Topology.__relabel_graph] with a string prefix *)
Definition relabel_graph (nxgraph : Graph) (prefix : string) : outcome Graph :=
  let G1 := relabel_nodes nxgraph (renamer prefix) in
  let G2 := {| graph_name := graph_name G1;
               node := map (fun '(n, ndict) =>
                              (n, {| label := n; nodeobj := nodeobj ndict; type := type ndict |}))
                           (node G1);
               edge := edge G1 |} in
  relabel_edges (String.length prefix) (Graph_edges G2) G2.

(** [nx.union(G, H, name=name)]: refuses graphs that share a node; the
    result has the nodes and edges of both.  The graph attributes of [G]
    and then of [H] are copied over the [name] given, so the name that
    stays is the one of [H]. *)
Definition nx_union (G H : Graph) (name : string) : outcome Graph :=
  if existsb (has_node H) (Graph_nodes G) then Raise NetworkXError
  else
    Return {| graph_name := graph_name H;
              node := node G ++ node H;
              edge := foldl (fun E e => add_edge_data E e.1.1 e.1.2 e.2) []
                            (Graph_edges G ++ Graph_edges H) |}.

(** [self.union(other, rename)]; the state is the pair [(self, other)]. *)
Definition union (rename : bool) : M (Topology * Topology) Topology :=
  fun '(self, other) =>
    let renamed : outcome unit * (Topology * Topology) :=
      if rename then
        match relabel_graph (nxgraph self) (topo_name self) with
        | Raise e => (Raise e, (self, other))
        | Return G1 =>
            match relabel_graph (nxgraph other) (topo_name other) with
            | Raise e => (Raise e, (set_nxgraph self G1, other))
            | Return G2 => (Return tt, (set_nxgraph self G1, set_nxgraph other G2))
            end
        end
      else (Return tt, (self, other)) in
    match renamed with
    | (Raise e, st) => (Raise e, st)
    | (Return _, (self, other)) =>
        let name := topo_name self +:+ "_" +:+ topo_name other in
        match nx_union (nxgraph self) (nxgraph other) name with
        | Raise e => (Raise e, (self, other))
        | Return G => (Return (Topology_init name (Some G) true), (self, other))
        end
    end.

(** ** Serialisation

    [json.dumps] and [json.loads] are taken as each other's inverse on the
    documents that occur here; [serialize] gives and [unserialize] takes
    the document itself. *)

#[warnings="-register-all"]
Inductive json : Type :=
| JBool (b : bool)
| JInt (z : Z)
| JFloat (d : float)
| JStr (s : string)
| JList (l : list json)
| JObj (o : dict json).

Definition json_of_attr (a : attr) : json :=
  match a with AStr s => JStr s | AInt z => JInt z | AFloat d => JFloat d end.

Definition attr_of_json (j : json) : outcome attr :=
  match j with
  | JStr s => Return (AStr s)
  | JInt z => Return (AInt z)
  | JFloat d => Return (AFloat d)
  | _ => Raise MalformedJSON
  end.

(** [Encoder.default] on a node object: [asDict] as a JSON object. *)
Definition json_of_node (o : Node) : json :=
  let '(nodetype, ifdict) := asDict o in
  JObj [("nodetype", JStr nodetype);
        ("interfaces", JObj (map (fun kv => (kv.1, JStr kv.2)) ifdict))].

(** The position of a node in [G.nodes()]. *)
Fixpoint position (l : list string) (n : string) : Z :=
  match l with
  | [] => 0
  | m :: l' => if decide (m = n) then 0 else (1 + position l' n)%Z
  end.

(** [json_graph.node_link_data(G)] *)
Definition node_link_data (G : Graph) : json :=
  JObj [("directed", JBool false);
        ("graph", JList [JList [JStr "name"; JStr (graph_name G)]]);
        ("nodes", JList (map (fun '(n, ndict) =>
                    JObj [("label", JStr (label ndict));
                          ("nodeobj", json_of_node (nodeobj ndict));
                          ("type", JStr (type ndict));
                          ("id", JStr n)]) (node G)));
        ("links", JList (map (fun '(u, v, d) =>
                    JObj (dict_set
                            (dict_set (map (fun kx => (kx.1, json_of_attr kx.2)) d)
                                      "source" (JInt (position (Graph_nodes G) u)))
                            "target" (JInt (position (Graph_nodes G) v))))
                    (Graph_edges G)));
        ("multigraph", JBool false)].

(** [Topology.serialize] *)
Definition serialize (self : Topology) : json := node_link_data (nxgraph self).

(** Reading a document back. *)
Definition as_obj (j : json) : outcome (dict json) :=
  match j with JObj o => Return o | _ => Raise MalformedJSON end.
Definition as_list (j : json) : outcome (list json) :=
  match j with JList l => Return l | _ => Raise MalformedJSON end.
Definition as_str (j : json) : outcome string :=
  match j with JStr s => Return s | _ => Raise MalformedJSON end.
Definition as_index (j : json) : outcome nat :=
  match j with JInt z => Return (Z.to_nat z) | _ => Raise MalformedJSON end.

Fixpoint mapM {A B} (f : A -> outcome B) (l : list A) : outcome (list B) :=
  match l with
  | [] => Return []
  | x :: l' => obind (f x) (fun y => obind (mapM f l') (fun ys => Return (y :: ys)))
  end.

Fixpoint foldM {A B} (f : B -> A -> outcome B) (l : list A) (b : B) : outcome B :=
  match l with
  | [] => Return b
  | x :: l' => obind (f b x) (foldM f l')
  end.

(** The graph that [json_graph.node_link_graph] builds: the attribute
    dictionary of a node still holds JSON values. *)
Record RawGraph : Type := mkRawGraph {
  raw_name : string;
  raw_node : dict (dict json);
  raw_edge : list (string * string * dict attr)
}.

(** [dict(data['graph'])['name']] *)
Fixpoint graph_attr_name (pairs : list json) : outcome string :=
  match pairs with
  | [] => Raise MalformedJSON
  | JList [JStr k; v] :: rest =>
      if decide (k = "name") then as_str v else graph_attr_name rest
  | _ :: rest => graph_attr_name rest
  end.

(** One round of the loop over [data['nodes']].  A node id is a string
    here. *)
Definition raw_add_node (nd : dict (dict json)) (d : json) : outcome (dict (dict json)) :=
  obind (as_obj d) (fun d =>
  obind (getitem d "id") (fun id =>
  obind (as_str id) (fun n =>
  let nodedata := dict_del d "id" in
  Return (dict_set nd n (match dict_get nd n with
                         | Some old => dict_update old nodedata
                         | None => nodedata
                         end))))).

(** One round of the loop over [data['links']] *)
Definition raw_add_link (mapping : list string) (E : list (string * string * dict attr)) (d : json)
  : outcome (list (string * string * dict attr)) :=
  obind (as_obj d) (fun d =>
  obind (getitem d "source") (fun src =>
  obind (getitem d "target") (fun tgt =>
  obind (as_index src) (fun src =>
  obind (as_index tgt) (fun tgt =>
  obind (index mapping src) (fun u =>
  obind (index mapping tgt) (fun v =>
  obind (mapM (fun kj => obind (attr_of_json kj.2) (fun a => Return (kj.1, a)))
              (dict_del (dict_del d "source") "target")) (fun edgedata =>
  Return (add_edge_data E u v edgedata))))))))).

(** [json_graph.node_link_graph(topod)] *)
Definition node_link_graph (topod : json) : outcome RawGraph :=
  obind (as_obj topod) (fun data =>
  obind (getitem data "graph") (fun g =>
  obind (as_list g) (fun g =>
  obind (graph_attr_name g) (fun name =>
  obind (getitem data "nodes") (fun ns =>
  obind (as_list ns) (fun ns =>
  obind (foldM raw_add_node ns []) (fun nd =>
  obind (mapM (fun d => obind (as_obj d) (fun d => obind (getitem d "id") as_str)) ns)
        (fun mapping =>
  obind (getitem data "links") (fun ls =>
  obind (as_list ls) (fun ls =>
  obind (foldM (raw_add_link mapping) ls []) (fun E =>
  Return {| raw_name := name; raw_node := nd; raw_edge := E |}))))))))))).

(** The keyword argument [interfaces], if [kwargs] has that key. *)
Definition kw_interfaces (kwargs : dict json) : outcome (option (dict string)) :=
  match dict_get kwargs "interfaces" with
  | None => Return None
  | Some j =>
      obind (as_obj j) (fun items =>
      obind (mapM (fun kj => obind (as_str kj.2) (fun s => Return (kj.1, s))) items) (fun l =>
      Return (Some l)))
  end.

(** Lines 307-311, one round of the loop of [unserialize] over the nodes of
    the graph.  Line 311 calls the class with the attribute dictionary of
    the node, [ndict], as keyword arguments.  The keys ['label'] and
    ['type'], which the rest of the class reads, are required here. *)
Definition unserialize_node (n : string) (ndict : dict json) : outcome NodeAttrs :=
  match dict_get ndict "nodeobj" with
  | None => Raise (MissingNodeobj n)
  | Some nobj =>
      obind (as_obj nobj) (fun nobj =>
      obind (getitem nobj "nodetype") (fun ty =>
      obind (as_str ty) (fun ty =>
      obind (eval_class ty) (fun c =>
      obind (kw_interfaces ndict) (fun kw =>
      obind (Node_init c kw) (fun obj =>
      obind (obind (getitem ndict "label") as_str) (fun l =>
      obind (obind (getitem ndict "type") as_str) (fun t =>
      Return {| label := l; nodeobj := obj; type := t |}))))))))
  end.

(** [Topology.unserialize] *)
Definition unserialize (jsonstr : json) : outcome Topology :=
  obind (node_link_graph jsonstr) (fun G =>
  obind (mapM (fun kv => obind (unserialize_node kv.1 kv.2) (fun a => Return (kv.1, a)))
              (raw_node G)) (fun nd =>
  Return (Topology_init "No name topology"
            (Some {| graph_name := raw_name G; node := nd; edge := raw_edge G |}) true))).

End Topo.

(** ** A formatting collaborator to run examples with

    It knows the two strings of the spec's example scenario and refuses
    every other one. *)

(** 0.01 as a double: 5764607523034235 * 2^-59 *)
Definition ten_ms : float := S754_finite false 5764607523034235 (-59).

Definition example_formatting : Formatting :=
  {| unhumanize_capacity := fun s =>
       if decide (s = "100mbps") then Return 100000000%Z else Raise (FormatError s);
     unhumanize_delay := fun s =>
       if decide (s = "10ms") then Return ten_ms else Raise (FormatError s);
     humanize_capacity := fun z => str_int (Z.to_N z) +:+ " bits/s";
     humanize_delay := fun d => "0.01 s" |}.

(** The example scenario of the spec: two hosts and a switch, two links. *)
Definition example_topology : outcome unit * Topology :=
  (addHost None ;;; addHost None ;;; addSwitch None ;;;
   addLink (F := example_formatting) "h0" "s0" "100mbps" "10ms" ;;;
   addLink (F := example_formatting) "h1" "s0" "100mbps" "10ms")%topo Topology_new.

(** The topology that the scenario builds. *)
Definition example_topo : Topology :=
  Eval vm_compute in example_topology.2.

Example example_topology_runs : example_topology = (Return tt, example_topo).
Proof. vm_compute. reflexivity. Qed.

(** Its link h0 - s0. *)
Definition example_linkdata : dict attr :=
  [("label", AStr "100000000 bits/s 0.01 s"); ("capacity", AInt 100000000);
   ("delay", AFloat ten_ms);
   ("h0", AStr "eth0"); ("s0", AStr "eth0")].

(** What [unserialize] makes of the serialised scenario. *)
Definition example_reloaded : outcome Topology :=
  Eval vm_compute in unserialize (serialize example_topo).

(** * Properties *)

(** ** Dictionaries *)

Section DictFacts.
Context {V : Type}.
Implicit Types (d : dict V) (k : string) (v : V).

Lemma dict_get_set_eq d k v : dict_get (dict_set d k v) k = Some v.
Proof.
  induction d as [|[k' v'] d IH]; simpl.
  - by rewrite decide_True.
  - destruct (decide (k' = k)) as [->|Hne]; simpl.
    + by rewrite decide_True.
    + by rewrite decide_False.
Qed.

Lemma dict_get_set_ne d k k' v : k ≠ k' → dict_get (dict_set d k v) k' = dict_get d k'.
Proof.
  intros Hne. induction d as [|[k0 v0] d IH]; simpl.
  - by rewrite decide_False.
  - destruct (decide (k0 = k)) as [->|Hne0]; simpl.
    + by rewrite !decide_False.
    + destruct (decide (k0 = k')); [done | apply IH].
Qed.

Lemma dict_get_None d k : dict_get d k = None ↔ k ∉ keys d.
Proof.
  unfold keys. induction d as [|[k' v'] d IH]; simpl.
  - split; [intros _; apply not_elem_of_nil | done].
  - rewrite not_elem_of_cons. destruct (decide (k' = k)) as [->|Hne].
    + split; [done | intros [? _]; done].
    + rewrite IH. split; [intros ?; split; [congruence | done] | intros [_ ?]; done].
Qed.

Lemma dict_get_Some_elem d k v : dict_get d k = Some v → (k, v) ∈ d.
Proof.
  induction d as [|[k' v'] d IH]; simpl; [done|].
  destruct (decide (k' = k)) as [->|Hne].
  - intros [= ->]. apply list_elem_of_here.
  - intros H. apply list_elem_of_further, IH, H.
Qed.

Lemma dict_get_is_Some d k : is_Some (dict_get d k) ↔ k ∈ keys d.
Proof.
  destruct (dict_get d k) eqn:E.
  - split; [intros _ | by eauto].
    destruct (decide (k ∈ keys d)) as [|Hn]; [done|].
    apply dict_get_None in Hn. congruence.
  - split; [intros [? ?]; done |].
    intros Hin. apply dict_get_None in E. done.
Qed.

Lemma dict_has_true d k : dict_has d k = true ↔ k ∈ keys d.
Proof.
  unfold dict_has. rewrite <- dict_get_is_Some.
  destruct (dict_get d k); split; intros H; eauto; try done; by destruct H.
Qed.

Lemma keys_dict_set_in d k v : k ∈ keys d → keys (dict_set d k v) = keys d.
Proof.
  unfold keys. induction d as [|[k' v'] d IH]; simpl.
  - intros H. by apply elem_of_nil in H.
  - intros H. destruct (decide (k' = k)) as [->|Hne]; simpl; [done|].
    f_equal. apply IH. apply elem_of_cons in H as [?|?]; [congruence | done].
Qed.

Lemma keys_dict_set_notin d k v : k ∉ keys d → keys (dict_set d k v) = keys d ++ [k].
Proof.
  unfold keys. induction d as [|[k' v'] d IH]; simpl; [done|].
  intros H. apply not_elem_of_cons in H as [Hne Hn].
  rewrite decide_False by congruence. simpl. f_equal. by apply IH.
Qed.

Lemma NoDup_keys_dict_set d k v : NoDup (keys d) → NoDup (keys (dict_set d k v)).
Proof.
  intros Hnd. destruct (decide (k ∈ keys d)) as [Hin|Hn].
  - by rewrite keys_dict_set_in.
  - rewrite keys_dict_set_notin by done. apply NoDup_app. split; [done|].
    split; [| apply NoDup_singleton].
    intros x Hx Hx'. apply list_elem_of_singleton in Hx'. by subst.
Qed.


End DictFacts.

(** ** Text of numbers *)

Lemma append_inj_r (p s1 s2 : string) : p +:+ s1 = p +:+ s2 → s1 = s2.
Proof. induction p as [|c p IH]; simpl; [done|]. intros [= H]. by apply IH. Qed.

Lemma str_int_inj (a b : N) : str_int a = str_int b → a = b.
Proof. unfold str_int. apply (inj pretty). Qed.

Lemma auto_name_inj (prefix : string) (a b : N) :
  prefix +:+ str_int a = prefix +:+ str_int b → a = b.
Proof. intros H. by apply str_int_inj, (append_inj_r prefix). Qed.

(** ** Nodes and their interface names *)

(** Every interface with an automatic name lies below the counter. *)
Definition counter_ahead (n : Node) : Prop :=
  ∀ j, "eth" +:+ str_int j ∈ keys (interfaces n) → j < ifnum n.

Lemma counter_ahead_new (c : NodeClass) : counter_ahead (Node_new c).
Proof. intros j H. by apply elem_of_nil in H. Qed.

Lemma addInterface_value (e i m : pyval) (n : Node) :
  (addInterface e i m n).1 = Return ("eth" +:+ str_int (ifnum n)).
Proof. done. Qed.

Lemma addInterface_fresh (e i m : pyval) (n : Node) :
  counter_ahead n →
  ("eth" +:+ str_int (ifnum n) ∉ keys (interfaces n)) ∧
  counter_ahead (addInterface e i m n).2.
Proof.
  intros Hok. assert (Hfresh : "eth" +:+ str_int (ifnum n) ∉ keys (interfaces n)).
  { intros Hin. apply Hok in Hin. lia. }
  split; [done|]. intros j. simpl. rewrite keys_dict_set_notin by done.
  rewrite elem_of_app, list_elem_of_singleton. intros [Hin | Heq].
  - apply Hok in Hin. lia.
  - apply auto_name_inj in Heq. lia.
Qed.

(** C9, at the failing input: a [Host] made with one interface, [eth0], as
    [Node.__init__] makes it from the keyword argument [interfaces], has its
    counter at zero; [addInterface] then returns the name [eth0] again and
    the interface that was there is replaced. *)
Theorem addInterface_reuses_loaded_name :
  ∃ n0 old,
    Node_init Host (Some [("eth0", "eth0 mac:00:00:00:00:00:01")]) = Return n0 ∧
    dict_get (interfaces n0) "eth0" = Some old ∧
    ethaddr old = PEthAddr "00:00:00:00:00:01" ∧
    (addInterface PNone PNone PNone n0).1 = Return "eth0" ∧
    interfaces (addInterface PNone PNone PNone n0).2
    = [("eth0", Interface_init "eth0" PNone PNone PNone)].
Proof. eexists _, _. repeat split. Qed.

Section Queries.

(** ** getLinkInterfaces *)

(** The reading under which the name at [node2] is never in the pair. *)
Definition second_name_absent (t : Topology) (node1 node2 : string) : Prop :=
  ∀ linkdata a b,
    getLink node1 node2 t = (Return linkdata, t) →
    dict_get linkdata node1 = Some a →
    dict_get linkdata node2 = Some b →
    getLinkInterfaces node1 node2 t = (Return (a, a), t) ∧ b ≠ a.

(** C10, as amended: for an existing link whose attributes record an
    interface name [a] for [node1], [getLinkInterfaces node1 node2] returns
    the pair [(a, a)] and leaves the topology alone; the name recorded for
    [node2] is in the pair exactly when it is the same as [a]. *)
Theorem getLinkInterfaces_first_name_twice (t : Topology) (node1 node2 : string)
    (linkdata : dict attr) (a : attr) :
  getLink node1 node2 t = (Return linkdata, t) →
  dict_get linkdata node1 = Some a →
  getLinkInterfaces node1 node2 t = (Return (a, a), t) ∧
  ∀ b, dict_get linkdata node2 = Some b → (b = a ↔ (b = (a, a).1 ∨ b = (a, a).2)).
Proof.
  intros Hlink Ha. split.
  - unfold getLinkInterfaces, bind, lift, ret, getitem. rewrite Hlink, Ha. done.
  - intros b _. simpl. tauto.
Qed.

End Queries.

(** C10, a witness: the link h0 - s0 of the example scenario. *)
Lemma getLinkInterfaces_first_name_twice_witness :
  getLinkInterfaces "h0" "s0" example_topo
  = (Return (AStr "eth0", AStr "eth0"), example_topo).
Proof.
  refine (proj1 (getLinkInterfaces_first_name_twice
                   example_topo "h0" "s0" example_linkdata (AStr "eth0") _ _));
    vm_compute; reflexivity.
Defined.

(** C10, the counterexample: on the link h0 - s0 of the example scenario the
    interface at s0 is [eth0], which is also the name at h0, so it is in the
    pair. *)
Lemma second_name_appears :
  ¬ second_name_absent example_topo "h0" "s0".
Proof.
  intros H.
  destruct (H example_linkdata (AStr "eth0") (AStr "eth0")) as [_ Hne];
    [vm_compute; reflexivity .. | by apply Hne].
Qed.

(** ** The round trip through serialize and unserialize *)

(** C1, at the failing input: the example scenario is serialised and read
    back without an error, with the same node names, but h0, which had the
    interface [eth0] with an automatic MAC, comes back with no interface at
    all: line 311 passes the attribute dictionary of the node, which has no
    key ['interfaces'], where [Node.__init__] looks for that key. *)
Theorem unserialize_serialize_loses_interfaces :
  ∃ t' nd nd',
    unserialize (serialize example_topo) = Return t' ∧
    nodes t' = nodes example_topo ∧
    dict_get (node (nxgraph example_topo)) "h0" = Some nd ∧
    dict_get (node (nxgraph t')) "h0" = Some nd' ∧
    keys (interfaces (nodeobj nd)) = ["eth0"] ∧
    interfaces (nodeobj nd') = [].
Proof.
  destruct example_reloaded as [t'|e] eqn:E; [|discriminate E].
  exists t', (mkNodeAttrs "h0" (mkNode Host 1
                [("eth0", mkInterface "eth0" (PEthAddr "00:00:00:00:00:01")
                             (PStr "0.0.0.0") (PStr "255.255.255.255"))]) "Host"),
    (mkNodeAttrs "h0" (mkNode Host 0 []) "Host").
  injection E as <-. vm_compute. repeat split.
Qed.

(** ** Node names *)

Lemma size_list_to_set_le (l : list string) : (size (list_to_set l : gset string) ≤ length l)%nat.
Proof.
  induction l as [|x l IH].
  - by rewrite list_to_set_nil, size_empty.
  - rewrite list_to_set_cons, size_union_alt, size_singleton. simpl.
    pose proof (subseteq_size (list_to_set l ∖ {[x]}) (list_to_set l : gset string)) as Hle.
    assert (size (list_to_set l ∖ {[x]} : gset string) ≤ size (list_to_set l : gset string))%nat
      by (apply Hle; set_solver).
    lia.
Qed.

Section Naming.

Lemma has_node_true (G : Graph) (n : string) : has_node G n = true ↔ n ∈ Graph_nodes G.
Proof. apply dict_has_true. Qed.

Lemma has_node_false (G : Graph) (n : string) : has_node G n = false ↔ n ∉ Graph_nodes G.
Proof. rewrite <- has_node_true. destruct (has_node G n); split; congruence. Qed.

Lemma next_name_spec (prefix : string) (G : Graph) (fuel : nat) (k : N) (name : string) (k' : N) :
  next_name prefix G fuel k = Some (name, k') →
  ∃ j, k ≤ j ∧ name = prefix +:+ str_int j ∧ k' = j + 1 ∧ name ∉ Graph_nodes G.
Proof.
  revert k. induction fuel as [|fuel IH]; intros k; simpl; [done|].
  destruct (has_node G (prefix +:+ str_int k)) eqn:E.
  - intros H. apply IH in H as (j & ? & ? & ? & ?). exists j. repeat split; [lia | done ..].
  - intros [= <- <-]. exists k. repeat split; [lia | by apply has_node_false].
Qed.

Lemma next_name_enough_fuel (prefix : string) (G : Graph) (fuel : nat) (k : N) (X : gset string) :
  (size X < fuel)%nat →
  (∀ j, k ≤ j → prefix +:+ str_int j ∈ Graph_nodes G → prefix +:+ str_int j ∈ X) →
  is_Some (next_name prefix G fuel k).
Proof.
  revert k X. induction fuel as [|fuel IH]; intros k X Hsize Hin; simpl; [lia|].
  destruct (has_node G (prefix +:+ str_int k)) eqn:E; [|by eauto].
  apply has_node_true in E.
  assert (HkX : prefix +:+ str_int k ∈ X) by (apply Hin; [lia | done]).
  apply (IH (k + 1) (X ∖ {[prefix +:+ str_int k]})).
  - rewrite size_difference by set_solver. rewrite size_singleton.
    assert (size X ≠ 0%nat) by (intros H0; apply size_empty_inv in H0; set_solver).
    lia.
  - intros j Hj Hjn. apply elem_of_difference. split; [apply Hin; [lia | done]|].
    rewrite not_elem_of_singleton. intros Heq. apply auto_name_inj in Heq. lia.
Qed.

(** The loop always ends: one round more than there are nodes is enough. *)
Lemma next_name_total (prefix : string) (G : Graph) (k : N) :
  is_Some (next_name prefix G (S (length (Graph_nodes G))) k).
Proof.
  apply (next_name_enough_fuel prefix G _ k (list_to_set (Graph_nodes G))).
  - pose proof (size_list_to_set_le (Graph_nodes G)). lia.
  - intros j _ Hin. by apply elem_of_list_to_set.
Qed.

(** The three methods under one name. *)
Definition add_of_class (c : NodeClass) : option string → M Topology string :=
  match c with Host => addHost | Switch => addSwitch | Router => addRouter end.

Definition auto_prefix (c : NodeClass) : string :=
  match c with Host => "h" | Switch => "s" | Router => "r" end.

Definition counter (c : NodeClass) (t : Topology) : N :=
  match c with Host => hnum t | Switch => snum t | Router => rnum t end.

Lemma addNode_raise (name : string) (c : NodeClass) (t : Topology) :
  name ∈ nodes t → addNode name c t = (Raise (DuplicateNode name), t).
Proof. intros H. unfold addNode. by rewrite decide_True. Qed.

Lemma addNode_return (name : string) (c : NodeClass) (t : Topology) :
  name ∉ nodes t →
  ∃ t', addNode name c t = (Return tt, t') ∧ nodes t' = nodes t ++ [name] ∧
        hnum t' = hnum t ∧ snum t' = snum t ∧ rnum t' = rnum t ∧
        auto_macs t' = auto_macs t ∧ topo_ifnum t' = topo_ifnum t ∧
        edge (nxgraph t') = edge (nxgraph t).
Proof.
  intros H. unfold addNode. rewrite decide_False by done.
  eexists. split; [done|]. repeat split.
  unfold nodes, Graph_nodes. simpl. by apply keys_dict_set_notin.
Qed.

(** A call with a name that is given. *)
Lemma add_named (c : NodeClass) (n : string) (t : Topology) :
  add_of_class c (Some n) t = (addNode n c ;;; ret n)%topo t.
Proof. by destruct c. Qed.

(** A call without a name. *)
Lemma add_unnamed (c : NodeClass) (t : Topology) :
  ∃ j t', counter c t ≤ j ∧
    (auto_prefix c +:+ str_int j ∉ nodes t) ∧
    add_of_class c None t = (Return (auto_prefix c +:+ str_int j), t') ∧
    nodes t' = nodes t ++ [auto_prefix c +:+ str_int j] ∧
    counter c t' = j + 1 ∧
    (∀ c', c' ≠ c → counter c' t' = counter c' t).
Proof.
  destruct (next_name_total (auto_prefix c) (nxgraph t) (counter c t)) as [[name k] Hnext].
  destruct (next_name_spec _ _ _ _ _ _ Hnext) as (j & Hj & -> & -> & Hfresh).
  exists j.
  destruct c; simpl in *; unfold addHost, addSwitch, addRouter, nodes;
    rewrite Hnext; unfold bind, ret;
    match goal with
    | |- context [addNode ?n ?c ?t0] =>
        destruct (addNode_return n c t0 Hfresh) as (t' & -> & Hn & Hh & Hs & Hr & _)
    end;
    exists t'; simpl in *; (repeat split; try done);
    intros c' Hc'; destruct c'; simpl; congruence.
Qed.

(** A run of calls, with the outcome of each. *)
Fixpoint add_nodes (calls : list (NodeClass * option string)) (t : Topology)
  : list (outcome string) * Topology :=
  match calls with
  | [] => ([], t)
  | (c, name) :: rest =>
      let '(r, t1) := add_of_class c name t in
      let '(rs, t2) := add_nodes rest t1 in
      (r :: rs, t2)
  end.

Definition returned (rs : list (outcome string)) : list string :=
  omap (fun r => match r with Return n => Some n | Raise _ => None end) rs.

(** What one call does to the node names. *)
Lemma add_of_class_nodes (c : NodeClass) (name : option string) (t : Topology) :
  nodes (add_of_class c name t).2 = nodes t ++ returned [(add_of_class c name t).1] ∧
  (∀ n, (add_of_class c name t).1 = Return n → n ∉ nodes t) ∧
  (∀ c', counter c' t ≤ counter c' (add_of_class c name t).2).
Proof.
  destruct name as [n|].
  - rewrite add_named. unfold bind, ret.
    destruct (decide (n ∈ nodes t)) as [Hin|Hn].
    + rewrite (addNode_raise n c t Hin). simpl. rewrite app_nil_r.
      repeat split; [done | lia].
    + destruct (addNode_return n c t Hn) as (t' & -> & Hnodes & Hh & Hs & Hr & _). simpl.
      repeat split; [done | by intros ? [= <-] |].
      intros c'; destruct c'; simpl; lia.
  - destruct (add_unnamed c t) as (j & t' & Hj & Hfresh & -> & Hnodes & Hc & Hother). simpl.
    repeat split; [done | by intros ? [= <-] |].
    intros c'. destruct (decide (c' = c)) as [->|Hne]; [lia | rewrite Hother by done; lia].
Qed.

Lemma add_nodes_names (calls : list (NodeClass * option string)) (t : Topology) :
  nodes (add_nodes calls t).2 = nodes t ++ returned (add_nodes calls t).1 ∧
  (NoDup (nodes t) → NoDup (nodes (add_nodes calls t).2)).
Proof.
  revert t. induction calls as [|[c name] calls IH]; intros t; simpl.
  - rewrite app_nil_r. done.
  - destruct (add_of_class_nodes c name t) as (Hn & Hfresh & _).
    destruct (add_of_class c name t) as [r t1] eqn:E1. simpl in *.
    destruct (IH t1) as [IHn IHd].
    destruct (add_nodes calls t1) as [rs t2] eqn:E2. simpl in *.
    split.
    + rewrite IHn, Hn. unfold returned. simpl. destruct r; simpl; by rewrite <- ?app_assoc.
    + intros Hnd. apply IHd. rewrite Hn. unfold returned. simpl.
      destruct r as [n|e]; simpl; [|by rewrite app_nil_r].
      apply NoDup_app. split; [done|]. split; [| apply NoDup_singleton].
      intros x Hx Hx'. apply list_elem_of_singleton in Hx'. subst. by apply (Hfresh n).
Qed.

(** C6: node names stay unique.  For every topology and every one of
    [addHost], [addSwitch], [addRouter]: a call with a name that is already
    a node raises the duplicate-node exception and changes nothing; a call
    without a name returns [h<N>], [s<N>] or [r<N>] for an [N] that is not
    below the counter of that class, the name is not yet a node, and the
    counter goes to [N + 1]; no call lowers a counter.  Over every run of
    such calls the node names after the run are the names before followed
    by the names returned, and they are free of repeats if they were so
    before; so a returned name never equals an existing or an earlier
    returned one. *)
Theorem node_names_unique (t : Topology) :
  (∀ c n, n ∈ nodes t → add_of_class c (Some n) t = (Raise (DuplicateNode n), t)) ∧
  (∀ c, ∃ N t', counter c t ≤ N ∧
        add_of_class c None t = (Return (auto_prefix c +:+ str_int N), t') ∧
        (auto_prefix c +:+ str_int N ∉ nodes t) ∧
        counter c t' = N + 1) ∧
  (∀ c name c', counter c' t ≤ counter c' (add_of_class c name t).2) ∧
  (∀ calls,
      nodes (add_nodes calls t).2 = nodes t ++ returned (add_nodes calls t).1 ∧
      (NoDup (nodes t) → NoDup (nodes (add_nodes calls t).2))).
Proof.
  split; [|split; [|split]].
  - intros c n Hin. rewrite add_named. unfold bind. by rewrite (addNode_raise n c t Hin).
  - intros c. destruct (add_unnamed c t) as (j & t' & Hj & Hfresh & Hrun & _ & Hc & _).
    by exists j, t'.
  - intros c name c'. apply add_of_class_nodes.
  - intros calls. apply add_nodes_names.
Qed.

End Naming.

(** ** Links *)

Section Links.
Context {F : Formatting}.

(** The steps of [addLink] as functions on the topology. *)
Definition bump (t : Topology) : Topology := (alloc_macs t).2.
Definition with_interface (t : Topology) (n : string) (mac : pyval) : Topology :=
  (on_nodeobj n (addInterface mac PNone PNone) t).2.
Definition with_edge (t : Topology) (n1 n2 : string) : Topology := (do_add_edge n1 n2 t).2.
Definition with_attr (t : Topology) (n1 n2 k : string) (x : attr) : Topology :=
  (setitem_edge n1 n2 k x t).2.

Definition fresh_macs (t : Topology) : pyval * pyval :=
  if auto_macs t
  then (PStr (macaddr (topo_ifnum t)), PStr (macaddr (topo_ifnum t + 1)))
  else (PNone, PNone).

(** The name that [addInterface] gives on node [n]. *)
Definition new_ifname (t : Topology) (n : string) : string :=
  match dict_get (node (nxgraph t)) n with
  | Some a => "eth" +:+ str_int (ifnum (nodeobj a))
  | None => ""
  end.

(** The topology when line 284 is done: MACs drawn, both interfaces made,
    the edge in the graph. *)
Definition prepared (t : Topology) (n1 n2 : string) : Topology :=
  with_edge
    (with_interface (with_interface (bump t) n1 (fresh_macs t).1) n2 (fresh_macs t).2)
    n1 n2.

(** The topology when line 291 is done. *)
Definition labelled (t : Topology) (n1 n2 : string) (capbits : Z) (delaysec : float)
    (i1 i2 : string) : Topology :=
  with_attr (with_attr (with_attr (with_attr (with_attr t
    n1 n2 "label" (AStr (humanize_capacity capbits +:+ " " +:+ humanize_delay delaysec)))
    n1 n2 "capacity" (AInt capbits))
    n1 n2 "delay" (AFloat delaysec))
    n1 n2 n1 (AStr i1))
    n1 n2 n2 (AStr i2).

Lemma lookup_edge_apply E u v f a b :
  is_Some (lookup_edge (edge_apply E u v f) a b) ↔ is_Some (lookup_edge E a b).
Proof.
  induction E as [|[[x y] d] E IH]; cbn [edge_apply lookup_edge]; [reflexivity|].
  destruct (joins u v (x, y, d)) eqn:Ej; cbn [lookup_edge fst snd].
  - change (joins a b (x, y, f d)) with (joins a b (x, y, d)).
    destruct (joins a b (x, y, d)); [|reflexivity].
    split; intros _; eauto.
  - destruct (joins a b (x, y, d)); [|exact IH].
    split; intros _; eauto.
Qed.

Lemma length_edge_apply E u v f : length (edge_apply E u v f) = length E.
Proof.
  induction E as [|e E IH]; cbn [edge_apply]; [done|].
  destruct (joins u v e); simpl; by rewrite ?IH.
Qed.

Lemma find_edge_add_edge G u v : is_Some (find_edge (add_edge G u v) u v).
Proof.
  unfold add_edge, find_edge. destruct (lookup_edge (edge G) u v) eqn:E; [by rewrite E|].
  simpl. clear E. induction (edge G) as [|e E' IH]; cbn [lookup_edge app] in *.
  - unfold joins. rewrite bool_decide_true by done. simpl. eauto.
  - destruct (joins u v e); [by eauto | by apply IH].
Qed.

(** *** What each step keeps *)

(** [steady t t']: the two topologies have the same counters, flag, graph
    name and node names. *)
Definition steady (t t' : Topology) : Prop :=
  hnum t' = hnum t ∧ snum t' = snum t ∧ rnum t' = rnum t ∧
  auto_macs t' = auto_macs t ∧ graph_name (nxgraph t') = graph_name (nxgraph t) ∧
  nodes t' = nodes t.

Lemma steady_refl t : steady t t.
Proof. by repeat split. Qed.

Lemma steady_trans t1 t2 t3 : steady t1 t2 → steady t2 t3 → steady t1 t3.
Proof. unfold steady. intros (?&?&?&?&?&?) (?&?&?&?&?&?). repeat split; congruence. Qed.

Lemma bump_steady t : steady t (bump t).
Proof. unfold bump, alloc_macs. destruct (auto_macs t) eqn:E; by repeat split. Qed.

Lemma bump_nxgraph t : nxgraph (bump t) = nxgraph t.
Proof. unfold bump, alloc_macs. by destruct (auto_macs t). Qed.

Lemma bump_ifnum t :
  topo_ifnum (bump t) = if auto_macs t then topo_ifnum t + 2 else topo_ifnum t.
Proof. unfold bump, alloc_macs. destruct (auto_macs t); simpl; lia. Qed.

Lemma alloc_macs_run t : alloc_macs t = (Return (fresh_macs t), bump t).
Proof. unfold bump, fresh_macs, alloc_macs. by destruct (auto_macs t). Qed.

Lemma with_interface_steady t n mac : steady t (with_interface t n mac).
Proof.
  unfold with_interface, on_nodeobj.
  destruct (dict_get (node (nxgraph t)) n) as [a|] eqn:E; [|apply steady_refl].
  repeat split. unfold nodes, Graph_nodes. simpl.
  apply keys_dict_set_in, dict_get_is_Some. by eauto.
Qed.

Lemma with_interface_ifnum t n mac : topo_ifnum (with_interface t n mac) = topo_ifnum t.
Proof. unfold with_interface, on_nodeobj. by destruct (dict_get (node (nxgraph t)) n). Qed.

Lemma with_interface_edge t n mac : edge (nxgraph (with_interface t n mac)) = edge (nxgraph t).
Proof. unfold with_interface, on_nodeobj. by destruct (dict_get (node (nxgraph t)) n). Qed.

Lemma addInterface_run n mac t :
  has_node (nxgraph t) n = true →
  on_nodeobj n (addInterface mac PNone PNone) t = (Return (new_ifname t n), with_interface t n mac).
Proof.
  intros H. apply has_node_true, dict_get_is_Some in H as [a Ha].
  unfold with_interface, new_ifname, on_nodeobj. by rewrite Ha.
Qed.

Lemma with_edge_steady t n1 n2 : steady t (with_edge t n1 n2).
Proof.
  unfold with_edge, do_add_edge, add_edge.
  destruct (find_edge (nxgraph t) n1 n2); by repeat split.
Qed.

Lemma with_edge_ifnum t n1 n2 : topo_ifnum (with_edge t n1 n2) = topo_ifnum t.
Proof. done. Qed.

Lemma with_edge_node t n1 n2 : node (nxgraph (with_edge t n1 n2)) = node (nxgraph t).
Proof. unfold with_edge, do_add_edge, add_edge. by destruct (find_edge (nxgraph t) n1 n2). Qed.

Lemma with_edge_edge t n1 n2 :
  edge (nxgraph (with_edge t n1 n2)) = edge (add_edge (nxgraph t) n1 n2).
Proof. done. Qed.

Lemma with_edge_found t n1 n2 : is_Some (find_edge (nxgraph (with_edge t n1 n2)) n1 n2).
Proof. apply find_edge_add_edge. Qed.

Lemma with_attr_steady t n1 n2 k x : steady t (with_attr t n1 n2 k x).
Proof.
  unfold with_attr, setitem_edge. destruct (find_edge (nxgraph t) n1 n2); by repeat split.
Qed.

Lemma with_attr_ifnum t n1 n2 k x : topo_ifnum (with_attr t n1 n2 k x) = topo_ifnum t.
Proof. unfold with_attr, setitem_edge. by destruct (find_edge (nxgraph t) n1 n2). Qed.

Lemma with_attr_node t n1 n2 k x : node (nxgraph (with_attr t n1 n2 k x)) = node (nxgraph t).
Proof. unfold with_attr, setitem_edge. by destruct (find_edge (nxgraph t) n1 n2). Qed.

Lemma with_attr_edge t n1 n2 k x :
  is_Some (find_edge (nxgraph t) n1 n2) →
  edge (nxgraph (with_attr t n1 n2 k x)) = edge_update (edge (nxgraph t)) n1 n2 k x.
Proof. intros [d Hd]. unfold with_attr, setitem_edge. by rewrite Hd. Qed.

Lemma with_attr_found t n1 n2 k x a b :
  is_Some (find_edge (nxgraph (with_attr t n1 n2 k x)) a b) ↔ is_Some (find_edge (nxgraph t) a b).
Proof.
  unfold with_attr, setitem_edge. destruct (find_edge (nxgraph t) n1 n2) eqn:E; [|done].
  unfold find_edge, edge_update. simpl. apply lookup_edge_apply.
Qed.

Lemma with_attr_length t n1 n2 k x :
  length (edge (nxgraph (with_attr t n1 n2 k x))) = length (edge (nxgraph t)).
Proof.
  unfold with_attr, setitem_edge. destruct (find_edge (nxgraph t) n1 n2) eqn:E; [|done].
  simpl. apply length_edge_apply.
Qed.

Lemma setitem_edge_run t n1 n2 k x :
  is_Some (find_edge (nxgraph t) n1 n2) →
  setitem_edge n1 n2 k x t = (Return tt, with_attr t n1 n2 k x).
Proof. intros [d Hd]. unfold with_attr, setitem_edge. by rewrite Hd. Qed.

(** *** The run of [addLink] *)

Lemma addLink_body_no_node1 n1 n2 cap d t :
  has_node (nxgraph t) n1 = false → addLink_body n1 n2 cap d t = (Raise (NoNodeForLink n1), t).
Proof. intros H. unfold addLink_body, bind, check_node. by rewrite H. Qed.

Lemma addLink_body_no_node2 n1 n2 cap d t :
  has_node (nxgraph t) n1 = true → has_node (nxgraph t) n2 = false →
  addLink_body n1 n2 cap d t = (Raise (NoNodeForLink n2), t).
Proof. intros H1 H2. unfold addLink_body, bind, check_node. by rewrite H1, H2. Qed.

Lemma has_node_steady t t' n : steady t t' → has_node (nxgraph t') n = has_node (nxgraph t) n.
Proof.
  intros (_&_&_&_&_&Hn). unfold nodes in Hn.
  destruct (has_node (nxgraph t) n) eqn:E.
  - apply has_node_true. rewrite Hn. by apply has_node_true.
  - apply has_node_false. rewrite Hn. by apply has_node_false.
Qed.

Lemma addLink_body_run n1 n2 cap d t :
  has_node (nxgraph t) n1 = true → has_node (nxgraph t) n2 = true →
  addLink_body n1 n2 cap d t =
  match unhumanize_capacity cap with
  | Raise e => (Raise e, prepared t n1 n2)
  | Return capbits =>
      match unhumanize_delay d with
      | Raise e => (Raise e, prepared t n1 n2)
      | Return delaysec =>
          let i1 := new_ifname t n1 in
          let i2 := new_ifname (with_interface (bump t) n1 (fresh_macs t).1) n2 in
          (Return (i1, i2), labelled (prepared t n1 n2) n1 n2 capbits delaysec i1 i2)
      end
  end.
Proof.
  intros H1 H2. unfold addLink_body, bind, check_node. rewrite H1, H2.
  rewrite alloc_macs_run.
  rewrite addInterface_run by (by rewrite (has_node_steady _ _ _ (bump_steady t))).
  rewrite addInterface_run
    by (by rewrite (has_node_steady _ _ _ (with_interface_steady _ _ _)),
                   (has_node_steady _ _ _ (bump_steady t))).
  unfold do_add_edge at 1. fold (with_edge (with_interface (with_interface (bump t) n1 (fresh_macs t).1) n2
                       (fresh_macs t).2) n1 n2).
  fold (prepared t n1 n2). unfold lift.
  destruct (unhumanize_capacity cap) as [capbits|e]; [|done].
  destruct (unhumanize_delay d) as [delaysec|e]; [|done].
  assert (Hf : is_Some (find_edge (nxgraph (prepared t n1 n2)) n1 n2)) by apply with_edge_found.
  rewrite setitem_edge_run by done.
  rewrite setitem_edge_run by (by rewrite with_attr_found).
  rewrite setitem_edge_run by (by rewrite !with_attr_found).
  rewrite setitem_edge_run by (by rewrite !with_attr_found).
  rewrite setitem_edge_run by (by rewrite !with_attr_found).
  unfold ret, labelled, new_ifname. by rewrite bump_nxgraph.
Qed.

End Links.
Section LinkFacts.
Context {F : Formatting}.

(** *** The links depend on the endpoints only *)

Lemma report_endpoints n seen (E E' : list (string * string * dict attr)) :
  E.*1 = E'.*1 →
  (omap (report n seen) E).*1 = (omap (report n seen) E').*1.
Proof.
  revert E'. induction E as [|[[a b] d] E IH]; intros [|[[a' b'] d'] E']; simpl; try done.
  intros [= -> -> H]. specialize (IH E' H).
  destruct (decide (a' = n)); [destruct (decide (b' ∈ seen))|];
    [| |destruct (decide (b' = n)); [destruct (decide (a' ∈ seen))|]]; simpl;
    first [exact IH | f_equal; exact IH].
Qed.

Lemma edges_from_nodes_endpoints ns seen (E E' : list (string * string * dict attr)) :
  E.*1 = E'.*1 →
  (edges_from_nodes E ns seen).*1 = (edges_from_nodes E' ns seen).*1.
Proof.
  intros H. revert seen. induction ns as [|n ns IH]; intros seen; simpl; [done|].
  rewrite !fmap_app. by rewrite (report_endpoints n seen E E' H), IH.
Qed.

Lemma links_fst (t : Topology) : links t = (Graph_edges (nxgraph t)).*1.
Proof.
  unfold links. induction (Graph_edges (nxgraph t)) as [|[[a b] d] l IH]; simpl; [done|].
  by rewrite IH.
Qed.

Lemma links_endpoints (t t' : Topology) :
  nodes t' = nodes t → (edge (nxgraph t')).*1 = (edge (nxgraph t)).*1 → links t' = links t.
Proof.
  intros Hn He. rewrite !links_fst. unfold Graph_edges. unfold nodes in Hn. rewrite Hn.
  by apply edges_from_nodes_endpoints.
Qed.

Lemma edge_apply_endpoints E u v f : (edge_apply E u v f).*1 = E.*1.
Proof.
  induction E as [|[[a b] d] E IH]; cbn [edge_apply]; [done|].
  destruct (joins u v (a, b, d)); simpl; [reflexivity | f_equal; exact IH].
Qed.

Lemma with_attr_endpoints t n1 n2 k x :
  (edge (nxgraph (with_attr t n1 n2 k x))).*1 = (edge (nxgraph t)).*1.
Proof.
  unfold with_attr, setitem_edge. destruct (find_edge (nxgraph t) n1 n2); [|done].
  simpl. apply edge_apply_endpoints.
Qed.

Lemma labelled_steady t n1 n2 c d i1 i2 : steady t (labelled t n1 n2 c d i1 i2).
Proof. unfold labelled. repeat (eapply steady_trans; [|apply with_attr_steady]). apply steady_refl. Qed.

Lemma labelled_endpoints t n1 n2 c d i1 i2 :
  (edge (nxgraph (labelled t n1 n2 c d i1 i2))).*1 = (edge (nxgraph t)).*1.
Proof. unfold labelled. by rewrite !with_attr_endpoints. Qed.

Lemma labelled_ifnum t n1 n2 c d i1 i2 : topo_ifnum (labelled t n1 n2 c d i1 i2) = topo_ifnum t.
Proof. unfold labelled. by rewrite !with_attr_ifnum. Qed.

Lemma labelled_node t n1 n2 c d i1 i2 :
  node (nxgraph (labelled t n1 n2 c d i1 i2)) = node (nxgraph t).
Proof. unfold labelled. by rewrite !with_attr_node. Qed.

Lemma prepared_steady t n1 n2 : steady t (prepared t n1 n2).
Proof.
  unfold prepared.
  eapply steady_trans; [|apply with_edge_steady].
  eapply steady_trans; [|apply with_interface_steady].
  eapply steady_trans; [|apply with_interface_steady].
  apply bump_steady.
Qed.

Lemma prepared_ifnum t n1 n2 :
  topo_ifnum (prepared t n1 n2) = if auto_macs t then topo_ifnum t + 2 else topo_ifnum t.
Proof.
  unfold prepared. rewrite with_edge_ifnum, !with_interface_ifnum. apply bump_ifnum.
Qed.

Lemma edge_add_edge G u v :
  edge (add_edge G u v)
  = match lookup_edge (edge G) u v with
    | Some _ => edge G
    | None => edge G ++ [(u, v, [])]
    end.
Proof. unfold add_edge, find_edge. by destruct (lookup_edge (edge G) u v). Qed.

Lemma prepared_edge t n1 n2 :
  edge (nxgraph (prepared t n1 n2)) = edge (add_edge (nxgraph t) n1 n2).
Proof.
  unfold prepared. rewrite with_edge_edge, !edge_add_edge.
  by rewrite !with_interface_edge, bump_nxgraph.
Qed.

(** *** Atomicity *)

(** A call is atomic at [t] when an exception leaves [t] as it was. *)
Definition atomic {A} (m : M Topology A) (t : Topology) : Prop :=
  ∀ e t', m t = (Raise e, t') → t' = t.

Lemma node_with_interface_eq t n mac a :
  dict_get (node (nxgraph t)) n = Some a →
  dict_get (node (nxgraph (with_interface t n mac))) n
  = Some {| label := label a; nodeobj := (addInterface mac PNone PNone (nodeobj a)).2;
            type := type a |}.
Proof.
  intros Ha. unfold with_interface, on_nodeobj. rewrite Ha. simpl. apply dict_get_set_eq.
Qed.

Lemma node_with_interface_ne t n mac n' :
  n ≠ n' →
  dict_get (node (nxgraph (with_interface t n mac))) n' = dict_get (node (nxgraph t)) n'.
Proof.
  intros Hne. unfold with_interface, on_nodeobj.
  destruct (dict_get (node (nxgraph t)) n) eqn:E; [|done]. simpl. by apply dict_get_set_ne.
Qed.

(** The counter of a node's interfaces only grows when an interface is
    added to a node, and it grows on the node itself. *)
Lemma with_interface_counter t n mac n' a :
  dict_get (node (nxgraph t)) n' = Some a →
  ∃ a', dict_get (node (nxgraph (with_interface t n mac))) n' = Some a' ∧
        ifnum (nodeobj a) ≤ ifnum (nodeobj a') ∧
        (n = n' → ifnum (nodeobj a) < ifnum (nodeobj a')).
Proof.
  intros Ha. destruct (decide (n = n')) as [->|Hne].
  - rewrite (node_with_interface_eq _ _ _ _ Ha). eexists. split; [done|]. simpl. lia.
  - rewrite node_with_interface_ne by done. exists a. split; [done|]. split; [lia | done].
Qed.

Lemma prepared_changes t n1 n2 :
  has_node (nxgraph t) n1 = true → prepared t n1 n2 ≠ t.
Proof.
  intros H1 Heq. apply has_node_true, dict_get_is_Some in H1 as [a Ha].
  assert (Hb : dict_get (node (nxgraph (bump t))) n1 = Some a) by (by rewrite bump_nxgraph).
  destruct (with_interface_counter (bump t) n1 (fresh_macs t).1 n1 a Hb) as (a1 & Ha1 & _ & Hlt).
  destruct (with_interface_counter _ n2 (fresh_macs t).2 n1 a1 Ha1) as (a2 & Ha2 & Hle & _).
  assert (Hp : dict_get (node (nxgraph (prepared t n1 n2))) n1 = Some a2).
  { unfold prepared. by rewrite with_edge_node. }
  rewrite Heq, Ha in Hp. injection Hp as <-. specialize (Hlt eq_refl). lia.
Qed.

Lemma lookup_edge_app_new E u v d :
  lookup_edge E u v = None → lookup_edge (E ++ [(u, v, d)]) u v = Some d.
Proof.
  induction E as [|e E IH]; cbn [lookup_edge app].
  - intros _. unfold joins. by rewrite bool_decide_true.
  - destruct (joins u v e); [done | exact IH].
Qed.

(** C3: [addLink] is not atomic.  It converts the capacity and the delay
    (lines 285-286) when the MACs are drawn, both interfaces are made and
    the edge is in the graph (lines 275-284).  When one of the conversions
    raises, [addLink] raises that exception and leaves the topology of
    line 284, which is never the topology before the call: the MAC
    counter has moved by two when automatic MACs are on, the two nodes
    are linked, and a link that was not there before has no attributes. *)
Theorem addLink_raises_half_done (t : Topology) (n1 n2 capacity delay : string) (e : exc) :
  has_node (nxgraph t) n1 = true →
  has_node (nxgraph t) n2 = true →
  unhumanize_capacity capacity = Raise e ∨
  (∃ capbits, unhumanize_capacity capacity = Return capbits ∧ unhumanize_delay delay = Raise e) →
  ∃ t',
    addLink n1 n2 capacity delay t = (Raise e, t') ∧
    t' ≠ t ∧
    ¬ atomic (addLink n1 n2 capacity delay) t ∧
    topo_ifnum t' = (if auto_macs t then topo_ifnum t + 2 else topo_ifnum t) ∧
    is_Some (find_edge (nxgraph t') n1 n2) ∧
    (find_edge (nxgraph t) n1 n2 = None → find_edge (nxgraph t') n1 n2 = Some []).
Proof.
  intros H1 H2 Hraise.
  assert (Hrun : addLink n1 n2 capacity delay t = (Raise e, prepared t n1 n2)).
  { unfold addLink, bind. rewrite addLink_body_run by done.
    destruct Hraise as [-> | (capbits & -> & ->)]; done. }
  pose proof (prepared_changes t n1 n2 H1) as Hne.
  exists (prepared t n1 n2). split; [done|]. split; [done|]. split.
  { intros Hat. apply Hne. by apply (Hat e). }
  split; [apply prepared_ifnum|].
  unfold find_edge. rewrite prepared_edge. split.
  - apply find_edge_add_edge.
  - intros Hnone. unfold find_edge in Hnone. rewrite edge_add_edge, Hnone.
    by apply lookup_edge_app_new.
Qed.

(** X23: the error paths of the add operations.  [addHost], [addSwitch] and
    [addRouter] are atomic.  [addLink] raises either for an endpoint that
    is not a node, and then the topology is as before, or because the
    conversion of the capacity or of the delay raises, and then the
    topology is the one of line 284.  When both strings are understood,
    [addLink] is atomic. *)
Theorem add_operations_atomic (t : Topology) :
  (∀ c name, atomic (add_of_class c name) t) ∧
  (∀ n1 n2 capacity delay e t',
      addLink n1 n2 capacity delay t = (Raise e, t') →
      (t' = t ∧ (e = NoNodeForLink n1 ∨ e = NoNodeForLink n2)) ∨
      (t' = prepared t n1 n2 ∧ t' ≠ t ∧
       (unhumanize_capacity capacity = Raise e ∨ unhumanize_delay delay = Raise e))) ∧
  (∀ n1 n2 capacity delay capbits delaysec,
      unhumanize_capacity capacity = Return capbits →
      unhumanize_delay delay = Return delaysec →
      atomic (addLink n1 n2 capacity delay) t).
Proof.
  assert (Hlink : ∀ n1 n2 capacity delay e t',
      addLink n1 n2 capacity delay t = (Raise e, t') →
      (t' = t ∧ (e = NoNodeForLink n1 ∨ e = NoNodeForLink n2)) ∨
      (t' = prepared t n1 n2 ∧ t' ≠ t ∧
       (unhumanize_capacity capacity = Raise e ∨ unhumanize_delay delay = Raise e))).
  { intros n1 n2 capacity delay e t'. unfold addLink, bind.
    destruct (has_node (nxgraph t) n1) eqn:H1;
      [|rewrite addLink_body_no_node1 by done; intros [= <- <-]; left; by eauto].
    destruct (has_node (nxgraph t) n2) eqn:H2;
      [|rewrite addLink_body_no_node2 by done; intros [= <- <-]; left; by eauto].
    rewrite addLink_body_run by done.
    destruct (unhumanize_capacity capacity) as [capbits|e1] eqn:Ec.
    - destruct (unhumanize_delay delay) as [delaysec|e2] eqn:Ed; [done|].
      intros [= <- <-]. right. split; [done|]. split; [by apply prepared_changes | by right].
    - intros [= <- <-]. right. split; [done|]. split; [by apply prepared_changes | by left]. }
  split; [|split; [exact Hlink|]].
  - intros c name e t' Hrun.
    destruct name as [n|].
    + rewrite add_named in Hrun. unfold bind, ret in Hrun.
      destruct (decide (n ∈ nodes t)) as [Hin|Hn].
      * rewrite (addNode_raise n c t Hin) in Hrun. by injection Hrun as _ <-.
      * destruct (addNode_return n c t Hn) as (t1 & Hr & _). by rewrite Hr in Hrun.
    + destruct (add_unnamed c t) as (j & t1 & _ & _ & Hr & _). by rewrite Hr in Hrun.
  - intros n1 n2 capacity delay capbits delaysec Hc Hd e t' Hrun.
    destruct (Hlink _ _ _ _ _ _ Hrun) as [[-> _]|(_ & _ & [He|He])]; [done | congruence ..].
Qed.

End LinkFacts.

(** Two nodes and no link. *)
Definition example_pair : Topology :=
  Eval vm_compute in ((addHost None ;;; addSwitch None)%topo Topology_new).2.

(** C3, a witness: with [h0] and [s0] in place and a conversion that
    refuses the capacity text, [addLink] raises and the topology is not
    the one before the call: the MAC counter has moved from 1 to 3 and
    h0 - s0 is a link without attributes. *)
Lemma addLink_raises_half_done_witness :
  ∃ t',
    addLink (F := example_formatting) "h0" "s0" "fast" "10ms" example_pair
    = (Raise (FormatError "fast"), t') ∧
    t' ≠ example_pair ∧
    topo_ifnum example_pair = 1 ∧ topo_ifnum t' = 3 ∧
    find_edge (nxgraph t') "h0" "s0" = Some [].
Proof.
  destruct (addLink_raises_half_done (F := example_formatting) example_pair "h0" "s0"
              "fast" "10ms" (FormatError "fast"))
    as (t' & Hrun & Hne & _ & Hnum & _ & Hnew); [reflexivity | reflexivity | by left |].
  exists t'. split; [exact Hrun|]. split; [exact Hne|]. split; [reflexivity|].
  split; [exact Hnum | by apply Hnew].
Defined.


(** ** MAC addresses *)

Lemma to_N_zeros (k : nat) (s : string) :
  HexString.Raw.to_N (zeros k +:+ s) 0 = HexString.Raw.to_N s 0.
Proof. induction k as [|k IH]; simpl; [done | exact IH]. Qed.

Lemma to_N_hex (n : N) : HexString.Raw.to_N (hex n) 0 = n.
Proof. destruct n as [|p]; [done|]. apply (HexString.Raw.to_N_of_pos p "" 0). Qed.

(** The twelve digits are the hexadecimal numeral of the counter. *)
Lemma to_N_format_012x (n : N) : HexString.Raw.to_N (format_012x n) 0 = n.
Proof. unfold format_012x. by rewrite to_N_zeros, to_N_hex. Qed.

Lemma format_012x_inj (a b : N) : format_012x a = format_012x b → a = b.
Proof. intros H. by rewrite <- (to_N_format_012x a), <- (to_N_format_012x b), H. Qed.

Lemma join_chunks2_step (a b : ascii) (r : string) :
  join ":" (chunks2 (String a (String b r)))
  = match r with
    | "" => String a (String b "")
    | _ => String a (String b (String ":" (join ":" (chunks2 r))))
    end.
Proof. destruct r as [|c [|c' r]]; reflexivity. Qed.

Lemma join_chunks2_inj (n : nat) (s1 s2 : string) :
  (String.length s1 ≤ n)%nat →
  join ":" (chunks2 s1) = join ":" (chunks2 s2) → s1 = s2.
Proof.
  revert s1 s2. induction n as [|n IH]; intros s1 s2 Hlen.
  - destruct s1; [|simpl in Hlen; lia].
    destruct s2 as [|a2 [|b2 r2]]; [done | done |].
    rewrite join_chunks2_step. by destruct r2.
  - destruct s1 as [|a1 [|b1 r1]]; destruct s2 as [|a2 [|b2 r2]];
      rewrite ?join_chunks2_step; try done.
    + by destruct r2.
    + by destruct r2.
    + by destruct r1.
    + by destruct r1.
    + destruct r1 as [|c1 r1]; destruct r2 as [|c2 r2]; try done.
      intros [= -> -> H]. f_equal. f_equal. apply IH; [simpl in *; lia | done].
Qed.

Lemma macaddr_inj (a b : N) : macaddr a = macaddr b → a = b.
Proof.
  unfold macaddr. intros H. apply format_012x_inj.
  by apply (join_chunks2_inj (String.length (format_012x a))).
Qed.

(** The number of digits that [of_pos] writes. *)
Fixpoint length_of_pos (p : positive) (rest : string) {struct p} :
  String.length (HexString.Raw.of_pos p rest)
  = (String.length rest + (Pos.size_nat p + 3) / 4)%nat.
Proof.
  assert (Hdiv : ∀ k, ((S (S (S (S k))) + 3) / 4 = S ((k + 3) / 4))%nat).
  { intros k. replace (S (S (S (S k))) + 3)%nat with ((k + 3) + 1 * 4)%nat by lia.
    rewrite Nat.div_add by lia. lia. }
  do 4 try destruct p as [p|p|]; try (simpl; lia);
    cbn [HexString.Raw.of_pos Pos.size_nat]; rewrite length_of_pos, Hdiv; simpl; lia.
Qed.

Lemma size_nat_bound (k : nat) (p : positive) :
  N.pos p < 2 ^ N.of_nat k → (Pos.size_nat p ≤ k)%nat.
Proof.
  revert k. induction p as [p IH|p IH|]; intros [|k] H; simpl Pos.size_nat.
  - change (2 ^ N.of_nat 0) with 1 in H. lia.
  - rewrite Nat2N.inj_succ, N.pow_succ_r' in H. specialize (IH k). lia.
  - change (2 ^ N.of_nat 0) with 1 in H. lia.
  - rewrite Nat2N.inj_succ, N.pow_succ_r' in H. specialize (IH k). lia.
  - change (2 ^ N.of_nat 0) with 1 in H. lia.
  - lia.
Qed.

Lemma length_zeros (k : nat) (s : string) :
  String.length (zeros k +:+ s) = (k + String.length s)%nat.
Proof. induction k as [|k IH]; simpl; [done | by rewrite IH]. Qed.

Lemma length_hex (n : N) : n < 2 ^ 48 → (String.length (hex n) ≤ 12)%nat.
Proof.
  intros Hn. destruct n as [|p]; [simpl; lia|].
  unfold hex. rewrite length_of_pos. simpl String.length.
  change 48 with (N.of_nat 48) in Hn. apply size_nat_bound in Hn.
  assert (Hd : ((Pos.size_nat p + 3) / 4 ≤ 51 / 4)%nat) by (apply Nat.Div0.div_le_mono; lia).
  change (51 / 4)%nat with 12%nat in Hd. lia.
Qed.

Lemma length_format_012x (n : N) : n < 2 ^ 48 → String.length (format_012x n) = 12%nat.
Proof.
  intros Hn. unfold format_012x. rewrite length_zeros.
  pose proof (length_hex n Hn). lia.
Qed.

(** The shape of a MAC text: six groups of two characters with colons in
    between, the twelve characters being the numeral [h]. *)
Definition six_groups_of (h s : string) : Prop :=
  String.length h = 12%nat ∧ s = join ":" (chunks2 h) ∧
  length (chunks2 h) = 6%nat ∧ Forall (fun g => String.length g = 2%nat) (chunks2 h) ∧
  String.length s = 17%nat.

Lemma six_groups (h : string) : String.length h = 12%nat → six_groups_of h (join ":" (chunks2 h)).
Proof.
  intros H. do 13 (destruct h as [|? h]; simpl in H; try lia).
  repeat split. repeat constructor.
Qed.

Lemma macaddr_shape (n : N) : n < 2 ^ 48 → six_groups_of (format_012x n) (macaddr n).
Proof. intros H. apply six_groups. by apply length_format_012x. Qed.
Section AutoMacs.
Context {F : Formatting}.

(** The MAC of interface [ifname] on node [n]. *)
Definition mac_of (t : Topology) (n ifname : string) : option pyval :=
  match dict_get (node (nxgraph t)) n with
  | Some a =>
      match dict_get (interfaces (nodeobj a)) ifname with
      | Some i => Some (ethaddr i)
      | None => None
      end
  | None => None
  end.

(** A run of [addLink] calls; after each call the MACs of the two
    interfaces that the call made are read. *)
Fixpoint add_links (reqs : list (string * string * string * string))
  : M Topology (list (option pyval)) :=
  match reqs with
  | [] => ret []
  | (node1, node2, capacity, delay) :: rest =>
      (ifs <- addLink_body node1 node2 capacity delay ;;
       t <- get ;;
       macs <- add_links rest ;;
       ret (mac_of t node1 ifs.1 :: mac_of t node2 ifs.2 :: macs))%topo
  end.

Lemma new_ifname_eq t n a :
  dict_get (node (nxgraph t)) n = Some a → new_ifname t n = "eth" +:+ str_int (ifnum (nodeobj a)).
Proof. intros H. unfold new_ifname. by rewrite H. Qed.

Lemma mac_of_with_interface_new t n mac :
  has_node (nxgraph t) n = true →
  mac_of (with_interface t n mac) n (new_ifname t n) = Some (ethaddr_setter mac).
Proof.
  intros H. apply has_node_true, dict_get_is_Some in H as [a Ha].
  unfold mac_of. rewrite (node_with_interface_eq _ _ _ _ Ha), (new_ifname_eq _ _ _ Ha).
  simpl. by rewrite dict_get_set_eq.
Qed.

Lemma mac_of_with_interface_old t n mac n' i m :
  mac_of t n' i = Some m →
  (n' = n → i ≠ new_ifname t n) →
  mac_of (with_interface t n mac) n' i = Some m.
Proof.
  intros Hm Hne. unfold mac_of in *.
  destruct (decide (n = n')) as [<-|Hn]; [|by rewrite node_with_interface_ne].
  destruct (dict_get (node (nxgraph t)) n) as [a|] eqn:Ha; [|done].
  rewrite (node_with_interface_eq _ _ _ _ Ha). simpl.
  rewrite dict_get_set_ne; [done|].
  intros Heq. apply (Hne eq_refl). by rewrite (new_ifname_eq _ _ _ Ha).
Qed.

Lemma new_ifname_with_interface t n mac :
  has_node (nxgraph t) n = true → new_ifname (with_interface t n mac) n ≠ new_ifname t n.
Proof.
  intros H. apply has_node_true, dict_get_is_Some in H as [a Ha].
  rewrite (new_ifname_eq _ _ _ (node_with_interface_eq _ _ mac _ Ha)), (new_ifname_eq _ _ _ Ha).
  simpl. intros Heq. apply auto_name_inj in Heq. lia.
Qed.

Lemma mac_of_node t t' n i : node (nxgraph t') = node (nxgraph t) → mac_of t' n i = mac_of t n i.
Proof. intros H. unfold mac_of. by rewrite H. Qed.

(** One call that returns: the counter, and the MACs of the two new
    interfaces. *)
Lemma addLink_body_macs n1 n2 cap d t ifs t' :
  addLink_body n1 n2 cap d t = (Return ifs, t') →
  auto_macs t' = auto_macs t ∧
  topo_ifnum t' = (if auto_macs t then topo_ifnum t + 2 else topo_ifnum t) ∧
  mac_of t' n1 ifs.1 = Some (ethaddr_setter (fresh_macs t).1) ∧
  mac_of t' n2 ifs.2 = Some (ethaddr_setter (fresh_macs t).2).
Proof.
  destruct (has_node (nxgraph t) n1) eqn:H1; [|by rewrite addLink_body_no_node1].
  destruct (has_node (nxgraph t) n2) eqn:H2; [|by rewrite addLink_body_no_node2].
  rewrite addLink_body_run by done.
  destruct (unhumanize_capacity cap) as [capbits|]; [|done].
  destruct (unhumanize_delay d) as [delaysec|]; [|done].
  cbn zeta. intros [= <- <-]. cbn [fst snd].
  set (t1 := with_interface (bump t) n1 (fresh_macs t).1).
  assert (Hb1 : has_node (nxgraph (bump t)) n1 = true) by (by rewrite bump_nxgraph).
  assert (H12 : has_node (nxgraph t1) n2 = true).
  { unfold t1. by rewrite (has_node_steady _ _ _ (with_interface_steady _ _ _)), bump_nxgraph. }
  assert (Hnode : node (nxgraph (labelled (prepared t n1 n2) n1 n2 capbits delaysec
                    (new_ifname t n1) (new_ifname t1 n2)))
                  = node (nxgraph (with_interface t1 n2 (fresh_macs t).2))).
  { rewrite labelled_node. unfold prepared. by rewrite with_edge_node. }
  split; [|split; [|split]].
  - destruct (labelled_steady (prepared t n1 n2) n1 n2 capbits delaysec (new_ifname t n1)
                (new_ifname t1 n2)) as (_&_&_&->&_).
    by destruct (prepared_steady t n1 n2) as (_&_&_&->&_).
  - by rewrite labelled_ifnum, prepared_ifnum.
  - rewrite (mac_of_node _ _ _ _ Hnode).
    apply mac_of_with_interface_old.
    + replace (new_ifname t n1) with (new_ifname (bump t) n1)
        by (unfold new_ifname; by rewrite bump_nxgraph).
      by apply mac_of_with_interface_new.
    + intros <-. apply not_eq_sym.
      replace (new_ifname t n1) with (new_ifname (bump t) n1)
        by (unfold new_ifname; by rewrite bump_nxgraph).
      by apply new_ifname_with_interface.
  - rewrite (mac_of_node _ _ _ _ Hnode). by apply mac_of_with_interface_new.
Qed.

(** The MACs of a run that starts with the counter at [c]. *)
Definition macs_from (c : N) (k : nat) : list (option pyval) :=
  (fun j => Some (PEthAddr (macaddr (c + N.of_nat j)))) <$> seq 0 k.

Lemma macs_from_S2 c k :
  macs_from c (S (S k)) = Some (PEthAddr (macaddr c)) :: Some (PEthAddr (macaddr (c + 1)))
                          :: macs_from (c + 2) k.
Proof.
  unfold macs_from. simpl. rewrite N.add_0_r. do 2 f_equal.
  rewrite <- !fmap_S_seq, <- !list_fmap_compose. apply list_fmap_ext.
  intros _ j _. simpl. do 3 f_equal. lia.
Qed.

Lemma NoDup_macs_from c k : NoDup (macs_from c k).
Proof.
  unfold macs_from. apply NoDup_fmap_2; [|apply NoDup_seq].
  intros i j [= H]. apply macaddr_inj in H. lia.
Qed.

Lemma add_links_run reqs t macs t' :
  add_links reqs t = (Return macs, t') →
  auto_macs t' = auto_macs t ∧
  length macs = (2 * length reqs)%nat ∧
  (auto_macs t = true →
     macs = macs_from (topo_ifnum t) (2 * length reqs) ∧
     topo_ifnum t' = topo_ifnum t + 2 * N.of_nat (length reqs)) ∧
  (auto_macs t = false →
     macs = replicate (2 * length reqs) (Some (PStr "00:00:00:00:00:00"))).
Proof.
  revert t macs t'. induction reqs as [|[[[n1 n2] cap] d] reqs IH]; intros t macs t'.
  - simpl. unfold ret. intros [= <- <-].
    split; [done|]. split; [done|]. split; [|done]. intros _. split; [done | simpl; lia].
  - cbn [add_links]. unfold bind, get, ret.
    destruct (addLink_body n1 n2 cap d t) as [[ifs|e] t1] eqn:E1; [|done].
    destruct (add_links reqs t1) as [[ms|e] t2] eqn:E2; [|done].
    intros [= <- <-].
    destruct (addLink_body_macs _ _ _ _ _ _ _ E1) as (Hauto & Hif & Hm1 & Hm2).
    destruct (IH _ _ _ E2) as (Hauto2 & Hlen & Hon & Hoff).
    rewrite Hm1, Hm2. unfold fresh_macs.
    replace (2 * length ((n1, n2, cap, d) :: reqs))%nat with (S (S (2 * length reqs))) by (simpl; lia).
    split; [congruence|]. split; [simpl; lia|]. split.
    + intros Ht. rewrite Hauto, Hif, Ht in *. destruct (Hon eq_refl) as [-> ->].
      rewrite macs_from_S2. simpl. split; [done | lia].
    + intros Hf. rewrite Hauto, Hf in *. rewrite (Hoff eq_refl). done.
Qed.

(** C5: for every topology and every run of [addLink] calls that all
    return, two MACs are read per link.  With automatic MACs on they are
    the texts made from the counter values [c], [c+1], ..., [c+2N-1], where
    [c] is the counter before the run, so they are pairwise distinct, and
    the counter ends at [c+2N]; as long as the counter stays within 48
    bits each text is twelve hexadecimal digits, the numeral of the counter
    value, in six groups of two with colons in between.  With automatic
    MACs off every new interface has the all-zero default MAC. *)
Theorem auto_macs_distinct (t : Topology) (reqs : list (string * string * string * string))
    (macs : list (option pyval)) (t' : Topology) :
  add_links reqs t = (Return macs, t') →
  length macs = (2 * length reqs)%nat ∧
  (auto_macs t = true →
     macs = macs_from (topo_ifnum t) (2 * length reqs) ∧
     NoDup macs ∧
     topo_ifnum t' = topo_ifnum t + 2 * N.of_nat (length reqs) ∧
     (topo_ifnum t' ≤ 2 ^ 48 →
      ∀ j, (j < 2 * length reqs)%nat →
           HexString.Raw.to_N (format_012x (topo_ifnum t + N.of_nat j)) 0
           = topo_ifnum t + N.of_nat j ∧
           six_groups_of (format_012x (topo_ifnum t + N.of_nat j))
                         (macaddr (topo_ifnum t + N.of_nat j)))) ∧
  (auto_macs t = false →
     macs = replicate (2 * length reqs) (Some (PStr "00:00:00:00:00:00"))).
Proof.
  intros Hrun. destruct (add_links_run _ _ _ _ Hrun) as (_ & Hlen & Hon & Hoff).
  split; [done|]. split; [|done].
  intros Ht. destruct (Hon Ht) as [-> Hc]. split; [done|].
  split; [apply NoDup_macs_from|]. split; [done|].
  intros Hbound j Hj. split; [apply to_N_format_012x|]. apply macaddr_shape.
  revert Hbound. generalize (2 ^ 48). intros B HB. lia.
Qed.

End AutoMacs.

(** C5, a witness: the two links of the example scenario, made on the
    topology with the three nodes. *)
Definition example_nodes : Topology :=
  Eval vm_compute in ((addHost None ;;; addHost None ;;; addSwitch None)%topo Topology_new).2.

Definition example_requests : list (string * string * string * string) :=
  [("h0", "s0", "100mbps", "10ms"); ("h1", "s0", "100mbps", "10ms")].

Definition example_linked : Topology :=
  Eval vm_compute in (add_links (F := example_formatting) example_requests example_nodes).2.

Lemma auto_macs_distinct_witness :
  macs_from 1 4 = [Some (PEthAddr "00:00:00:00:00:01"); Some (PEthAddr "00:00:00:00:00:02");
                   Some (PEthAddr "00:00:00:00:00:03"); Some (PEthAddr "00:00:00:00:00:04")] ∧
  NoDup (macs_from 1 4).
Proof.
  split; [reflexivity|].
  exact (proj1 (proj2 (proj1 (proj2 (auto_macs_distinct (F := example_formatting)
           example_nodes example_requests (macs_from 1 4) example_linked eq_refl)) eq_refl))).
Defined.

(** ** Address assignment *)

Section Assign.

(** The interface [i] of node [n]. *)
Definition iface (t : Topology) (n i : string) : option Interface :=
  match dict_get (node (nxgraph t)) n with
  | Some nd => dict_get (interfaces (nodeobj nd)) i
  | None => None
  end.

(** The attributes of a link name an interface of endpoint [n] that is on
    the node. *)
Definition endpoint_ok (t : Topology) (linkdata : dict attr) (n : string) : bool :=
  match dict_get linkdata n with
  | Some (AStr i) => match iface t n i with Some _ => true | None => false end
  | _ => false
  end.

(** Every link records, for both of its endpoints, an interface that is
    there: the state in which [addLink] leaves the links it makes. *)
Definition links_ok (t : Topology) : bool :=
  forallb (fun e => endpoint_ok t e.2 e.1.1 && endpoint_ok t e.2 e.1.2) (edge (nxgraph t)).

(** Lines 345-346 as a function: interface [i] of node [n] gets the address
    [a] and the netmask [mask]. *)
Definition with_address (t : Topology) (n i : string) (a mask : N) : Topology :=
  let G := nxgraph t in
  match dict_get (node G) n with
  | Some ndict =>
      match dict_get (interfaces (nodeobj ndict)) i with
      | Some intf =>
          set_nxgraph t
            {| graph_name := graph_name G;
               node := dict_set (node G) n
                         {| label := label ndict;
                            nodeobj := mkNode (cls (nodeobj ndict)) (ifnum (nodeobj ndict))
                                         (dict_set (interfaces (nodeobj ndict)) i
                                            (mkInterface (name intf) (ethaddr intf)
                                               (ipaddr_setter (PIPv4Address a))
                                               (netmask_setter (PIPv4Address mask))));
                            type := type ndict |};
               edge := edge G |}
      | None => t
      end
  | None => t
  end.

Lemma with_address_edge t n i a m : edge (nxgraph (with_address t n i a m)) = edge (nxgraph t).
Proof.
  unfold with_address. destruct (dict_get (node (nxgraph t)) n) as [nd|]; [|done].
  by destruct (dict_get (interfaces (nodeobj nd)) i).
Qed.

Lemma with_address_nodes t n i a m : nodes (with_address t n i a m) = nodes t.
Proof.
  unfold with_address. destruct (dict_get (node (nxgraph t)) n) as [nd|] eqn:E; [|done].
  destruct (dict_get (interfaces (nodeobj nd)) i); [|done].
  unfold nodes, Graph_nodes. simpl. apply keys_dict_set_in, dict_get_is_Some. by eauto.
Qed.

Lemma with_address_counters t n i a m :
  hnum (with_address t n i a m) = hnum t ∧ snum (with_address t n i a m) = snum t ∧
  rnum (with_address t n i a m) = rnum t ∧ auto_macs (with_address t n i a m) = auto_macs t ∧
  topo_ifnum (with_address t n i a m) = topo_ifnum t ∧
  graph_name (nxgraph (with_address t n i a m)) = graph_name (nxgraph t).
Proof.
  unfold with_address. destruct (dict_get (node (nxgraph t)) n) as [nd|]; [|done].
  by destruct (dict_get (interfaces (nodeobj nd)) i).
Qed.

Lemma iface_with_address_eq t n i a m intf :
  iface t n i = Some intf →
  iface (with_address t n i a m) n i
  = Some (mkInterface (name intf) (ethaddr intf) (PIPv4Address a) (PIPv4Address m)).
Proof.
  unfold iface, with_address. destruct (dict_get (node (nxgraph t)) n) as [nd|] eqn:E; [|done].
  intros Hi. rewrite Hi. simpl. rewrite dict_get_set_eq. simpl. by rewrite dict_get_set_eq.
Qed.

Lemma iface_with_address_ne t n i a m n' i' :
  (n', i') ≠ (n, i) → iface (with_address t n i a m) n' i' = iface t n' i'.
Proof.
  intros Hne. unfold iface, with_address.
  destruct (dict_get (node (nxgraph t)) n) as [nd|] eqn:E; [|done].
  destruct (dict_get (interfaces (nodeobj nd)) i) eqn:Ei; [|done]. simpl.
  destruct (decide (n = n')) as [<-|Hn].
  - rewrite dict_get_set_eq, E. simpl. apply dict_get_set_ne. congruence.
  - by rewrite dict_get_set_ne.
Qed.

Lemma iface_with_address_is_Some t n i a m n' i' :
  is_Some (iface (with_address t n i a m) n' i') ↔ is_Some (iface t n' i').
Proof.
  destruct (decide ((n', i') = (n, i))) as [[= -> ->]|Hne].
  - destruct (iface t n i) as [intf|] eqn:E.
    + rewrite (iface_with_address_eq _ _ _ _ _ _ E). split; intros _; eauto.
    + unfold with_address, iface in *.
      destruct (dict_get (node (nxgraph t)) n) as [nd|] eqn:En; [|by rewrite En].
      by rewrite E, En, E.
  - by rewrite iface_with_address_ne.
Qed.

Lemma endpoint_ok_with_address t n i a m ld n' :
  endpoint_ok (with_address t n i a m) ld n' = endpoint_ok t ld n'.
Proof.
  unfold endpoint_ok. destruct (dict_get ld n') as [[i'| |]|]; try done.
  pose proof (iface_with_address_is_Some t n i a m n' i') as H.
  destruct (iface (with_address t n i a m) n' i'), (iface t n' i'); try done.
  - destruct H as [H _]. by destruct H.
  - destruct H as [_ H]. by destruct H.
Qed.

Lemma getLink_fst u v t : getLink u v t = ((getLink u v t).1, t).
Proof. done. Qed.

Lemma getLink_with_address t n i a m u v :
  (getLink u v (with_address t n i a m)).1 = (getLink u v t).1.
Proof.
  unfold getLink, getEdge, find_edge. simpl. rewrite with_address_edge.
  replace (has_node (nxgraph (with_address t n i a m)) u) with (has_node (nxgraph t) u); [done|].
  pose proof (with_address_nodes t n i a m) as Hn. unfold nodes in Hn.
  destruct (has_node (nxgraph t) u) eqn:E; symmetry.
  - apply has_node_true. rewrite Hn. by apply has_node_true.
  - apply has_node_false. rewrite Hn. by apply has_node_false.
Qed.

(** *** One endpoint *)

(** What the inner loop does for endpoint [n]: nothing, or the interface
    that the link names for [n]. *)
Definition visit (ntn : list string) (linkdata : dict attr) (n : string)
  : option (string * string) :=
  if decide (n ∈ ntn) then
    match dict_get linkdata n with
    | Some (AStr i) => Some (n, i)
    | _ => None
    end
  else None.

Lemma visit_skip ntn ld n : n ∉ ntn → visit ntn ld n = None.
Proof. intros H. unfold visit. by rewrite decide_False. Qed.

Lemma assign_endpoint_skip mask ntn ld n t g :
  n ∉ ntn → assign_endpoint mask ntn ld n (t, g) = (Return tt, (t, g)).
Proof. intros H. unfold assign_endpoint. by rewrite decide_False. Qed.

Lemma assign_endpoint_run mask ntn ld n t g :
  n ∈ ntn → endpoint_ok t ld n = true →
  ∃ i, visit ntn ld n = Some (n, i) ∧
    assign_endpoint mask ntn ld n (t, Gen g)
    = if cur g <? stop g
      then (Return tt, (with_address t n i (cur g) mask,
                        Gen {| cur := cur g + 1; stop := stop g |}))
      else (Raise StopIteration, (t, Gen g)).
Proof.
  intros Hin Hok. unfold endpoint_ok, iface in Hok.
  unfold assign_endpoint, visit, with_address, next, generator_next.
  rewrite !decide_True by done.
  destruct (dict_get ld n) as [[i| |]|]; try done. exists i. split; [done|].
  destruct (dict_get (node (nxgraph t)) n) as [nd|]; [|done].
  destruct (dict_get (interfaces (nodeobj nd)) i); [|done].
  by destruct (cur g <? stop g).
Qed.

(** [lia] without the hypotheses on [endpoint_ok], which it cannot read. *)
Ltac arith := repeat match goal with H : context [endpoint_ok] |- _ => clear H end; lia.

(** *** The walk over the links *)

(** A link of the list is in order for the walk. *)
Definition link_ok (t : Topology) (ntn : list string) (uv : string * string) : Prop :=
  ∃ ld, getLink uv.1 uv.2 t = (Return ld, t) ∧
        (uv.1 ∈ ntn → endpoint_ok t ld uv.1 = true) ∧
        (uv.2 ∈ ntn → endpoint_ok t ld uv.2 = true).

Lemma link_ok_with_address t ntn uv n i a m :
  link_ok t ntn uv → link_ok (with_address t n i a m) ntn uv.
Proof.
  intros (ld & Hl & H1 & H2). exists ld. rewrite !endpoint_ok_with_address.
  split; [|done]. rewrite getLink_fst, getLink_with_address. by rewrite Hl.
Qed.

(** The interfaces visited for one link and for a list of links. *)
Definition link_visits (t : Topology) (ntn : list string) (uv : string * string)
  : list (string * string) :=
  match find_edge (nxgraph t) uv.1 uv.2 with
  | Some ld => omap (visit ntn ld) [uv.1; uv.2]
  | None => []
  end.

Definition visits (t : Topology) (ntn : list string) (ls : list (string * string))
  : list (string * string) :=
  concat (map (link_visits t ntn) ls).

Lemma link_visits_with_address t ntn uv n i a m :
  link_visits (with_address t n i a m) ntn uv = link_visits t ntn uv.
Proof. unfold link_visits, find_edge. by rewrite with_address_edge. Qed.

Lemma visits_with_address t ntn ls n i a m :
  visits (with_address t n i a m) ntn ls = visits t ntn ls.
Proof.
  unfold visits. f_equal. apply map_ext. intros uv. apply link_visits_with_address.
Qed.

(** The topology after the interfaces of [V] got the addresses [a],
    [a + 1], ... in turn. *)
Fixpoint assign_all (mask : N) (V : list (string * string)) (a : N) (t : Topology) : Topology :=
  match V with
  | [] => t
  | (n, i) :: V' => assign_all mask V' (a + 1) (with_address t n i a mask)
  end.

Lemma assign_all_app mask V1 V2 a t :
  assign_all mask (V1 ++ V2) a t
  = assign_all mask V2 (a + N.of_nat (length V1)) (assign_all mask V1 a t).
Proof.
  revert a t. induction V1 as [|[n i] V1 IH]; intros a t; simpl.
  - by rewrite N.add_0_r.
  - rewrite IH. f_equal. lia.
Qed.

Lemma link_ok_assign_all t ntn uv mask V a :
  link_ok t ntn uv → link_ok (assign_all mask V a t) ntn uv.
Proof.
  revert a t. induction V as [|[n i] V IH]; intros a t H; simpl; [done|].
  by apply IH, link_ok_with_address.
Qed.

Lemma visits_assign_all t ntn ls mask V a :
  visits (assign_all mask V a t) ntn ls = visits t ntn ls.
Proof.
  revert a t. induction V as [|[n i] V IH]; intros a t; simpl; [done|].
  by rewrite IH, visits_with_address.
Qed.

(** One link: both endpoints in turn. *)
Lemma assign_link_run mask ntn u v rest t g :
  link_ok t ntn (u, v) →
  let V := link_visits t ntn (u, v) in
  (N.of_nat (length V) ≤ stop g - cur g →
   assign_links mask ntn ((u, v) :: rest) (t, Gen g)
   = assign_links mask ntn rest
       (assign_all mask V (cur g) t,
        Gen {| cur := cur g + N.of_nat (length V); stop := stop g |})) ∧
  (stop g - cur g < N.of_nat (length V) →
   (assign_links mask ntn ((u, v) :: rest) (t, Gen g)).1 = Raise StopIteration).
Proof.
  intros (ld & Hl & H1 & H2). simpl in Hl, H1, H2. cbn zeta.
  unfold link_visits. cbn [fst snd].
  assert (Hf : find_edge (nxgraph t) u v = Some ld).
  { unfold getLink, getEdge in Hl. destruct (has_node (nxgraph t) u); [|done].
    destruct (find_edge (nxgraph t) u v); [|done]. by injection Hl as ->. }
  rewrite Hf. cbn [omap list_omap].
  remember (assign_links mask ntn ((u, v) :: rest) (t, Gen g)) as R eqn:HR.
  cbn [assign_links] in HR. unfold bind in HR. cbn [fst snd] in HR. rewrite Hl in HR.
  destruct g as [c s]. cbn [cur stop].
  destruct (decide (u ∈ ntn)) as [Hu|Hu].
  - destruct (assign_endpoint_run mask ntn ld u t {| cur := c; stop := s |} Hu (H1 Hu))
      as (i & Hv & Hrun). rewrite Hrun in HR. clear Hrun. cbn [cur stop] in HR. rewrite Hv.
    destruct (c <? s) eqn:Ec.
    + apply N.ltb_lt in Ec.
      destruct (decide (v ∈ ntn)) as [Hv2|Hv2].
      * assert (Hok : endpoint_ok (with_address t u i c mask) ld v = true)
          by (rewrite endpoint_ok_with_address; auto).
        destruct (assign_endpoint_run mask ntn ld v _ {| cur := c + 1; stop := s |} Hv2 Hok)
          as (i2 & Hvv & Hrun). rewrite Hrun in HR. clear Hrun. cbn [cur stop] in HR.
        rewrite Hvv. cbn [length assign_all].
        destruct (c + 1 <? s) eqn:Ec2; subst R.
        -- apply N.ltb_lt in Ec2. split; [|intros; exfalso; arith].
           intros _. do 4 f_equal. arith.
        -- apply N.ltb_ge in Ec2. split; [intros; exfalso; arith | done].
      * rewrite assign_endpoint_skip in HR by done. subst R.
        rewrite (visit_skip ntn ld v) by done. cbn [length assign_all].
        split; [|intros; exfalso; arith]. intros _. do 3 f_equal.
    + apply N.ltb_ge in Ec. subst R. split; [|done].
      intros; exfalso. destruct (visit ntn ld v); cbn [length] in *; arith.
  - rewrite assign_endpoint_skip in HR by done.
    rewrite (visit_skip ntn ld u) by done.
    destruct (decide (v ∈ ntn)) as [Hv2|Hv2].
    + destruct (assign_endpoint_run mask ntn ld v t {| cur := c; stop := s |} Hv2 (H2 Hv2))
        as (i2 & Hvv & Hrun). rewrite Hrun in HR. clear Hrun. cbn [cur stop] in HR.
      rewrite Hvv. cbn [length assign_all].
      destruct (c <? s) eqn:Ec; subst R.
      * apply N.ltb_lt in Ec. split; [done | intros; exfalso; arith].
      * apply N.ltb_ge in Ec. split; [intros; exfalso; arith | done].
    + rewrite assign_endpoint_skip in HR by done. subst R.
      rewrite (visit_skip ntn ld v) by done. cbn [length assign_all].
      split; [|intros; exfalso; arith]. intros _. do 4 f_equal. arith.
Qed.

(** All links of the list. *)
Lemma assign_links_run mask ntn ls t g :
  Forall (link_ok t ntn) ls →
  let V := visits t ntn ls in
  (N.of_nat (length V) ≤ stop g - cur g →
   assign_links mask ntn ls (t, Gen g)
   = (Return tt, (assign_all mask V (cur g) t,
                  Gen {| cur := cur g + N.of_nat (length V); stop := stop g |}))) ∧
  (stop g - cur g < N.of_nat (length V) →
   (assign_links mask ntn ls (t, Gen g)).1 = Raise StopIteration).
Proof.
  revert t g. induction ls as [|[u v] ls IH]; intros t g Hok; cbn zeta.
  - unfold visits. simpl. destruct g as [c s]. simpl. rewrite N.add_0_r.
    split; [done | intros; exfalso; lia].
  - apply Forall_cons in Hok as [Huv Hls].
    destruct (assign_link_run mask ntn u v ls t g Huv) as [Hgo Hstop].
    set (V1 := link_visits t ntn (u, v)) in *.
    set (t1 := assign_all mask V1 (cur g) t) in *.
    assert (Hls1 : Forall (link_ok t1 ntn) ls).
    { eapply Forall_impl; [exact Hls|]. intros uv. apply link_ok_assign_all. }
    destruct (IH t1 {| cur := cur g + N.of_nat (length V1); stop := stop g |} Hls1) as [IHgo IHstop].
    subst t1. rewrite visits_assign_all in IHgo, IHstop. cbn [cur stop] in *.
    assert (HV : visits t ntn ((u, v) :: ls) = V1 ++ visits t ntn ls) by done.
    rewrite HV, length_app. split.
    + intros Hle. rewrite Hgo by lia. rewrite IHgo by lia.
      rewrite assign_all_app. do 4 f_equal. lia.
    + intros Hlt. destruct (decide (stop g - cur g < N.of_nat (length V1))) as [Hs|Hs].
      * by apply Hstop.
      * rewrite Hgo by lia. apply IHstop. lia.
Qed.

(** *** The links of a graph *)

Lemma lookup_edge_Some E u v ld :
  lookup_edge E u v = Some ld →
  ∃ a b, (a, b, ld) ∈ E ∧ ((a = u ∧ b = v) ∨ (a = v ∧ b = u)).
Proof.
  induction E as [|[[a b] d] E IH]; cbn [lookup_edge]; [done|].
  destruct (joins u v (a, b, d)) eqn:Ej.
  - intros [= <-]. exists a, b. split; [apply list_elem_of_here|].
    unfold joins in Ej. apply orb_true_iff in Ej as [Ej|Ej];
      apply bool_decide_eq_true in Ej; tauto.
  - intros H. destruct (IH H) as (a' & b' & Hin & Hj). exists a', b'.
    split; [by apply list_elem_of_further | done].
Qed.

Lemma lookup_edge_is_Some E u v a b d :
  (a, b, d) ∈ E → (a = u ∧ b = v) ∨ (a = v ∧ b = u) → is_Some (lookup_edge E u v).
Proof.
  intros Hin Hj. induction E as [|e E IH]; [by apply elem_of_nil in Hin|].
  cbn [lookup_edge]. destruct (joins u v e) eqn:Ej; [by eauto|].
  apply elem_of_cons in Hin as [<-|Hin]; [|by apply IH].
  unfold joins in Ej. apply orb_false_iff in Ej as [E1 E2].
  apply bool_decide_eq_false in E1, E2. tauto.
Qed.

Lemma report_Some n seen e u v d :
  report n seen e = Some (u, v, d) →
  u = n ∧ ((u, v, d) = e ∨ (v, u, d) = e).
Proof.
  destruct e as [[a b] d']. unfold report.
  destruct (decide (a = n)) as [->|Ha].
  - destruct (decide (b ∈ seen)); [done|]. intros [= <- <- <-]. by eauto.
  - destruct (decide (b = n)) as [->|Hb]; [|done].
    destruct (decide (a ∈ seen)); [done|]. intros [= <- <- <-]. by eauto.
Qed.

Lemma elem_of_edges_from_nodes E ns seen u v d :
  (u, v, d) ∈ edges_from_nodes E ns seen →
  u ∈ ns ∧ ((u, v, d) ∈ E ∨ (v, u, d) ∈ E).
Proof.
  revert seen. induction ns as [|n ns IH]; intros seen; simpl.
  - intros H. by apply elem_of_nil in H.
  - rewrite elem_of_app. intros [H|H].
    + apply list_elem_of_omap in H as (e & He & Hr).
      apply report_Some in Hr as [-> [<-|<-]]; (split; [apply list_elem_of_here | by eauto]).
    + destruct (IH _ H) as [Hu Hd]. split; [by apply list_elem_of_further | done].
Qed.

(** A link that [links] reports can be fetched with [getLink]. *)
Lemma links_ok_link_ok t ntn uv :
  links_ok t = true → uv ∈ links t → link_ok t ntn uv.
Proof.
  intros Hok Hin. destruct uv as [u v]. rewrite links_fst in Hin.
  apply list_elem_of_fmap in Hin as ([[u' v'] d] & [= <- <-] & Hin).
  apply elem_of_edges_from_nodes in Hin as [Hu Hd].
  assert (Hsome : is_Some (find_edge (nxgraph t) u v)).
  { destruct Hd as [Hd|Hd];
      [apply (lookup_edge_is_Some _ u v u v d Hd) | apply (lookup_edge_is_Some _ u v v u d Hd)];
      tauto. }
  destruct Hsome as [ld Hld].
  exists ld. cbn [fst snd]. split.
  - unfold getLink, getEdge. apply has_node_true in Hu. by rewrite Hu, Hld.
  - apply lookup_edge_Some in Hld as (a & b & Hab & Hj).
    unfold links_ok in Hok. rewrite forallb_forall in Hok.
    specialize (Hok (a, b, ld)). cbn [fst snd] in Hok.
    assert (Hb : endpoint_ok t ld a && endpoint_ok t ld b = true)
      by (apply Hok, list_elem_of_In, Hab).
    apply andb_true_iff in Hb as [Ha Hb].
    destruct Hj as [[-> ->]|[-> ->]]; by split.
Qed.

(** *** Sorting *)

Lemma elem_of_insert_tuple p q l : q ∈ insert_tuple p l ↔ q = p ∨ q ∈ l.
Proof.
  induction l as [|x l IH]; simpl.
  - rewrite list_elem_of_singleton, elem_of_nil. tauto.
  - destruct (tuple_le p x); rewrite !elem_of_cons, ?IH; tauto.
Qed.

Lemma elem_of_sorted q l : q ∈ sorted l ↔ q ∈ l.
Proof.
  induction l as [|x l IH]; simpl; [done|].
  rewrite elem_of_insert_tuple, elem_of_cons, IH. tauto.
Qed.

Lemma insert_tuple_perm p l : insert_tuple p l ≡ₚ p :: l.
Proof.
  induction l as [|x l IH]; simpl; [done|].
  destruct (tuple_le p x); [done|]. rewrite IH. apply perm_swap.
Qed.

Lemma sorted_perm l : sorted l ≡ₚ l.
Proof.
  induction l as [|x l IH]; simpl; [done|]. by rewrite insert_tuple_perm, IH.
Qed.




(** *** The interfaces after the walk *)

Lemma assign_all_untouched mask V a t n i :
  (n, i) ∉ V → iface (assign_all mask V a t) n i = iface t n i.
Proof.
  revert a t. induction V as [|[n0 i0] V IH]; intros a t Hn; simpl; [done|].
  apply not_elem_of_cons in Hn as [Hne Hn].
  rewrite IH by done. by apply iface_with_address_ne.
Qed.

Lemma assign_all_last mask V a t k n i intf :
  V !! k = Some (n, i) →
  (∀ k', (k < k')%nat → V !! k' ≠ Some (n, i)) →
  iface t n i = Some intf →
  iface (assign_all mask V a t) n i
  = Some (mkInterface (name intf) (ethaddr intf)
            (PIPv4Address (a + N.of_nat k)) (PIPv4Address mask)).
Proof.
  revert a t k intf. induction V as [|[n0 i0] V IH]; intros a t k intf Hk Hlast Hi; [done|].
  simpl. destruct k as [|k].
  - injection Hk as -> ->.
    rewrite assign_all_untouched.
    + rewrite (iface_with_address_eq _ _ _ _ _ _ Hi). by rewrite N.add_0_r.
    + intros Hin. apply list_elem_of_lookup in Hin as [k' Hk'].
      apply (Hlast (S k')); [lia | done].
  - simpl in Hk.
    assert (Hi1 : ∃ intf1, iface (with_address t n0 i0 a mask) n i = Some intf1 ∧
                           name intf1 = name intf ∧ ethaddr intf1 = ethaddr intf).
    { destruct (decide ((n, i) = (n0, i0))) as [[= -> ->]|Hne].
      - rewrite (iface_with_address_eq _ _ _ _ _ _ Hi). by eexists.
      - rewrite iface_with_address_ne by done. by exists intf. }
    destruct Hi1 as (intf1 & Hi1 & Hname & Heth).
    rewrite (IH (a + 1) _ k intf1 Hk); [| |done].
    + rewrite Hname, Heth. do 3 f_equal. lia.
    + intros k' Hk'. apply (Hlast (S k')). lia.
Qed.

Lemma elem_of_link_visits t ntn uv n i :
  link_ok t ntn uv → (n, i) ∈ link_visits t ntn uv → n ∈ ntn ∧ is_Some (iface t n i).
Proof.
  intros (ld & Hl & H1 & H2). unfold link_visits.
  assert (Hf : find_edge (nxgraph t) uv.1 uv.2 = Some ld).
  { unfold getLink, getEdge in Hl. destruct (has_node (nxgraph t) uv.1); [|done].
    destruct (find_edge (nxgraph t) uv.1 uv.2); [|done]. by injection Hl as ->. }
  rewrite Hf. intros Hin. apply list_elem_of_omap in Hin as (m & Hm & Hv).
  unfold visit in Hv. destruct (decide (m ∈ ntn)) as [Hmn|]; [|done].
  assert (Hok : endpoint_ok t ld m = true).
  { apply elem_of_cons in Hm as [->|Hm]; [by apply H1|].
    apply list_elem_of_singleton in Hm as ->. by apply H2. }
  unfold endpoint_ok in Hok.
  destruct (dict_get ld m) as [[j| |]|]; try done. injection Hv as <- <-.
  split; [done|]. by destruct (iface t m j).
Qed.

Lemma elem_of_visits t ntn ls n i :
  Forall (link_ok t ntn) ls → (n, i) ∈ visits t ntn ls → n ∈ ntn ∧ is_Some (iface t n i).
Proof.
  intros Hok Hin. unfold visits in Hin.
  apply list_elem_of_In, in_concat in Hin as (V & HV & Hin).
  apply in_map_iff in HV as (uv & <- & Huv).
  apply (elem_of_link_visits t ntn uv); [|by apply list_elem_of_In].
  rewrite Forall_forall in Hok. by apply Hok, list_elem_of_In.
Qed.

(** *** Node types *)



(** *** The two claims *)

(** The subnet that line 327-330 computes. *)
Definition subnet_of (prefix : option (N * N)) : outcome IPv4Network :=
  match prefix with
  | None => IPv4Network_init 167772160 8
  | Some (address, plen) => IPv4Network_init address plen
  end.

(** The link endpoints in the order of the walk, each with the interface
    that its link names for it: the links sorted, within a link the first
    node and then the second, hosts and routers only. *)
Definition visited (t : Topology) : list (string * string) :=
  visits t (hosts t ++ routers t) (sorted (links t)).

(** The number of addresses that a generator still has. *)
Definition usable (g : generator) : N := stop g - cur g.

Lemma assignIPAddresses_run prefix subnet g t :
  links_ok t = true →
  subnet_of prefix = Return subnet →
  subnet_hosts subnet = Gen g →
  (N.of_nat (length (visited t)) ≤ usable g →
   assignIPAddresses prefix t
   = (Return tt, assign_all (subnet_netmask subnet) (visited t) (cur g) t)) ∧
  (usable g < N.of_nat (length (visited t)) →
   (assignIPAddresses prefix t).1 = Raise StopIteration).
Proof.
  intros Hok Hsub Hgen. unfold assignIPAddresses. fold (subnet_of prefix). rewrite Hsub, Hgen.
  assert (Hall : Forall (link_ok t (hosts t ++ routers t)) (sorted (links t))).
  { apply Forall_forall. intros uv Huv. apply links_ok_link_ok; [done|].
    by apply elem_of_sorted. }
  destruct (assign_links_run (subnet_netmask subnet) (hosts t ++ routers t) (sorted (links t))
              t g Hall) as [Hgo Hstop].
  fold (visited t) in Hgo, Hstop. unfold usable. split.
  - intros Hle. by rewrite Hgo.
  - intros Hlt. specialize (Hstop Hlt).
    destruct (assign_links _ _ _ _) as [r [t' g']]. by simpl in *.
Qed.

(** *** A list in the place of the generator *)

Lemma assign_endpoint_list mask ntn ld n t l :
  n ∈ ntn → endpoint_ok t ld n = true →
  is_Some (visit ntn ld n) ∧
  assign_endpoint mask ntn ld n (t, Lst l) = (Raise TypeError, (t, Lst l)).
Proof.
  intros Hin Hok. unfold endpoint_ok, iface in Hok. unfold assign_endpoint, visit, next.
  rewrite !decide_True by done.
  destruct (dict_get ld n) as [[i| |]|]; try done. split; [by eauto|].
  destruct (dict_get (node (nxgraph t)) n) as [nd|]; [|done].
  by destruct (dict_get (interfaces (nodeobj nd)) i).
Qed.

Lemma assign_links_list mask ntn ls t l :
  Forall (link_ok t ntn) ls →
  assign_links mask ntn ls (t, Lst l)
  = (match visits t ntn ls with [] => Return tt | _ :: _ => Raise TypeError end, (t, Lst l)).
Proof.
  induction ls as [|[u v] ls IH]; intros Hok; [done|].
  apply Forall_cons in Hok as [(ld & Hl & H1 & H2) Hls]. cbn [fst snd] in Hl, H1, H2.
  assert (Hf : find_edge (nxgraph t) u v = Some ld).
  { unfold getLink, getEdge in Hl. destruct (has_node (nxgraph t) u); [|done].
    destruct (find_edge (nxgraph t) u v); [|done]. by injection Hl as ->. }
  assert (HV : visits t ntn ((u, v) :: ls)
               = omap (visit ntn ld) [u; v] ++ visits t ntn ls).
  { unfold visits. cbn [map concat]. unfold link_visits at 1. cbn [fst snd]. by rewrite Hf. }
  rewrite HV. cbn [assign_links omap list_omap]. unfold bind. cbn [fst snd]. rewrite Hl.
  destruct (decide (u ∈ ntn)) as [Hu|Hu].
  - destruct (assign_endpoint_list mask ntn ld u t l Hu (H1 Hu)) as [[x Hx] Hrun].
    by rewrite Hrun, Hx.
  - rewrite assign_endpoint_skip, (visit_skip ntn ld u) by done.
    destruct (decide (v ∈ ntn)) as [Hv|Hv].
    + destruct (assign_endpoint_list mask ntn ld v t l Hv (H2 Hv)) as [[x Hx] Hrun].
      by rewrite Hrun, Hx.
    + rewrite assign_endpoint_skip, (visit_skip ntn ld v) by done. by apply IH.
Qed.



(** X22: a prefix of length 32.  [hosts()] gives a list there, not a
    generator, and [next] raises [TypeError] on it: on a topology whose
    links name interfaces that are there, [assignIPAddresses] with a /32
    raises [TypeError] as soon as one interface of a host or router is to
    be numbered, and leaves the topology as it was; it returns only when
    the walk has no interface to number. *)
Theorem assignIPAddresses_single_address (t : Topology) (address : N) :
  links_ok t = true →
  address < 2 ^ 32 →
  assignIPAddresses (Some (address, 32)) t
  = (match visited t with [] => Return tt | _ :: _ => Raise TypeError end, t).
Proof.
  intros Hok Haddr. unfold assignIPAddresses, IPv4Network_init.
  apply N.ltb_lt in Haddr. rewrite Haddr. cbn [andb N.leb N.compare Pos.compare Pos.compare_cont].
  replace (32 <=? 32) with true by reflexivity. cbn [subnet_hosts prefixlen].
  unfold subnet_hosts. cbn [prefixlen].
  rewrite decide_False by done. rewrite decide_True by done.
  assert (Hall : Forall (link_ok t (hosts t ++ routers t)) (sorted (links t))).
  { apply Forall_forall. intros uv Huv. apply links_ok_link_ok; [done|].
    by apply elem_of_sorted. }
  rewrite (assign_links_list _ _ _ _ _ Hall). done.
Qed.

End Assign.


(** Three hosts on one switch. *)
Definition example_star : Topology :=
  Eval vm_compute in
    ((addHost None ;;; addHost None ;;; addHost None ;;; addSwitch None ;;;
      addLink (F := example_formatting) "h0" "s0" "100mbps" "10ms" ;;;
      addLink (F := example_formatting) "h1" "s0" "100mbps" "10ms" ;;;
      addLink (F := example_formatting) "h2" "s0" "100mbps" "10ms")%topo Topology_new).2.


(** X22, a witness: the example scenario with 10.0.0.1/32. *)
Lemma assignIPAddresses_single_address_witness :
  assignIPAddresses (Some (167772161, 32)) example_topo = (Raise TypeError, example_topo).
Proof.
  apply (assignIPAddresses_single_address example_topo 167772161); [reflexivity | lia].
Defined.

(** ** Well-formed graphs *)

Section GraphFacts.

(** A pair of node names up to its order. *)
Definition unordered (p : string * string) : string * string :=
  if String.leb p.1 p.2 then p else (p.2, p.1).

Lemma unordered_swap (a b : string) : unordered (b, a) = unordered (a, b).
Proof.
  unfold unordered. simpl.
  destruct (String.leb a b) eqn:E1, (String.leb b a) eqn:E2; try done.
  - by rewrite (String.leb_antisym _ _ E1 E2).
  - destruct (String.leb_total a b); congruence.
Qed.

Lemma unordered_eq (a b c d : string) :
  unordered (a, b) = unordered (c, d) ↔ (a = c ∧ b = d) ∨ (a = d ∧ b = c).
Proof.
  split.
  - unfold unordered. simpl.
    destruct (String.leb a b), (String.leb c d); intros [= -> ->]; tauto.
  - intros [[-> ->]|[-> ->]]; [done | apply unordered_swap].
Qed.

Definition key (e : string * string * dict attr) : string * string := unordered e.1.

Lemma joins_key (u v : string) (e : string * string * dict attr) :
  joins u v e = true ↔ key e = unordered (u, v).
Proof.
  destruct e as [[a b] d]. unfold joins, key. simpl.
  rewrite orb_true_iff, !bool_decide_eq_true, unordered_eq. tauto.
Qed.

Lemma lookup_edge_None (E : list (string * string * dict attr)) (u v : string) :
  lookup_edge E u v = None ↔ unordered (u, v) ∉ key <$> E.
Proof.
  induction E as [|e E IH]; cbn [lookup_edge].
  - split; [intros _; apply not_elem_of_nil | done].
  - rewrite fmap_cons, not_elem_of_cons. destruct (joins u v e) eqn:Ej.
    + apply joins_key in Ej. split; [done | intros [H _]; congruence].
    + rewrite IH. split; [|tauto]. intros H. split; [|done].
      intros Heq. symmetry in Heq. apply joins_key in Heq. congruence.
Qed.

(** The graph has its nodes once each, its edges end in nodes, and no two
    edges join the same pair of nodes. *)
Record graph_wf (G : Graph) : Prop := mk_graph_wf {
  wf_nodes : NoDup (Graph_nodes G);
  wf_ends : ∀ a b d, (a, b, d) ∈ edge G → a ∈ Graph_nodes G ∧ b ∈ Graph_nodes G;
  wf_simple : NoDup (key <$> edge G)
}.

(** *** The edges as [G.edges()] reports them *)

Lemma edges_from_nodes_cons e E ns seen :
  edges_from_nodes (e :: E) ns seen
  ≡ₚ edges_from_nodes [e] ns seen ++ edges_from_nodes E ns seen.
Proof.
  revert seen. induction ns as [|n ns IH]; intros seen; simpl; [done|].
  rewrite IH. destruct (report n seen e); simpl.
  - f_equiv. rewrite !app_assoc. f_equiv. apply Permutation_app_comm.
  - rewrite !app_assoc. f_equiv. apply Permutation_app_comm.
Qed.

Lemma edges_from_nodes_seen a b d ns seen :
  (a ∈ seen ∧ a ∉ ns) ∨ (b ∈ seen ∧ b ∉ ns) →
  edges_from_nodes [(a, b, d)] ns seen = [].
Proof.
  revert seen. induction ns as [|n ns IH]; intros seen H; simpl; [done|].
  rewrite IH.
  - unfold report. destruct H as [[Hs Hn]|[Hs Hn]]; apply not_elem_of_cons in Hn as [Hne _].
    + rewrite (decide_False (P := a = n)) by done.
      destruct (decide (b = n)); [|done]. by rewrite decide_True.
    + destruct (decide (a = n)); [by rewrite decide_True|].
      by rewrite (decide_False (P := b = n)).
  - destruct H as [[Hs Hn]|[Hs Hn]]; apply not_elem_of_cons in Hn as [_ Hn];
      [left | right]; (split; [by apply list_elem_of_further | done]).
Qed.

Lemma report_first n seen b d : b ∉ seen → report n seen (n, b, d) = Some (n, b, d).
Proof. intros H. unfold report. by rewrite decide_True, decide_False. Qed.

Lemma report_second n seen a d :
  a ≠ n → a ∉ seen → report n seen (a, n, d) = Some (n, a, d).
Proof. intros Hne H. unfold report. by rewrite decide_False, decide_True, decide_False. Qed.

Lemma report_other n seen a b d : a ≠ n → b ≠ n → report n seen (a, b, d) = None.
Proof. intros Ha Hb. unfold report. by rewrite !decide_False. Qed.

Lemma edges_from_nodes_single a b d ns seen :
  NoDup ns → a ∈ ns → b ∈ ns → a ∉ seen → b ∉ seen →
  edges_from_nodes [(a, b, d)] ns seen = [(a, b, d)] ∨
  edges_from_nodes [(a, b, d)] ns seen = [(b, a, d)].
Proof.
  revert seen. induction ns as [|n ns IH]; intros seen Hnd Ha Hb Hsa Hsb.
  - by apply elem_of_nil in Ha.
  - apply NoDup_cons in Hnd as [Hn Hnd]. cbn [edges_from_nodes omap list_omap].
    destruct (decide (a = n)) as [->|Hane].
    + rewrite report_first by done. simpl. left. f_equal.
      apply edges_from_nodes_seen. left. split; [apply list_elem_of_here | done].
    + destruct (decide (b = n)) as [->|Hbne].
      * rewrite report_second by done. simpl. right. f_equal.
        apply edges_from_nodes_seen. right. split; [apply list_elem_of_here | done].
      * rewrite report_other by done. simpl.
        apply elem_of_cons in Ha as [?|Ha]; [done|].
        apply elem_of_cons in Hb as [?|Hb]; [done|].
        apply IH; try done; rewrite not_elem_of_cons; by split.
Qed.

Lemma key_edges_from_nodes E ns :
  NoDup ns →
  (∀ a b d, (a, b, d) ∈ E → a ∈ ns ∧ b ∈ ns) →
  key <$> edges_from_nodes E ns [] ≡ₚ key <$> E.
Proof.
  intros Hnd. induction E as [|[[a b] d] E IH]; intros Hends.
  - simpl. clear. generalize (@nil string). induction ns as [|n ns IH]; intros seen; simpl; [done|].
    by rewrite IH.
  - rewrite edges_from_nodes_cons, fmap_app, IH.
    + destruct (Hends a b d) as [Ha Hb]; [apply list_elem_of_here|].
      destruct (edges_from_nodes_single a b d ns [] Hnd Ha Hb) as [->| ->];
        try apply not_elem_of_nil; simpl; [reflexivity|].
      replace (key (b, a, d)) with (key (a, b, d)) by (symmetry; apply unordered_swap).
      reflexivity.
    + intros a' b' d' Hin. apply (Hends a' b' d'). by apply list_elem_of_further.
Qed.

Lemma key_Graph_edges G : graph_wf G → key <$> Graph_edges G ≡ₚ key <$> edge G.
Proof. intros [Hn He _]. by apply key_edges_from_nodes. Qed.

Lemma length_Graph_edges G : graph_wf G → length (Graph_edges G) = length (edge G).
Proof.
  intros Hwf. rewrite <- (length_fmap key (Graph_edges G)), <- (length_fmap key (edge G)).
  apply Permutation_length, key_Graph_edges, Hwf.
Qed.

Lemma length_links t : graph_wf (nxgraph t) → length (links t) = length (edge (nxgraph t)).
Proof. intros Hwf. rewrite links_fst, length_fmap. by apply length_Graph_edges. Qed.

Lemma elem_of_Graph_edges G u v d :
  (u, v, d) ∈ Graph_edges G →
  u ∈ Graph_nodes G ∧ ((u, v, d) ∈ edge G ∨ (v, u, d) ∈ edge G).
Proof. apply elem_of_edges_from_nodes. Qed.

End GraphFacts.
(** ** Union *)

Section UnionFacts.

Lemma add_edge_data_new E e :
  key e ∉ key <$> E → add_edge_data E e.1.1 e.1.2 e.2 = E ++ [e].
Proof.
  intros H. unfold add_edge_data. destruct e as [[a b] d]. cbn [fst snd].
  assert (Hl : lookup_edge E a b = None) by (by apply lookup_edge_None).
  by rewrite Hl.
Qed.

Lemma foldl_add_edge_data acc L :
  NoDup (key <$> (acc ++ L)) →
  foldl (fun E e => add_edge_data E e.1.1 e.1.2 e.2) acc L = acc ++ L.
Proof.
  revert acc. induction L as [|e L IH]; intros acc Hnd; simpl; [by rewrite app_nil_r|].
  rewrite add_edge_data_new.
  - rewrite IH; rewrite <- app_assoc; done.
  - rewrite fmap_app, fmap_cons in Hnd. apply NoDup_app in Hnd as (_ & Hd & _).
    intros Hin. apply (Hd _ Hin). apply list_elem_of_here.
Qed.

Lemma nodes_disjoint_existsb (G H : Graph) :
  existsb (has_node H) (Graph_nodes G) = false ↔
  ∀ n, n ∈ Graph_nodes G → n ∉ Graph_nodes H.
Proof.
  split.
  - intros Hex n Hn Hh.
    assert (existsb (has_node H) (Graph_nodes G) = true); [|congruence].
    apply existsb_exists. exists n. split; [by apply list_elem_of_In | by apply has_node_true].
  - intros Hdis. destruct (existsb (has_node H) (Graph_nodes G)) eqn:E; [|done].
    apply existsb_exists in E as (n & Hn & Hh). apply list_elem_of_In in Hn.
    apply has_node_true in Hh. by destruct (Hdis n Hn).
Qed.

Lemma key_elem_ends G k :
  graph_wf G → k ∈ key <$> Graph_edges G → k.1 ∈ Graph_nodes G ∧ k.2 ∈ Graph_nodes G.
Proof.
  intros Hwf Hk. rewrite (key_Graph_edges G Hwf) in Hk.
  apply list_elem_of_fmap in Hk as ([[a b] d] & -> & Hin).
  destruct (wf_ends G Hwf a b d Hin) as [Ha Hb].
  unfold key, unordered. simpl. by destruct (String.leb a b).
Qed.

(** The graph that [nx.union] makes of two well-formed graphs without a
    common node. *)
Lemma nx_union_disjoint (G H : Graph) (name : string) :
  graph_wf G → graph_wf H →
  (∀ n, n ∈ Graph_nodes G → n ∉ Graph_nodes H) →
  nx_union G H name
  = Return {| graph_name := graph_name H; node := node G ++ node H;
              edge := Graph_edges G ++ Graph_edges H |} ∧
  graph_wf {| graph_name := graph_name H; node := node G ++ node H;
              edge := Graph_edges G ++ Graph_edges H |}.
Proof.
  intros HG HH Hdis.
  assert (Hkeys : NoDup (key <$> (Graph_edges G ++ Graph_edges H))).
  { rewrite fmap_app. apply NoDup_app. split; [|split].
    - rewrite (key_Graph_edges G HG). apply (wf_simple G HG).
    - intros k Hk1 Hk2. apply (key_elem_ends G k HG) in Hk1 as [Hk1 _].
      apply (key_elem_ends H k HH) in Hk2 as [Hk2 _]. by apply (Hdis k.1).
    - rewrite (key_Graph_edges H HH). apply (wf_simple H HH). }
  split.
  - unfold nx_union. rewrite (proj2 (nodes_disjoint_existsb G H) Hdis).
    by rewrite (foldl_add_edge_data [] _ Hkeys).
  - constructor; simpl.
    + unfold Graph_nodes, keys. simpl. rewrite fmap_app. apply NoDup_app.
      split; [apply (wf_nodes G HG)|]. split; [exact Hdis | apply (wf_nodes H HH)].
    + intros a b d Hin. unfold Graph_nodes, keys. simpl. rewrite fmap_app, !elem_of_app.
      apply elem_of_app in Hin as [Hin|Hin]; apply elem_of_Graph_edges in Hin as [_ Hin].
      * destruct Hin as [Hin|Hin]; destruct (wf_ends G HG _ _ _ Hin); by split; left.
      * destruct Hin as [Hin|Hin]; destruct (wf_ends H HH _ _ _ Hin); by split; right.
    + exact Hkeys.
Qed.

Lemma graph_wf_no_nodes G : graph_wf G → node G = [] → edge G = [].
Proof.
  intros Hwf Hn. destruct (edge G) as [|[[a b] d] E] eqn:HE; [done|].
  destruct (wf_ends G Hwf a b d) as [Ha _]; [rewrite HE; apply list_elem_of_here|].
  unfold Graph_nodes, keys in Ha. rewrite Hn in Ha. by apply elem_of_nil in Ha.
Qed.

Lemma graph_wf_new name : graph_wf (Graph_new name).
Proof.
  constructor; simpl; [apply NoDup_nil_2 | | apply NoDup_nil_2].
  intros a b d H. by apply elem_of_nil in H.
Qed.

Lemma Graph_edges_no_edges G : edge G = [] → Graph_edges G = [].
Proof.
  intros HE. unfold Graph_edges. rewrite HE. generalize (@nil string).
  induction (Graph_nodes G) as [|n ns IH]; intros seen; simpl; [done | by rewrite IH].
Qed.

(** X1: the union of two well-formed topologies without a common node name,
    with [rename=False], returns a topology and leaves both inputs as they
    were.  The nodes of the result are the nodes of the first followed by
    the nodes of the second, each with its attributes; the number of links
    is the sum of the two; the result is well-formed.  The result is a
    newly initialised [Topology]: its name counters are at zero, its MAC
    counter is at one and automatic MACs are on, whatever the inputs
    had. *)
Theorem union_disjoint (self other : Topology) :
  graph_wf (nxgraph self) → graph_wf (nxgraph other) →
  (∀ n, n ∈ nodes self → n ∉ nodes other) →
  ∃ new,
    union false (self, other) = (Return new, (self, other)) ∧
    node (nxgraph new) = node (nxgraph self) ++ node (nxgraph other) ∧
    length (links new) = (length (links self) + length (links other))%nat ∧
    graph_wf (nxgraph new) ∧
    hnum new = 0 ∧ snum new = 0 ∧ rnum new = 0 ∧
    topo_ifnum new = 1 ∧ auto_macs new = true.
Proof.
  intros Hs Ho Hdis.
  destruct (nx_union_disjoint (nxgraph self) (nxgraph other)
              (topo_name self +:+ "_" +:+ topo_name other) Hs Ho Hdis) as [Hrun Hwf].
  unfold union. rewrite Hrun.
  eexists. split; [done|].
  unfold Topology_init. cbn [node].
  destruct (node (nxgraph self) ++ node (nxgraph other)) as [|x l] eqn:Hnodes.
  - apply app_eq_nil in Hnodes as [Hn1 Hn2]. simpl.
    rewrite !links_fst, !Graph_edges_no_edges by (by apply graph_wf_no_nodes).
    split; [done|]. split; [done|]. split; [apply graph_wf_new | done].
  - cbn [nxgraph hnum snum rnum topo_ifnum auto_macs node]. rewrite <- !Hnodes.
    rewrite <- Hnodes in Hwf.
    split; [done|]. split; [|split; [exact Hwf | done]].
    rewrite links_fst, length_fmap. cbn [nxgraph]. rewrite (length_Graph_edges _ Hwf). simpl.
    by rewrite length_app, !links_fst, !length_fmap.
Qed.

(** X2: with [rename=False], the union of two topologies that share a node
    name raises the exception of [nx.union]; both inputs stay as they
    were. *)
Theorem union_common_node (self other : Topology) (n : string) :
  n ∈ nodes self → n ∈ nodes other →
  union false (self, other) = (Raise NetworkXError, (self, other)).
Proof.
  intros Hs Ho. unfold union, nx_union.
  assert (Hex : existsb (has_node (nxgraph other)) (Graph_nodes (nxgraph self)) = true).
  { apply existsb_exists. exists n. split; [by apply list_elem_of_In | by apply has_node_true]. }
  by rewrite Hex.
Qed.

(** *** Relabelling *)

Lemma rekey_node G u v new old G' : rekey G u v new old = Return G' → node G' = node G.
Proof.
  unfold rekey. destruct (find_edge G u v) as [d|]; [|done].
  destruct (dict_get d old); [|done]. by intros [= <-].
Qed.

Lemma relabel_edges_node plen es G G' :
  relabel_edges plen es G = Return G' → node G' = node G.
Proof.
  revert G. induction es as [|[[u v] d] es IH]; intros G; simpl; [by intros [= <-]|].
  destruct (rekey G u v u _) as [G1|] eqn:E1; [|done]. simpl.
  destruct (rekey G1 u v v _) as [G2|] eqn:E2; [|done]. simpl.
  intros H. rewrite (IH _ H), (rekey_node _ _ _ _ _ _ E2). by apply (rekey_node _ _ _ _ _ _ E1).
Qed.

(** The names of the node table, as they are added. *)
Lemma elem_of_add_names names new m : m ∈ add_names names new ↔ m ∈ names ∨ m ∈ new.
Proof.
  unfold add_names. revert names. induction new as [|n new IH]; intros names; cbn [foldl].
  - rewrite elem_of_nil. tauto.
  - rewrite IH, elem_of_cons. destruct (decide (n ∈ names)) as [Hn|Hn].
    + split; [tauto|]. intros [H|[->|H]]; tauto.
    + rewrite elem_of_app, list_elem_of_singleton. tauto.
Qed.

Lemma NoDup_add_names names new : NoDup names → NoDup (add_names names new).
Proof.
  unfold add_names. revert names.
  induction new as [|n new IH]; intros names Hnd; cbn [foldl]; [done|].
  apply IH. destruct (decide (n ∈ names)); [done|].
  apply NoDup_app. split; [done|]. split; [|apply NoDup_singleton].
  intros x Hx Hx'. by apply list_elem_of_singleton in Hx' as ->.
Qed.

Lemma add_names_fresh names new :
  NoDup new → (∀ n, n ∈ new → n ∉ names) → add_names names new = names ++ new.
Proof.
  unfold add_names. revert names.
  induction new as [|n new IH]; intros names Hnd Hfresh; cbn [foldl].
  - by rewrite app_nil_r.
  - apply NoDup_cons in Hnd as [Hn Hnd].
    rewrite decide_False by (apply Hfresh, list_elem_of_here).
    rewrite IH; [by rewrite <- app_assoc | done |].
    intros m Hm Hin. apply elem_of_app in Hin as [Hin|Hin].
    + apply (Hfresh m); [by apply list_elem_of_further | done].
    + by apply list_elem_of_singleton in Hin as ->.
Qed.

(** The node table that is read off an attribute table in the order of a
    list of names. *)
Lemma dict_get_table {V} (attrs : dict V) (names : list string) (m : string) :
  dict_get (omap (fun m => pair m <$> dict_get attrs m) names) m
  = if decide (m ∈ names) then dict_get attrs m else None.
Proof.
  induction names as [|m0 names IH]; [done|]. cbn [omap list_omap].
  destruct (decide (m0 = m)) as [->|Hne].
  - rewrite (decide_True (P := m ∈ m :: names)) by apply list_elem_of_here.
    destruct (dict_get attrs m) as [x|] eqn:E; cbn [fmap option_fmap option_map].
    + cbn [dict_get]. by rewrite decide_True.
    + rewrite IH. by destruct (decide (m ∈ names)).
  - assert (Hiff : m ∈ m0 :: names ↔ m ∈ names).
    { rewrite elem_of_cons. split; [intros [?|?]; [congruence | done] | tauto]. }
    destruct (dict_get attrs m0) as [x|]; cbn [fmap option_fmap option_map].
    + cbn [dict_get]. rewrite decide_False by done. rewrite IH.
      destruct (decide (m ∈ names)), (decide (m ∈ m0 :: names)); tauto.
    + rewrite IH. destruct (decide (m ∈ names)), (decide (m ∈ m0 :: names)); tauto.
Qed.

Lemma NoDup_keys_table {V} (attrs : dict V) (names : list string) :
  NoDup names → NoDup (keys (omap (fun m => pair m <$> dict_get attrs m) names)).
Proof.
  unfold keys. induction names as [|m0 names IH]; intros Hnd; [apply NoDup_nil_2|].
  apply NoDup_cons in Hnd as [Hn Hnd]. cbn [omap list_omap].
  destruct (dict_get attrs m0) as [x|]; cbn [fmap option_fmap option_map]; [|by apply IH].
  rewrite fmap_cons. apply NoDup_cons. split; [|by apply IH]. cbn [fst].
  intros Hin. apply list_elem_of_fmap in Hin as ([k v] & -> & Hin). cbn [fst] in Hn.
  apply list_elem_of_omap in Hin as (m & Hm & Heq).
  destruct (dict_get attrs m); [|done]. by injection Heq as <- _.
Qed.

Lemma table_own_keys {V} (attrs attrs0 : dict V) :
  NoDup (keys attrs) →
  (∀ m, m ∈ keys attrs → dict_get attrs0 m = dict_get attrs m) →
  omap (fun m => pair m <$> dict_get attrs0 m) (keys attrs) = attrs.
Proof.
  unfold keys. induction attrs as [|[k v] attrs IH]; intros Hnd Hsame; [done|].
  rewrite fmap_cons in Hnd. apply NoDup_cons in Hnd as [Hk Hnd].
  rewrite fmap_cons. cbn [omap list_omap fst].
  rewrite (Hsame k) by apply list_elem_of_here. cbn [dict_get]. rewrite decide_True by done.
  cbn [fmap option_fmap option_map]. f_equal. apply IH; [done|].
  intros m Hm. rewrite (Hsame m) by (by apply list_elem_of_further).
  cbn [dict_get]. rewrite decide_False; [done|]. by intros ->.
Qed.

Lemma keys_renamed (f : string → string) (l : dict NodeAttrs) :
  keys (map (fun '(n, ndict) => (f n, ndict)) l) = f <$> keys l.
Proof.
  unfold keys. induction l as [|[n nd] l IH]; [done|].
  cbn [map fmap list_fmap fst]. f_equal. exact IH.
Qed.

Lemma map_fmap {A B} (f : A → B) (l : list A) : map f l = f <$> l.
Proof. induction l as [|x l IH]; [done|]. cbn [map fmap list_fmap]. by f_equal. Qed.

(** The nodes of the relabelled graph are the renamed nodes, each once. *)
Lemma elem_of_relabel_nodes G f m :
  m ∈ Graph_nodes (relabel_nodes G f) ↔ m ∈ f <$> Graph_nodes G.
Proof.
  unfold Graph_nodes. rewrite <- (keys_renamed f (node G)), <- !dict_get_is_Some.
  cbn [relabel_nodes node]. rewrite dict_get_table.
  destruct (decide (m ∈ _)) as [Hin|Hout]; [done|].
  split; [intros [x Hx]; done|]. intros Hm. exfalso. apply Hout.
  apply elem_of_add_names. right. apply dict_get_is_Some in Hm.
  rewrite keys_renamed in Hm. by rewrite map_fmap.
Qed.

Lemma NoDup_relabel_nodes G f : NoDup (Graph_nodes (relabel_nodes G f)).
Proof.
  unfold Graph_nodes. cbn [relabel_nodes node].
  apply NoDup_keys_table, NoDup_add_names, NoDup_add_names, NoDup_nil_2.
Qed.

Lemma keys_labelled (l : dict NodeAttrs) :
  keys (map (fun '(n, ndict) =>
               (n, {| label := n; nodeobj := nodeobj ndict; type := type ndict |})) l)
  = keys l.
Proof.
  unfold keys. induction l as [|[n nd] l IH]; [done|].
  cbn [map fmap list_fmap fst]. f_equal. exact IH.
Qed.

Lemma relabel_graph_nodes G prefix G' :
  relabel_graph G prefix = Return G' →
  Graph_nodes G' = Graph_nodes (relabel_nodes G (renamer prefix)).
Proof.
  unfold relabel_graph. intros H. apply relabel_edges_node in H.
  unfold Graph_nodes at 1. rewrite H. cbn [node]. apply keys_labelled.
Qed.

(** X3: [union] with [rename=True] changes its inputs.  When both graphs can
    be relabelled, the call leaves both topologies with the relabelled
    graph, whose node names are the old ones behind the topology's name and
    an underscore, each once (in the order in which [nx.relabel_nodes]
    leaves them); this is so whether [nx.union] then accepts the two
    graphs or refuses them. *)
Theorem union_rename_changes_inputs (self other : Topology) (G1 G2 : Graph) :
  relabel_graph (nxgraph self) (topo_name self) = Return G1 →
  relabel_graph (nxgraph other) (topo_name other) = Return G2 →
  (union true (self, other)).2 = (set_nxgraph self G1, set_nxgraph other G2) ∧
  (∀ m, m ∈ nodes (set_nxgraph self G1) ↔ m ∈ renamer (topo_name self) <$> nodes self) ∧
  (∀ m, m ∈ nodes (set_nxgraph other G2) ↔ m ∈ renamer (topo_name other) <$> nodes other) ∧
  NoDup (nodes (set_nxgraph self G1)) ∧ NoDup (nodes (set_nxgraph other G2)).
Proof.
  intros H1 H2. unfold union. rewrite H1, H2.
  split; [by destruct (nx_union _ _ _)|].
  unfold nodes. cbn [nxgraph set_nxgraph].
  rewrite (relabel_graph_nodes _ _ _ H1), (relabel_graph_nodes _ _ _ H2).
  split; [intros m; apply elem_of_relabel_nodes|].
  split; [intros m; apply elem_of_relabel_nodes|].
  split; apply NoDup_relabel_nodes.
Qed.

(** X4: [union] with [rename=True] on two topologies of the same name that
    share a node name: both are relabelled with the same prefix, so the
    node names still clash and the call raises the exception of
    [nx.union], with both inputs already relabelled. *)
Theorem union_rename_same_name (self other : Topology) (G1 G2 : Graph) (n : string) :
  topo_name self = topo_name other →
  n ∈ nodes self → n ∈ nodes other →
  relabel_graph (nxgraph self) (topo_name self) = Return G1 →
  relabel_graph (nxgraph other) (topo_name other) = Return G2 →
  union true (self, other) = (Raise NetworkXError, (set_nxgraph self G1, set_nxgraph other G2)).
Proof.
  intros Hname Hs Ho H1 H2. unfold union. rewrite H1, H2.
  unfold nx_union. cbn [nxgraph set_nxgraph].
  assert (Hex : existsb (has_node G2) (Graph_nodes G1) = true).
  { apply existsb_exists. exists (renamer (topo_name self) n). split.
    - apply list_elem_of_In. rewrite (relabel_graph_nodes _ _ _ H1).
      apply elem_of_relabel_nodes, list_elem_of_fmap. by exists n.
    - apply has_node_true. rewrite (relabel_graph_nodes _ _ _ H2), <- Hname.
      apply elem_of_relabel_nodes, list_elem_of_fmap. by exists n. }
  by rewrite Hex.
Qed.

End UnionFacts.

(** A check of [graph_wf] that runs. *)
Definition graph_check (G : Graph) : bool :=
  bool_decide (NoDup (Graph_nodes G))
  && forallb (fun e => has_node G e.1.1 && has_node G e.1.2) (edge G)
  && bool_decide (NoDup (key <$> edge G)).

Lemma graph_check_wf (G : Graph) : graph_check G = true → graph_wf G.
Proof.
  unfold graph_check. rewrite !andb_true_iff, !bool_decide_eq_true, forallb_forall.
  intros [[Hn He] Hs]. constructor; [done | | done].
  intros a b d Hin. apply list_elem_of_In, He in Hin. cbn [fst snd] in Hin.
  apply andb_true_iff in Hin as [Ha Hb]. split; by apply has_node_true.
Qed.

(** A router and a host of its own, linked. *)
Definition example_other : Topology :=
  Eval vm_compute in
    ((addRouter None ;;; addHost (Some "hx") ;;;
      addLink (F := example_formatting) "r0" "hx" "100mbps" "10ms")%topo
       (Topology_init "other" None false)).2.

(** X1, a witness: the example scenario and [example_other]. *)
Lemma union_disjoint_witness :
  ∃ new,
    union false (example_topo, example_other) = (Return new, (example_topo, example_other)) ∧
    nodes new = ["h0"; "h1"; "s0"; "r0"; "hx"] ∧
    length (links new) = 3%nat ∧ topo_ifnum new = 1 ∧ auto_macs new = true.
Proof.
  destruct (union_disjoint example_topo example_other)
    as (new & Hrun & Hnode & Hlinks & _ & _ & _ & _ & Hif & Hauto).
  - by apply graph_check_wf.
  - by apply graph_check_wf.
  - intros n Hn Ho. vm_compute in Hn, Ho.
    repeat (apply elem_of_cons in Hn as [->|Hn];
            [repeat (apply elem_of_cons in Ho as [Ho|Ho]; [discriminate Ho|]);
             by apply elem_of_nil in Ho|]).
    by apply elem_of_nil in Hn.
  - exists new. split; [done|]. split; [|by split].
    unfold nodes, Graph_nodes, keys. by rewrite Hnode.
Defined.

(** X2, a witness: the example scenario with itself. *)
Lemma union_common_node_witness :
  union false (example_topo, example_topo) = (Raise NetworkXError, (example_topo, example_topo)).
Proof.
  apply (union_common_node example_topo example_topo "h0"); vm_compute; apply list_elem_of_here.
Defined.

(** The graphs of the two example topologies, relabelled. *)
Definition example_topo_relabelled : Graph :=
  Eval vm_compute in
    match relabel_graph (nxgraph example_topo) (topo_name example_topo) with
    | Return G => G
    | Raise _ => Graph_new ""
    end.

Definition example_other_relabelled : Graph :=
  Eval vm_compute in
    match relabel_graph (nxgraph example_other) (topo_name example_other) with
    | Return G => G
    | Raise _ => Graph_new ""
    end.

(** The order of the relabelled nodes: h0 and s0, the ends of the first
    link, come before h1. *)
Example relabelled_order :
  Graph_nodes example_topo_relabelled
  = ["No name topology_h0"; "No name topology_s0"; "No name topology_h1"].
Proof. reflexivity. Qed.

(** X3, a witness *)
Lemma union_rename_changes_inputs_witness :
  (union true (example_topo, example_other)).2
  = (set_nxgraph example_topo example_topo_relabelled,
     set_nxgraph example_other example_other_relabelled) ∧
  "No name topology_s0" ∈ nodes (set_nxgraph example_topo example_topo_relabelled) ∧
  "s0" ∉ nodes (set_nxgraph example_topo example_topo_relabelled).
Proof.
  destruct (union_rename_changes_inputs example_topo example_other
              example_topo_relabelled example_other_relabelled) as (H1 & H2 & _).
  - by vm_compute.
  - by vm_compute.
  - split; [exact H1|]. split.
    + apply H2. vm_compute. do 2 apply list_elem_of_further. apply list_elem_of_here.
    + intros Hin. apply H2 in Hin. vm_compute in Hin.
      repeat (apply elem_of_cons in Hin as [Hin|Hin]; [discriminate Hin|]).
      by apply elem_of_nil in Hin.
Defined.

(** X4, a witness: the example scenario with itself. *)
Lemma union_rename_same_name_witness :
  union true (example_topo, example_topo)
  = (Raise NetworkXError,
     (set_nxgraph example_topo example_topo_relabelled,
      set_nxgraph example_topo example_topo_relabelled)).
Proof.
  apply (union_rename_same_name example_topo example_topo
           example_topo_relabelled example_topo_relabelled "h0");
    first [by vm_compute | vm_compute; apply list_elem_of_here].
Defined.

(** ** Well-formed topologies *)

Section Built.
Context {F : Formatting}.

(** What shapes a node: its type, its interface counter and the names of
    its interfaces. *)
Definition profile (t : Topology) (n : string) : option (string * N * list string) :=
  match dict_get (node (nxgraph t)) n with
  | Some nd => Some (type nd, ifnum (nodeobj nd), keys (interfaces (nodeobj nd)))
  | None => None
  end.

(** Every node's interface counter is above its automatic names. *)
Definition nodes_ahead (t : Topology) : Prop :=
  ∀ n nd, dict_get (node (nxgraph t)) n = Some nd → counter_ahead (nodeobj nd).

(** A topology is well formed when its graph is, every link names, for both
    endpoints, an interface that is on the node, and the interface counters
    are ahead. *)
Definition topo_wf (t : Topology) : Prop :=
  graph_wf (nxgraph t) ∧ links_ok t = true ∧ nodes_ahead t.

(** [t'] has the nodes, the edges and the node profiles of [t]; what is
    stored in the interfaces may differ. *)
Definition same_shape (t t' : Topology) : Prop :=
  edge (nxgraph t') = edge (nxgraph t) ∧
  nodes t' = nodes t ∧
  ∀ n, profile t' n = profile t n.

Lemma same_shape_refl t : same_shape t t.
Proof. by repeat split. Qed.

Lemma same_shape_trans t1 t2 t3 : same_shape t1 t2 → same_shape t2 t3 → same_shape t1 t3.
Proof.
  intros (He1 & Hn1 & Hi1) (He2 & Hn2 & Hi2). split; [congruence|]. split; [congruence|].
  intros n. by rewrite Hi2, Hi1.
Qed.

Lemma iface_is_Some_profile t n i :
  is_Some (iface t n i) ↔ ∃ ty k ks, profile t n = Some (ty, k, ks) ∧ i ∈ ks.
Proof.
  unfold iface, profile. destruct (dict_get (node (nxgraph t)) n) as [nd|].
  - rewrite dict_get_is_Some. split.
    + intros H. by eexists _, _, _.
    + by intros (ty & k & ks & [= <- <- <-] & H).
  - split; [by intros [? ?] | by intros (? & ? & ? & ? & _)].
Qed.

Lemma same_shape_iface t t' n i :
  same_shape t t' → is_Some (iface t n i) → is_Some (iface t' n i).
Proof. intros (_ & _ & Hp). rewrite !iface_is_Some_profile, Hp. done. Qed.

Lemma endpoint_ok_mono t t' ld n :
  (∀ n i, is_Some (iface t n i) → is_Some (iface t' n i)) →
  endpoint_ok t ld n = true → endpoint_ok t' ld n = true.
Proof.
  intros Hi. unfold endpoint_ok. destruct (dict_get ld n) as [[i| |]|]; try done.
  destruct (iface t n i) eqn:E; [|done]. intros _.
  destruct (Hi n i) as [x Hx]; [by eauto|]. by rewrite Hx.
Qed.

Lemma links_ok_mono t t' :
  edge (nxgraph t') = edge (nxgraph t) →
  (∀ n i, is_Some (iface t n i) → is_Some (iface t' n i)) →
  links_ok t = true → links_ok t' = true.
Proof.
  intros He Hi. unfold links_ok. rewrite He, !forallb_forall.
  intros H e Hin. specialize (H e Hin). apply andb_true_iff in H as [H1 H2].
  apply andb_true_iff. split; by eapply endpoint_ok_mono.
Qed.

Lemma nodes_ahead_profile t t' :
  (∀ n, profile t' n = profile t n) → nodes_ahead t → nodes_ahead t'.
Proof.
  intros Hp Ha n nd' Hnd'. specialize (Hp n). unfold profile in Hp. rewrite Hnd' in Hp.
  destruct (dict_get (node (nxgraph t)) n) as [nd|] eqn:E; [|done].
  injection Hp as _ Hk Hks. intros j Hj. rewrite Hk. apply (Ha n nd E). by rewrite <- Hks.
Qed.

Lemma topo_wf_same_shape t t' : same_shape t t' → topo_wf t → topo_wf t'.
Proof.
  intros Hs [[Hnd Hends Hsim] [Hl Ha]]. pose proof Hs as (He & Hn & Hp). split; [|split].
  - unfold nodes in Hn. constructor; rewrite ?He, ?Hn; done.
  - apply (links_ok_mono t t'); [done | | done]. intros n i. by apply same_shape_iface.
  - by apply (nodes_ahead_profile t t').
Qed.

(** *** The calls that keep the shape *)

Lemma with_address_same_shape t n i a m : same_shape t (with_address t n i a m).
Proof.
  split; [apply with_address_edge|]. split; [apply with_address_nodes|].
  intros n'. unfold profile, with_address.
  destruct (dict_get (node (nxgraph t)) n) as [nd|] eqn:En; [|done].
  destruct (dict_get (interfaces (nodeobj nd)) i) as [intf|] eqn:Ei; [|done]. simpl.
  destruct (decide (n = n')) as [<-|Hn]; [|by rewrite dict_get_set_ne].
  rewrite dict_get_set_eq, En. simpl. do 2 f_equal.
  apply keys_dict_set_in, dict_get_is_Some. by eauto.
Qed.

Lemma assign_endpoint_same_shape mask ntn ld n t g r t' g' :
  assign_endpoint mask ntn ld n (t, g) = (r, (t', g')) → same_shape t t'.
Proof.
  unfold assign_endpoint. destruct (decide (n ∈ ntn)); [|intros [= _ <- _]; apply same_shape_refl].
  destruct (dict_get ld n) as [[i| |]|]; try (intros [= _ <- _]; apply same_shape_refl).
  destruct (dict_get (node (nxgraph t)) n) as [nd|] eqn:En;
    [|intros [= _ <- _]; apply same_shape_refl].
  destruct (dict_get (interfaces (nodeobj nd)) i) as [intf|] eqn:Ei;
    [|intros [= _ <- _]; apply same_shape_refl].
  destruct (next g) as [[a|err] g1]; [|intros [= _ <- _]; apply same_shape_refl].
  intros [= _ <- _].
  pose proof (with_address_same_shape t n i a mask) as H.
  unfold with_address in H. by rewrite En, Ei in H.
Qed.

Lemma assign_links_same_shape mask ntn ls t g r t' g' :
  assign_links mask ntn ls (t, g) = (r, (t', g')) → same_shape t t'.
Proof.
  revert t g. induction ls as [|[u v] ls IH]; intros t g.
  - simpl. unfold ret. intros [= _ <- _]. apply same_shape_refl.
  - cbn [assign_links]. unfold bind. cbn [fst snd].
    rewrite (getLink_fst u v t).
    destruct ((getLink u v t).1) as [ld|err]; [|intros [= _ <- _]; apply same_shape_refl].
    destruct (assign_endpoint mask ntn ld u (t, g)) as [[[]|err] [t1 g1]] eqn:E1.
    + destruct (assign_endpoint mask ntn ld v (t1, g1)) as [[[]|err] [t2 g2]] eqn:E2.
      * intros H. apply IH in H.
        eapply same_shape_trans; [by eapply assign_endpoint_same_shape|].
        eapply same_shape_trans; [by eapply assign_endpoint_same_shape | done].
      * intros [= _ <- _].
        eapply same_shape_trans; by eapply assign_endpoint_same_shape.
    + intros [= _ <- _]. by eapply assign_endpoint_same_shape.
Qed.

Lemma assignIPAddresses_same_shape prefix t r t' :
  assignIPAddresses prefix t = (r, t') → same_shape t t'.
Proof.
  unfold assignIPAddresses.
  destruct (match prefix with Some (a, p) => _ | None => _ end) as [subnet|err];
    [|intros [= _ <-]; apply same_shape_refl].
  destruct (assign_links _ _ _ _) as [r' [t1 g1]] eqn:E. intros [= _ <-].
  by eapply assign_links_same_shape.
Qed.

Lemma NodeAttrs_eta (a : NodeAttrs) :
  {| label := label a; nodeobj := nodeobj a; type := type a |} = a.
Proof. by destruct a. Qed.

Lemma dict_set_same {V} (d : dict V) k v : dict_get d k = Some v → dict_set d k v = d.
Proof.
  induction d as [|[k' v'] d IH]; simpl; [done|].
  destruct (decide (k' = k)) as [->|Hne]; [by intros [= ->]|].
  intros H. by rewrite IH.
Qed.

Lemma setInterfaceAddresses_same_shape n i mac ip mask t r t' :
  setInterfaceAddresses n i mac ip mask t = (r, t') → same_shape t t'.
Proof.
  unfold setInterfaceAddresses, bind, getNode, getitem, on_nodeobj.
  destruct (dict_get (node (nxgraph t)) n) as [a|] eqn:Ea;
    [|intros [= _ <-]; apply same_shape_refl].
  destruct (dict_get (interfaces (nodeobj a)) i) as [intf|] eqn:Ei.
  - intros [= _ <-]. split; [done|]. split.
    + unfold nodes, Graph_nodes. simpl. apply keys_dict_set_in, dict_get_is_Some. by eauto.
    + intros n'. unfold profile. simpl.
      destruct (decide (n = n')) as [<-|Hn]; [|by rewrite dict_get_set_ne].
      rewrite dict_get_set_eq, Ea. simpl. do 2 f_equal.
      apply keys_dict_set_in, dict_get_is_Some. by eauto.
  - intros [= _ <-]. cbn [nodeobj]. rewrite NodeAttrs_eta, (dict_set_same _ _ _ Ea).
    destruct t as [[gn nd ed] h s rr am ifn]. apply same_shape_refl.
Qed.

(** *** New nodes *)

Lemma set_counters_same_shape t h s r : same_shape t (set_counters t h s r).
Proof. by repeat split. Qed.

Lemma iface_other_node t t' n n' i :
  dict_get (node (nxgraph t')) n' = dict_get (node (nxgraph t)) n' →
  n = n' → iface t' n i = iface t n i.
Proof. intros H ->. unfold iface. by rewrite H. Qed.

Lemma addNode_wf name c t r t' :
  addNode name c t = (r, t') → topo_wf t → topo_wf t'.
Proof.
  unfold addNode. destruct (decide (name ∈ nodes t)) as [Hin|Hin]; intros [= _ <-]; [done|].
  intros [[Hnd Hends Hsim] [Hl Ha]].
  assert (Hget : ∀ n, n ∈ nodes t →
    dict_get (dict_set (node (nxgraph t)) name
                {| label := name; nodeobj := Node_new c; type := class_name c |}) n
    = dict_get (node (nxgraph t)) n).
  { intros n Hn. apply dict_get_set_ne. by intros ->. }
  split; [|split].
  - constructor; unfold Graph_nodes; simpl.
    + by apply NoDup_keys_dict_set.
    + intros a b d Hab. destruct (Hends a b d Hab) as [H1 H2].
      rewrite keys_dict_set_notin by done. rewrite !elem_of_app. tauto.
    + done.
  - apply (links_ok_mono t); [done | | done]. intros n i. unfold iface. simpl.
    destruct (dict_get (node (nxgraph t)) n) as [nd|] eqn:E; [|by intros [? ?]].
    rewrite Hget, E; [done|]. apply dict_get_is_Some. by eauto.
  - intros n nd. simpl. destruct (decide (name = n)) as [<-|Hne].
    + rewrite dict_get_set_eq. intros [= <-]. apply counter_ahead_new.
    + rewrite dict_get_set_ne by done. apply Ha.
Qed.

Lemma add_of_class_wf c name t r t' :
  add_of_class c name t = (r, t') → topo_wf t → topo_wf t'.
Proof.
  intros Hrun Hwf.
  assert (Hstep : ∀ n t0, topo_wf t0 → (addNode n c ;;; ret n)%topo t0 = (r, t') → topo_wf t').
  { intros n t0 Hwf0. unfold bind. destruct (addNode n c t0) as [[[]|err] t1] eqn:E.
    - unfold ret. intros [= _ <-]. by eapply addNode_wf.
    - intros [= _ <-]. by eapply addNode_wf. }
  destruct name as [n|].
  - rewrite add_named in Hrun. by eapply Hstep.
  - destruct c; cbn [add_of_class] in Hrun; unfold addHost, addSwitch, addRouter in Hrun.
    + destruct (next_name _ _ _ _) as [[n k]|]; [|by injection Hrun as _ <-].
      eapply Hstep; [|exact Hrun]. eapply topo_wf_same_shape; [apply set_counters_same_shape | done].
    + destruct (next_name _ _ _ _) as [[n k]|]; [|by injection Hrun as _ <-].
      eapply Hstep; [|exact Hrun]. eapply topo_wf_same_shape; [apply set_counters_same_shape | done].
    + destruct (next_name _ _ _ _) as [[n k]|]; [|by injection Hrun as _ <-].
      eapply Hstep; [|exact Hrun]. eapply topo_wf_same_shape; [apply set_counters_same_shape | done].
Qed.

(** *** New links *)

(** The attributes that lines 287-291 leave on the edge. *)
Definition link_attrs (n1 n2 : string) (capbits : Z) (delaysec : float) (i1 i2 : string)
    (d : dict attr) : dict attr :=
  dict_set (dict_set (dict_set (dict_set (dict_set d
    "label" (AStr (humanize_capacity capbits +:+ " " +:+ humanize_delay delaysec)))
    "capacity" (AInt capbits))
    "delay" (AFloat delaysec))
    n1 (AStr i1))
    n2 (AStr i2).

Lemma edge_apply_twice E u v f g :
  edge_apply (edge_apply E u v f) u v g = edge_apply E u v (λ d, g (f d)).
Proof.
  induction E as [|[[a b] d0] E IH]; cbn [edge_apply]; [done|].
  destruct (joins u v (a, b, d0)) eqn:Ej; cbn [edge_apply fst snd].
  - change (joins u v (a, b, f d0)) with (joins u v (a, b, d0)). by rewrite Ej.
  - rewrite Ej. f_equal. exact IH.
Qed.

Lemma edge_apply_app_None E E' u v f :
  lookup_edge E u v = None → edge_apply (E ++ E') u v f = E ++ edge_apply E' u v f.
Proof.
  induction E as [|e E IH]; cbn [lookup_edge edge_apply app]; [done|].
  destruct (joins u v e); [done|]. intros H. by rewrite IH.
Qed.

Lemma joins_refl u v d : joins u v (u, v, d) = true.
Proof. unfold joins. by rewrite bool_decide_true. Qed.

Lemma edge_apply_single u v d f : edge_apply [(u, v, d)] u v f = [(u, v, f d)].
Proof. cbn [edge_apply]. by rewrite joins_refl. Qed.

Lemma Forall_edge_apply (P : string * string * dict attr → Prop) E u v f :
  Forall P E → (∀ a b d, joins u v (a, b, d) = true → P (a, b, f d)) →
  Forall P (edge_apply E u v f).
Proof.
  intros HE Hf. induction HE as [|[[a b] d] E He HE IH]; cbn [edge_apply]; [done|].
  destruct (joins u v (a, b, d)) eqn:Ej; constructor; auto.
Qed.

Lemma labelled_edge t n1 n2 c d i1 i2 :
  is_Some (find_edge (nxgraph t) n1 n2) →
  edge (nxgraph (labelled t n1 n2 c d i1 i2))
  = edge_apply (edge (nxgraph t)) n1 n2 (link_attrs n1 n2 c d i1 i2).
Proof.
  intros Hf. unfold labelled.
  rewrite with_attr_edge by (by rewrite !with_attr_found).
  rewrite with_attr_edge by (by rewrite !with_attr_found).
  rewrite with_attr_edge by (by rewrite !with_attr_found).
  rewrite with_attr_edge by (by rewrite !with_attr_found).
  rewrite with_attr_edge by done.
  unfold edge_update. by rewrite !edge_apply_twice.
Qed.

Lemma links_ok_Forall t :
  links_ok t = true ↔
  Forall (λ e, endpoint_ok t e.2 e.1.1 = true ∧ endpoint_ok t e.2 e.1.2 = true)
         (edge (nxgraph t)).
Proof.
  unfold links_ok. rewrite forallb_forall, Forall_forall. split.
  - intros H e He. apply andb_true_iff, H. by apply list_elem_of_In.
  - intros H e He. apply andb_true_iff, H. by apply list_elem_of_In.
Qed.

Lemma with_interface_iface_mono t n mac n' i :
  is_Some (iface t n' i) → is_Some (iface (with_interface t n mac) n' i).
Proof.
  unfold iface. destruct (dict_get (node (nxgraph t)) n') as [a|] eqn:Ea; [|by intros [? ?]].
  destruct (decide (n = n')) as [->|Hne].
  - rewrite (node_with_interface_eq _ _ _ _ Ea). simpl. rewrite !dict_get_is_Some. intros Hi.
    destruct (decide ("eth" +:+ str_int (ifnum (nodeobj a)) ∈ keys (interfaces (nodeobj a)))).
    + by rewrite keys_dict_set_in.
    + rewrite keys_dict_set_notin by done. apply elem_of_app. by left.
  - by rewrite node_with_interface_ne, Ea.
Qed.

Lemma with_interface_iface_new t n mac :
  has_node (nxgraph t) n = true → is_Some (iface (with_interface t n mac) n (new_ifname t n)).
Proof.
  intros H. apply has_node_true, dict_get_is_Some in H as [a Ha].
  unfold iface, new_ifname. rewrite (node_with_interface_eq _ _ _ _ Ha), Ha. simpl.
  rewrite dict_get_set_eq. by eauto.
Qed.

Lemma with_interface_ahead t n mac : nodes_ahead t → nodes_ahead (with_interface t n mac).
Proof.
  intros Ha n' a'. destruct (decide (n = n')) as [<-|Hne].
  - destruct (dict_get (node (nxgraph t)) n) as [a|] eqn:E.
    + rewrite (node_with_interface_eq _ _ _ _ E). intros [= <-]. simpl.
      apply (addInterface_fresh mac PNone PNone (nodeobj a)), (Ha n a E).
    + unfold with_interface, on_nodeobj. rewrite E. simpl. by rewrite E.
  - rewrite node_with_interface_ne by done. apply Ha.
Qed.

Lemma nodes_ahead_node t t' :
  node (nxgraph t') = node (nxgraph t) → nodes_ahead t → nodes_ahead t'.
Proof. intros H Ha n a. rewrite H. apply Ha. Qed.

Lemma iface_node t t' n i : node (nxgraph t') = node (nxgraph t) → iface t' n i = iface t n i.
Proof. intros H. unfold iface. by rewrite H. Qed.

Lemma key_fmap (E : list (string * string * dict attr)) : key <$> E = unordered <$> E.*1.
Proof. by rewrite <- list_fmap_compose. Qed.

Lemma elem_of_endpoints (E : list (string * string * dict attr)) a b :
  (a, b) ∈ E.*1 ↔ ∃ d, (a, b, d) ∈ E.
Proof.
  rewrite list_elem_of_fmap. split.
  - intros ([[x y] d] & [= -> ->] & H). by exists d.
  - intros [d H]. by exists (a, b, d).
Qed.

Lemma graph_wf_endpoints G G' :
  Graph_nodes G' = Graph_nodes G → (edge G').*1 = (edge G).*1 → graph_wf G → graph_wf G'.
Proof.
  intros Hn He [Hnd Hends Hsim]. constructor.
  - by rewrite Hn.
  - intros a b d Hin. rewrite Hn.
    assert (H : (a, b) ∈ (edge G').*1) by (apply elem_of_endpoints; eauto).
    rewrite He in H. apply elem_of_endpoints in H as [d' H]. by eapply Hends.
  - by rewrite key_fmap, He, <- key_fmap.
Qed.

Lemma add_edge_wf G u v :
  u ∈ Graph_nodes G → v ∈ Graph_nodes G → graph_wf G → graph_wf (add_edge G u v).
Proof.
  intros Hu Hv [Hnd Hends Hsim]. unfold add_edge, find_edge.
  destruct (lookup_edge (edge G) u v) eqn:E; [done|]. constructor; simpl.
  - done.
  - intros a b d. rewrite elem_of_app, list_elem_of_singleton.
    intros [H|[= -> -> ->]]; [by eapply Hends | done].
  - rewrite fmap_app. apply NoDup_app. split; [done|]. split; [|apply NoDup_singleton].
    intros x Hx Hx'. apply list_elem_of_singleton in Hx'. subst x.
    by apply lookup_edge_None in E.
Qed.

(** The topology that a returning [addLink] leaves, and the two interface
    names that its body has in [node1if] and [node2if]. *)
Lemma addLink_body_returns n1 n2 cap d t i1 i2 t' :
  addLink_body n1 n2 cap d t = (Return (i1, i2), t') →
  has_node (nxgraph t) n1 = true ∧ has_node (nxgraph t) n2 = true ∧
  i1 = new_ifname t n1 ∧
  i2 = new_ifname (with_interface (bump t) n1 (fresh_macs t).1) n2 ∧
  ∃ capbits delaysec,
    unhumanize_capacity cap = Return capbits ∧ unhumanize_delay d = Return delaysec ∧
    t' = labelled (prepared t n1 n2) n1 n2 capbits delaysec i1 i2.
Proof.
  destruct (has_node (nxgraph t) n1) eqn:H1.
  - destruct (has_node (nxgraph t) n2) eqn:H2.
    + rewrite (addLink_body_run n1 n2 cap d t H1 H2).
      destruct (unhumanize_capacity cap) as [capbits|err]; [|done].
      destruct (unhumanize_delay d) as [delaysec|err]; [|done].
      cbv zeta. intros [= <- <- <-]. by eauto 10.
    + by rewrite (addLink_body_no_node2 n1 n2 cap d t H1 H2).
  - by rewrite (addLink_body_no_node1 n1 n2 cap d t H1).
Qed.

Lemma addLink_returns n1 n2 cap d t t' :
  addLink n1 n2 cap d t = (Return tt, t') →
  ∃ i1 i2, addLink_body n1 n2 cap d t = (Return (i1, i2), t').
Proof.
  unfold addLink, bind.
  destruct (addLink_body n1 n2 cap d t) as [[[i1 i2]|err] t1]; [|done].
  unfold ret. intros [= <-]. by eauto.
Qed.

(** A topology [L] that differs from the well-formed [t] as a returning
    [addLink] makes it differ is well formed. *)
Lemma topo_wf_linked t L n1 n2 i1 i2 c s :
  topo_wf t →
  has_node (nxgraph t) n1 = true → has_node (nxgraph t) n2 = true →
  nodes L = nodes t →
  edge (nxgraph L)
  = edge_apply (edge (add_edge (nxgraph t) n1 n2)) n1 n2 (link_attrs n1 n2 c s i1 i2) →
  (∀ n i, is_Some (iface t n i) → is_Some (iface L n i)) →
  is_Some (iface L n1 i1) → is_Some (iface L n2 i2) →
  nodes_ahead L →
  topo_wf L.
Proof.
  intros (Hg & Hl & _) H1 H2 HnodesL HedgeL Hmono Hi1 Hi2 HaL.
  assert (Hok : ∀ ld n, n = n2 → endpoint_ok L (link_attrs n1 n2 c s i1 i2 ld) n = true).
  { intros ld n ->. unfold endpoint_ok, link_attrs. rewrite dict_get_set_eq.
    destruct Hi2 as [x ->]. done. }
  assert (Hok2 : ∀ ld, endpoint_ok L (link_attrs n1 n2 c s i1 i2 ld) n2 = true)
    by (intros ld; by apply Hok).
  assert (Hok1 : ∀ ld, endpoint_ok L (link_attrs n1 n2 c s i1 i2 ld) n1 = true).
  { intros ld. destruct (decide (n2 = n1)) as [Heq|Hne].
    - by apply Hok.
    - unfold endpoint_ok, link_attrs. rewrite dict_get_set_ne, dict_get_set_eq by done.
      destruct Hi1 as [x ->]. done. }
  split; [|split; [|done]].
  - apply (graph_wf_endpoints (add_edge (nxgraph t) n1 n2)).
    + unfold nodes in HnodesL. rewrite HnodesL.
      unfold add_edge. by destruct (find_edge (nxgraph t) n1 n2).
    + rewrite HedgeL. apply edge_apply_endpoints.
    + apply add_edge_wf; [by apply has_node_true .. | done].
  - apply links_ok_Forall. rewrite HedgeL.
    assert (Hold : Forall (λ e, endpoint_ok L e.2 e.1.1 = true ∧ endpoint_ok L e.2 e.1.2 = true)
                     (edge (nxgraph t))).
    { apply links_ok_Forall in Hl. eapply Forall_impl; [exact Hl|].
      intros e [He1 He2]. split; by eapply endpoint_ok_mono. }
    assert (Hnew : ∀ a b ld, joins n1 n2 (a, b, ld) = true →
              endpoint_ok L (link_attrs n1 n2 c s i1 i2 ld) a = true ∧
              endpoint_ok L (link_attrs n1 n2 c s i1 i2 ld) b = true).
    { intros a b ld Hj. unfold joins in Hj.
      apply orb_true_iff in Hj as [Hj|Hj]; apply bool_decide_eq_true in Hj as [-> ->]; auto. }
    rewrite edge_add_edge. destruct (lookup_edge (edge (nxgraph t)) n1 n2) eqn:E.
    + by apply Forall_edge_apply.
    + rewrite edge_apply_app_None by done. apply Forall_app. split; [done|].
      rewrite edge_apply_single. constructor; [|done]. by apply Hnew, joins_refl.
Qed.

Lemma labelled_prepared_node t n1 n2 c s i1 i2 :
  node (nxgraph (labelled (prepared t n1 n2) n1 n2 c s i1 i2))
  = node (nxgraph (with_interface (with_interface (bump t) n1 (fresh_macs t).1) n2
                     (fresh_macs t).2)).
Proof. rewrite labelled_node. unfold prepared. by rewrite with_edge_node. Qed.

Lemma labelled_prepared_edge t n1 n2 c s i1 i2 :
  edge (nxgraph (labelled (prepared t n1 n2) n1 n2 c s i1 i2))
  = edge_apply (edge (add_edge (nxgraph t) n1 n2)) n1 n2 (link_attrs n1 n2 c s i1 i2).
Proof. rewrite labelled_edge by apply with_edge_found. by rewrite prepared_edge. Qed.

Lemma labelled_prepared_nodes t n1 n2 c s i1 i2 :
  nodes (labelled (prepared t n1 n2) n1 n2 c s i1 i2) = nodes t.
Proof.
  pose proof (labelled_steady (prepared t n1 n2) n1 n2 c s i1 i2) as (_&_&_&_&_&Hn1).
  pose proof (prepared_steady t n1 n2) as (_&_&_&_&_&Hn2). congruence.
Qed.

Lemma has_node_bump t n : has_node (nxgraph (bump t)) n = has_node (nxgraph t) n.
Proof. by rewrite bump_nxgraph. Qed.

Lemma has_node_with_interface t n mac n' :
  has_node (nxgraph (with_interface t n mac)) n' = has_node (nxgraph t) n'.
Proof. apply has_node_steady, with_interface_steady. Qed.

Lemma new_ifname_bump t n : new_ifname (bump t) n = new_ifname t n.
Proof. unfold new_ifname. by rewrite bump_nxgraph. Qed.

Lemma iface_bump t n i : iface (bump t) n i = iface t n i.
Proof. apply iface_node. by rewrite bump_nxgraph. Qed.

Lemma nodes_ahead_bump t : nodes_ahead t → nodes_ahead (bump t).
Proof. apply nodes_ahead_node. by rewrite bump_nxgraph. Qed.

Lemma addLink_body_wf n1 n2 cap d t i1 i2 t' :
  addLink_body n1 n2 cap d t = (Return (i1, i2), t') → topo_wf t → topo_wf t'.
Proof.
  intros Hrun Hwf.
  apply addLink_body_returns in Hrun as (H1 & H2 & Hi1 & Hi2 & c & s & _ & _ & Ht').
  apply (topo_wf_linked t t' n1 n2 i1 i2 c s Hwf H1 H2).
  - rewrite Ht'. apply labelled_prepared_nodes.
  - rewrite Ht'. apply labelled_prepared_edge.
  - intros n i Hi. rewrite Ht', (iface_node _ _ n i (labelled_prepared_node t n1 n2 c s i1 i2)).
    apply with_interface_iface_mono, with_interface_iface_mono. by rewrite iface_bump.
  - rewrite Ht', (iface_node _ _ n1 i1 (labelled_prepared_node t n1 n2 c s i1 i2)).
    apply with_interface_iface_mono. rewrite Hi1, <- new_ifname_bump.
    apply with_interface_iface_new. by rewrite has_node_bump.
  - rewrite Ht', (iface_node _ _ n2 i2 (labelled_prepared_node t n1 n2 c s i1 i2)).
    rewrite Hi2. apply with_interface_iface_new.
    by rewrite has_node_with_interface, has_node_bump.
  - rewrite Ht'. apply (nodes_ahead_node _ _ (labelled_prepared_node t n1 n2 c s i1 i2)).
    destruct Hwf as (_ & _ & Ha).
    by apply with_interface_ahead, with_interface_ahead, nodes_ahead_bump.
Qed.

Lemma addLink_wf n1 n2 cap d t t' :
  addLink n1 n2 cap d t = (Return tt, t') → topo_wf t → topo_wf t'.
Proof.
  intros Hrun Hwf. apply addLink_returns in Hrun as (i1 & i2 & Hrun).
  by eapply addLink_body_wf.
Qed.

(** *** Topologies that the methods build *)

(** A topology reached from [Topology(name, auto_macs=...)] by calls of
    [addHost], [addSwitch], [addRouter], [setInterfaceAddresses] and
    [assignIPAddresses], whether they return or raise, and by calls of
    [addLink] that return. *)
Inductive built : Topology → Prop :=
| built_init name am : built (Topology_init name None am)
| built_add c name t : built t → built (add_of_class c name t).2
| built_addLink n1 n2 cap d t :
    built t → (addLink n1 n2 cap d t).1 = Return tt → built (addLink n1 n2 cap d t).2
| built_setInterfaceAddresses n i mac ip mask t :
    built t → built (setInterfaceAddresses n i mac ip mask t).2
| built_assignIPAddresses prefix t : built t → built (assignIPAddresses prefix t).2.

Lemma topo_wf_init name am : topo_wf (Topology_init name None am).
Proof.
  split; [apply graph_wf_new|]. split; [done|]. intros n nd H. done.
Qed.

Lemma built_topo_wf t : built t → topo_wf t.
Proof.
  induction 1 as [name am | c name t _ IH | n1 n2 cap d t _ IH Hret
                 | n i mac ip mask t _ IH | prefix t _ IH].
  - apply topo_wf_init.
  - eapply add_of_class_wf; [apply surjective_pairing | done].
  - eapply addLink_wf; [|done]. rewrite <- Hret. apply surjective_pairing.
  - eapply topo_wf_same_shape; [|done].
    eapply setInterfaceAddresses_same_shape. apply surjective_pairing.
  - eapply topo_wf_same_shape; [|done].
    eapply assignIPAddresses_same_shape. apply surjective_pairing.
Qed.

(** X5: a topology that was built by the methods of the class is well
    formed.  Starting from [Topology(name, auto_macs=...)], after any calls
    of [addHost], [addSwitch], [addRouter], [setInterfaceAddresses] and
    [assignIPAddresses] (returning or raising) and any calls of [addLink]
    that return: the node names are distinct, every edge ends in nodes, no
    two edges join the same pair of nodes, every link records for both of
    its endpoints an interface that is on the node, and on every node the
    interface counter is above all the automatic interface names in
    use. *)
Theorem built_well_formed (t : Topology) :
  built t →
  NoDup (nodes t) ∧
  (∀ a b d, (a, b, d) ∈ edge (nxgraph t) → a ∈ nodes t ∧ b ∈ nodes t) ∧
  NoDup (key <$> edge (nxgraph t)) ∧
  links_ok t = true ∧
  (∀ n nd j, dict_get (node (nxgraph t)) n = Some nd →
     "eth" +:+ str_int j ∈ keys (interfaces (nodeobj nd)) → j < ifnum (nodeobj nd)).
Proof.
  intros H. apply built_topo_wf in H as ([Hn He Hs] & Hl & Ha).
  split; [done|]. split; [exact He|]. split; [done|]. split; [done|].
  intros n nd j Hnd. by apply (Ha n nd Hnd).
Qed.

(** *** Queries on a well-formed topology *)

Lemma joins_sym u v e : joins v u e = joins u v e.
Proof. destruct e as [[a b] d]. unfold joins. apply orb_comm. Qed.

Lemma lookup_edge_sym E u v : lookup_edge E v u = lookup_edge E u v.
Proof. induction E as [|e E IH]; cbn [lookup_edge]; [done|]. by rewrite joins_sym, IH. Qed.

Lemma getLink_found t u v ld :
  has_node (nxgraph t) u = true → find_edge (nxgraph t) u v = Some ld →
  getLink u v t = (Return ld, t).
Proof. intros Hu Hf. unfold getLink, getEdge. by rewrite Hu, Hf. Qed.

Lemma endpoint_ok_true t ld n :
  endpoint_ok t ld n = true → ∃ i x, dict_get ld n = Some (AStr i) ∧ iface t n i = Some x.
Proof.
  unfold endpoint_ok. destruct (dict_get ld n) as [[i|z|f]|]; try (intros; discriminate).
  destruct (iface t n i) as [x|] eqn:E; [|intros; discriminate]. intros _. by exists i, x.
Qed.

Lemma getLinkInterfaces_found t u v ld i :
  getLink u v t = (Return ld, t) → dict_get ld u = Some (AStr i) →
  getLinkInterfaces u v t = (Return (AStr i, AStr i), t).
Proof.
  intros Hl Hi. unfold getLinkInterfaces, bind. rewrite Hl. unfold lift, getitem.
  rewrite Hi. reflexivity.
Qed.

Lemma getInterfaceAddresses_found t n i x :
  iface t n i = Some x →
  getInterfaceAddresses n i t = (Return (ethaddr x, ipaddr x, netmask x), t).
Proof.
  unfold iface, getInterfaceAddresses, bind, getNode, getitem, lift.
  destruct (dict_get (node (nxgraph t)) n) as [nd|]; [|done]. unfold getitem.
  by intros ->.
Qed.

Lemma elem_of_links t u v :
  (u, v) ∈ links t → ∃ d, (u, v, d) ∈ Graph_edges (nxgraph t).
Proof. rewrite links_fst. apply elem_of_endpoints. Qed.

(** A link that the graph holds is reported by [links], from one of its
    ends. *)
Lemma links_complete t u v :
  graph_wf (nxgraph t) → is_Some (find_edge (nxgraph t) u v) →
  (u, v) ∈ links t ∨ (v, u) ∈ links t.
Proof.
  intros Hwf [ld Hld].
  assert (Hk : unordered (u, v) ∈ key <$> edge (nxgraph t)).
  { destruct (decide (unordered (u, v) ∈ key <$> edge (nxgraph t))) as [|Hn]; [done|].
    apply lookup_edge_None in Hn. unfold find_edge in Hld. congruence. }
  rewrite <- (key_Graph_edges _ Hwf) in Hk.
  apply list_elem_of_fmap in Hk as ([[a b] d] & Hkey & Hin).
  unfold key in Hkey. cbn [fst] in Hkey. apply unordered_eq in Hkey as [[-> ->]|[-> ->]].
  - left. rewrite links_fst. apply elem_of_endpoints. by eauto.
  - right. rewrite links_fst. apply elem_of_endpoints. by eauto.
Qed.

(** X6: on a well-formed topology every link that [links] reports can be
    queried from both of its ends.  [getLink] returns the same attributes
    for (u, v) and for (v, u); [getLinkInterfaces] returns, for the end
    that is named first, the name of an interface; and
    [getInterfaceAddresses] returns the addresses of that interface on
    that node.  None of the calls changes the topology. *)
Theorem links_can_be_queried (t : Topology) (u v : string) :
  topo_wf t → (u, v) ∈ links t →
  ∃ ld i j x y,
    getLink u v t = (Return ld, t) ∧ getLink v u t = (Return ld, t) ∧
    getLinkInterfaces u v t = (Return (AStr i, AStr i), t) ∧
    getLinkInterfaces v u t = (Return (AStr j, AStr j), t) ∧
    getInterfaceAddresses u i t = (Return (ethaddr x, ipaddr x, netmask x), t) ∧
    getInterfaceAddresses v j t = (Return (ethaddr y, ipaddr y, netmask y), t).
Proof.
  intros ([Hnd Hends Hsim] & Hl & _) Hin.
  apply elem_of_links in Hin as [d Hin].
  apply elem_of_Graph_edges in Hin as [Hu Hd].
  assert (Hv : v ∈ Graph_nodes (nxgraph t)).
  { destruct Hd as [Hd|Hd]; by destruct (Hends _ _ _ Hd). }
  assert (Hsome : is_Some (find_edge (nxgraph t) u v)).
  { destruct Hd as [Hd|Hd];
      [apply (lookup_edge_is_Some _ u v u v d Hd) | apply (lookup_edge_is_Some _ u v v u d Hd)];
      tauto. }
  destruct Hsome as [ld Hld].
  assert (Hok : endpoint_ok t ld u = true ∧ endpoint_ok t ld v = true).
  { unfold find_edge in Hld. apply lookup_edge_Some in Hld as (a & b & Hab & Hj).
    apply links_ok_Forall in Hl. rewrite Forall_forall in Hl.
    destruct (Hl _ Hab) as [H1 H2]. cbn [fst snd] in H1, H2.
    destruct Hj as [[-> ->]|[-> ->]]; done. }
  destruct Hok as [Hoku Hokv].
  apply endpoint_ok_true in Hoku as (i & x & Hi & Hx).
  apply endpoint_ok_true in Hokv as (j & y & Hj & Hy).
  assert (Huv : getLink u v t = (Return ld, t)).
  { apply getLink_found; [by apply has_node_true | done]. }
  assert (Hvu : getLink v u t = (Return ld, t)).
  { apply getLink_found; [by apply has_node_true |]. unfold find_edge in *.
    by rewrite lookup_edge_sym. }
  exists ld, i, j, x, y. split; [done|]. split; [done|].
  split; [by apply (getLinkInterfaces_found t u v ld)|].
  split; [by apply (getLinkInterfaces_found t v u ld)|].
  split; by apply getInterfaceAddresses_found.
Qed.

(** *** What a returning [addLink] adds *)

Lemma with_interface_iface t n mac n' i :
  has_node (nxgraph t) n = true →
  iface (with_interface t n mac) n' i
  = if decide (n' = n ∧ i = new_ifname t n)
    then Some (Interface_init (new_ifname t n) mac PNone PNone)
    else iface t n' i.
Proof.
  intros H. apply has_node_true, dict_get_is_Some in H as [a Ha].
  unfold iface, new_ifname. rewrite Ha.
  destruct (decide (n' = n)) as [->|Hne].
  - rewrite (node_with_interface_eq _ _ _ _ Ha), Ha. simpl.
    destruct (decide (i = "eth" +:+ str_int (ifnum (nodeobj a)))) as [->|Hi].
    + rewrite decide_True by done. apply dict_get_set_eq.
    + rewrite decide_False by tauto. by apply dict_get_set_ne.
  - rewrite node_with_interface_ne by done. rewrite decide_False by tauto. done.
Qed.

Lemma new_ifname_fresh t n : nodes_ahead t → iface t n (new_ifname t n) = None.
Proof.
  intros Ha. unfold iface, new_ifname.
  destruct (dict_get (node (nxgraph t)) n) as [a|] eqn:E; [|done].
  apply dict_get_None. by apply (addInterface_fresh PNone PNone PNone), (Ha n a).
Qed.

(** X7: on a well-formed topology a returning [addLink] makes one new
    interface on each end, under names that were not in use ([node1if] on
    [node1], [node2if] on [node2]; two interfaces under two names when the
    two ends are the same node).  The new interfaces carry the MAC
    addresses drawn for the call and the default IP address and netmask;
    every other interface of every node is as before. *)
Theorem addLink_adds_fresh_interfaces (t : Topology) (n1 n2 cap d i1 i2 : string)
    (t' : Topology) :
  topo_wf t →
  addLink_body n1 n2 cap d t = (Return (i1, i2), t') →
  iface t n1 i1 = None ∧ iface t n2 i2 = None ∧ (n1, i1) ≠ (n2, i2) ∧
  iface t' n1 i1 = Some (Interface_init i1 (fresh_macs t).1 PNone PNone) ∧
  iface t' n2 i2 = Some (Interface_init i2 (fresh_macs t).2 PNone PNone) ∧
  ∀ n i, (n, i) ≠ (n1, i1) → (n, i) ≠ (n2, i2) → iface t' n i = iface t n i.
Proof.
  intros (_ & _ & Ha) Hrun.
  apply addLink_body_returns in Hrun as (H1 & H2 & Hi1 & Hi2 & c & s & _ & _ & ->).
  set (W1 := with_interface (bump t) n1 (fresh_macs t).1) in *.
  assert (Hb : nodes_ahead (bump t)) by (apply (nodes_ahead_node t); [by rewrite bump_nxgraph | done]).
  assert (HW1 : nodes_ahead W1) by (by apply with_interface_ahead).
  assert (H1b : has_node (nxgraph (bump t)) n1 = true) by (by rewrite bump_nxgraph).
  assert (H2b : has_node (nxgraph W1) n2 = true).
  { unfold W1. by rewrite (has_node_steady _ _ _ (with_interface_steady _ _ _)), bump_nxgraph. }
  assert (Hi1b : i1 = new_ifname (bump t) n1).
  { rewrite Hi1. unfold new_ifname. by rewrite bump_nxgraph. }
  assert (Hbi : ∀ n i, iface (bump t) n i = iface t n i).
  { intros n i. apply iface_node. by rewrite bump_nxgraph. }
  assert (HL : ∀ n i, iface (labelled (prepared t n1 n2) n1 n2 c s i1 i2) n i
                      = if decide (n = n2 ∧ i = i2)
                        then Some (Interface_init i2 (fresh_macs t).2 PNone PNone)
                        else if decide (n = n1 ∧ i = i1)
                             then Some (Interface_init i1 (fresh_macs t).1 PNone PNone)
                             else iface t n i).
  { intros n i. rewrite (iface_node _ _ n i (labelled_prepared_node t n1 n2 c s i1 i2)).
    fold W1. rewrite (with_interface_iface W1 n2 _ n i H2b), <- Hi2.
    unfold W1. rewrite (with_interface_iface (bump t) n1 _ n i H1b), <- Hi1b.
    by rewrite Hbi. }
  assert (Hf1 : iface t n1 i1 = None).
  { rewrite Hi1. by apply new_ifname_fresh. }
  assert (Hf2' : iface W1 n2 i2 = None).
  { rewrite Hi2. by apply new_ifname_fresh. }
  assert (Hne : (n1, i1) ≠ (n2, i2)).
  { intros [= Hn Hi]. unfold W1 in Hf2'.
    rewrite (with_interface_iface (bump t) n1 _ n2 i2 H1b), <- Hi1b in Hf2'.
    rewrite decide_True in Hf2' by done. done. }
  assert (Hf2 : iface t n2 i2 = None).
  { unfold W1 in Hf2'.
    rewrite (with_interface_iface (bump t) n1 _ n2 i2 H1b), <- Hi1b in Hf2'.
    destruct (decide (n2 = n1 ∧ i2 = i1)); [done|]. by rewrite Hbi in Hf2'. }
  split; [done|]. split; [done|]. split; [done|]. split; [|split].
  - rewrite HL. rewrite decide_False by (intros [-> ->]; done).
    by rewrite decide_True.
  - rewrite HL. by rewrite decide_True.
  - intros n i Hn1 Hn2. rewrite HL.
    rewrite decide_False by (intros [-> ->]; done).
    rewrite decide_False by (intros [-> ->]; done). done.
Qed.

Lemma lookup_edge_apply_same E u v f :
  lookup_edge (edge_apply E u v f) u v = f <$> lookup_edge E u v.
Proof.
  induction E as [|[[a b] d0] E IH]; cbn [edge_apply lookup_edge]; [done|].
  destruct (joins u v (a, b, d0)) eqn:Ej; cbn [lookup_edge fst snd].
  - change (joins u v (a, b, f d0)) with (joins u v (a, b, d0)). by rewrite Ej.
  - by rewrite Ej.
Qed.

Lemma has_node_nodes t t' n :
  nodes t' = nodes t → has_node (nxgraph t') n = has_node (nxgraph t) n.
Proof.
  intros Hn. unfold nodes in Hn. destruct (has_node (nxgraph t) n) eqn:E.
  - apply has_node_true. rewrite Hn. by apply has_node_true.
  - apply has_node_false. rewrite Hn. by apply has_node_false.
Qed.

(** What the queries return on a link with the attributes of [addLink]. *)
Lemma link_data_found t n1 n2 c s i1 i2 d0 :
  has_node (nxgraph t) n1 = true → has_node (nxgraph t) n2 = true →
  find_edge (nxgraph t) n1 n2 = Some (link_attrs n1 n2 c s i1 i2 d0) →
  ∃ ld,
    getLink n1 n2 t = (Return ld, t) ∧ getLink n2 n1 t = (Return ld, t) ∧
    dict_get ld n2 = Some (AStr i2) ∧
    getLinkInterfaces n2 n1 t = (Return (AStr i2, AStr i2), t) ∧
    (n1 ≠ n2 → dict_get ld n1 = Some (AStr i1) ∧
               getLinkInterfaces n1 n2 t = (Return (AStr i1, AStr i1), t)) ∧
    (n1 ∉ ["label"; "capacity"; "delay"] → n2 ∉ ["label"; "capacity"; "delay"] →
     dict_get ld "capacity" = Some (AInt c) ∧
     dict_get ld "delay" = Some (AFloat s) ∧
     dict_get ld "label"
     = Some (AStr (humanize_capacity c +:+ " " +:+ humanize_delay s))).
Proof.
  intros H1 H2 Hf. exists (link_attrs n1 n2 c s i1 i2 d0).
  assert (H12 : getLink n1 n2 t = (Return (link_attrs n1 n2 c s i1 i2 d0), t)).
  { by apply getLink_found. }
  assert (H21 : getLink n2 n1 t = (Return (link_attrs n1 n2 c s i1 i2 d0), t)).
  { apply getLink_found; [done|]. unfold find_edge in *. by rewrite lookup_edge_sym. }
  assert (Hg2 : dict_get (link_attrs n1 n2 c s i1 i2 d0) n2 = Some (AStr i2)).
  { unfold link_attrs. apply dict_get_set_eq. }
  split; [done|]. split; [done|]. split; [done|].
  split; [by eapply getLinkInterfaces_found|]. split.
  - intros Hne.
    assert (Hg1 : dict_get (link_attrs n1 n2 c s i1 i2 d0) n1 = Some (AStr i1)).
    { unfold link_attrs. rewrite dict_get_set_ne by done. apply dict_get_set_eq. }
    split; [done | by eapply getLinkInterfaces_found].
  - intros Hk1 Hk2. rewrite !not_elem_of_cons in Hk1, Hk2.
    destruct Hk1 as (? & ? & ? & _), Hk2 as (? & ? & ? & _).
    unfold link_attrs. split; [|split].
    + rewrite !dict_get_set_ne by done. apply dict_get_set_eq.
    + rewrite !dict_get_set_ne by done. apply dict_get_set_eq.
    + rewrite !dict_get_set_ne by done. apply dict_get_set_eq.
Qed.

(** X8: after a returning [addLink] on a well-formed topology the link is
    among [links] (from one end or the other), and [getLink] returns, for
    the two ends in either order, one dictionary.  It records [node2if]
    under the name of [node2] and, when the ends are two nodes, [node1if]
    under the name of [node1]; [getLinkInterfaces] gives these names.
    When neither node is called label, capacity or delay the dictionary
    holds the capacity and the delay as converted, and their label. *)
Theorem addLink_link_data (t : Topology) (n1 n2 cap d i1 i2 : string) (t' : Topology)
    (capbits : Z) (delaysec : float) :
  topo_wf t →
  unhumanize_capacity cap = Return capbits →
  unhumanize_delay d = Return delaysec →
  addLink_body n1 n2 cap d t = (Return (i1, i2), t') →
  ((n1, n2) ∈ links t' ∨ (n2, n1) ∈ links t') ∧
  ∃ ld,
    getLink n1 n2 t' = (Return ld, t') ∧ getLink n2 n1 t' = (Return ld, t') ∧
    dict_get ld n2 = Some (AStr i2) ∧
    getLinkInterfaces n2 n1 t' = (Return (AStr i2, AStr i2), t') ∧
    (n1 ≠ n2 → dict_get ld n1 = Some (AStr i1) ∧
               getLinkInterfaces n1 n2 t' = (Return (AStr i1, AStr i1), t')) ∧
    (n1 ∉ ["label"; "capacity"; "delay"] → n2 ∉ ["label"; "capacity"; "delay"] →
     dict_get ld "capacity" = Some (AInt capbits) ∧
     dict_get ld "delay" = Some (AFloat delaysec) ∧
     dict_get ld "label"
     = Some (AStr (humanize_capacity capbits +:+ " " +:+ humanize_delay delaysec))).
Proof.
  intros Hwf Hc Hd Hrun.
  pose proof (addLink_body_wf _ _ _ _ _ _ _ _ Hrun Hwf) as (Hg' & _ & _).
  apply addLink_body_returns in Hrun as (H1 & H2 & _ & _ & c & s & Hc' & Hd' & Ht').
  rewrite Hc in Hc'. rewrite Hd in Hd'. injection Hc' as <-. injection Hd' as <-.
  assert (Hn : ∀ n, has_node (nxgraph t') n = has_node (nxgraph t) n).
  { intros n. apply has_node_nodes. rewrite Ht'. apply labelled_prepared_nodes. }
  destruct (find_edge_add_edge (nxgraph t) n1 n2) as [d0 Hd0].
  assert (Hf : find_edge (nxgraph t') n1 n2 = Some (link_attrs n1 n2 capbits delaysec i1 i2 d0)).
  { unfold find_edge. rewrite Ht', labelled_prepared_edge, lookup_edge_apply_same.
    unfold find_edge in Hd0. by rewrite Hd0. }
  clear Ht'. split.
  - apply links_complete; [done | by rewrite Hf].
  - by apply (link_data_found t' n1 n2 capbits delaysec i1 i2 d0); rewrite ?Hn.
Qed.

(** *** Setting and reading the addresses of an interface *)

(** The interface after [setInterfaceAddresses]: an argument that is
    [None] or empty leaves its field as it was. *)
Definition addressed (x : Interface) (mac ip mask : pyval) : Interface :=
  {| name := name x;
     ethaddr := if truthy mac then ethaddr_setter mac else ethaddr x;
     ipaddr := if truthy ip then ipaddr_setter ip else ipaddr x;
     netmask := if truthy mask then netmask_setter mask else netmask x |}.

Lemma setInterfaceAddresses_run t n i mac ip mask nd x :
  dict_get (node (nxgraph t)) n = Some nd →
  dict_get (interfaces (nodeobj nd)) i = Some x →
  setInterfaceAddresses n i mac ip mask t
  = (Return tt,
     set_nxgraph t
       {| graph_name := graph_name (nxgraph t);
          node := dict_set (node (nxgraph t)) n
                    {| label := label nd;
                       nodeobj := mkNode (cls (nodeobj nd)) (ifnum (nodeobj nd))
                                    (dict_set (interfaces (nodeobj nd)) i
                                       (addressed x mac ip mask));
                       type := type nd |};
          edge := edge (nxgraph t) |}).
Proof.
  intros Hnd Hx. unfold setInterfaceAddresses, bind, getNode, getitem, on_nodeobj.
  rewrite Hnd, Hx. unfold addressed. destruct x as [nm e a m].
  by destruct (truthy mac), (truthy ip), (truthy mask).
Qed.

(** X9: [setInterfaceAddresses] on an interface that is there returns, and
    [getInterfaceAddresses] then reads back what was set: for each of MAC,
    IP address and netmask the value given, as the property setter stores
    it, or the value from before when the argument is [None] or empty.
    Every other interface and the shape of the topology are as before. *)
Theorem setInterfaceAddresses_then_get (t : Topology) (n i : string) (mac ip mask : pyval)
    (x : Interface) :
  iface t n i = Some x →
  ∃ t',
    setInterfaceAddresses n i mac ip mask t = (Return tt, t') ∧
    getInterfaceAddresses n i t'
    = (Return (if truthy mac then ethaddr_setter mac else ethaddr x,
               if truthy ip then ipaddr_setter ip else ipaddr x,
               if truthy mask then netmask_setter mask else netmask x), t') ∧
    (∀ n' i', (n', i') ≠ (n, i) → iface t' n' i' = iface t n' i') ∧
    nodes t' = nodes t ∧ links t' = links t.
Proof.
  unfold iface. destruct (dict_get (node (nxgraph t)) n) as [nd|] eqn:Hnd; [|done].
  intros Hx. eexists. split; [by apply (setInterfaceAddresses_run t n i mac ip mask nd x)|].
  split; [|split; [|split]].
  - apply (getInterfaceAddresses_found _ n i (addressed x mac ip mask)).
    unfold iface. simpl. rewrite dict_get_set_eq. simpl. apply dict_get_set_eq.
  - intros n' i' Hne. unfold iface. simpl.
    destruct (decide (n = n')) as [<-|Hn]; [|by rewrite dict_get_set_ne].
    rewrite dict_get_set_eq, Hnd. simpl. apply dict_get_set_ne. congruence.
  - unfold nodes, Graph_nodes. simpl. apply keys_dict_set_in, dict_get_is_Some. by eauto.
  - apply links_endpoints; [|done].
    unfold nodes, Graph_nodes. simpl. apply keys_dict_set_in, dict_get_is_Some. by eauto.
Qed.

(** X10: for a node that is not in the topology, or an interface that is
    not on the node, [setInterfaceAddresses] and [getInterfaceAddresses]
    raise [KeyError] with the name that is missing (the node's when the
    node is missing), and the topology is exactly as before. *)
Theorem interface_addresses_unknown (t : Topology) (n i : string) (mac ip mask : pyval) :
  iface t n i = None →
  let k := if has_node (nxgraph t) n then i else n in
  setInterfaceAddresses n i mac ip mask t = (Raise (KeyError k), t) ∧
  getInterfaceAddresses n i t = (Raise (KeyError k), t).
Proof.
  unfold iface, has_node, dict_has.
  unfold setInterfaceAddresses, getInterfaceAddresses, bind, getNode, getitem, on_nodeobj, lift.
  destruct (dict_get (node (nxgraph t)) n) as [nd|] eqn:Hnd; [|done].
  intros Hi. unfold getitem. rewrite Hi. cbn [nodeobj]. split; [|done].
  rewrite NodeAttrs_eta, (dict_set_same _ _ _ Hnd).
  by destruct t as [[gn nds ed] h s rr am ifn].
Qed.

End Built.

(** *** The example scenario is built *)

Lemma example_nodes_built : built (F := example_formatting) example_nodes.
Proof.
  pose proof (built_init (F := example_formatting) "No name topology" true) as H.
  apply (built_add Host None) in H. apply (built_add Host None) in H.
  apply (built_add Switch None) in H. exact H.
Qed.

Lemma example_topo_built : built (F := example_formatting) example_topo.
Proof.
  pose proof example_nodes_built as H.
  apply (built_addLink "h0" "s0" "100mbps" "10ms") in H; [|reflexivity].
  apply (built_addLink "h1" "s0" "100mbps" "10ms") in H; [|reflexivity].
  exact H.
Qed.

(** X5, a witness: the example scenario. *)
Lemma built_well_formed_witness :
  NoDup (nodes example_topo) ∧ links_ok example_topo = true.
Proof.
  destruct (built_well_formed (F := example_formatting) example_topo example_topo_built)
    as (Hn & _ & _ & Hl & _).
  by split.
Defined.

(** X6, a witness: the link between h0 and s0 of the example scenario. *)
Lemma links_can_be_queried_witness :
  ("h0", "s0") ∈ links example_topo ∧
  ∃ ld i j x y,
    getLink "h0" "s0" example_topo = (Return ld, example_topo) ∧
    getLink "s0" "h0" example_topo = (Return ld, example_topo) ∧
    getLinkInterfaces "h0" "s0" example_topo = (Return (AStr i, AStr i), example_topo) ∧
    getLinkInterfaces "s0" "h0" example_topo = (Return (AStr j, AStr j), example_topo) ∧
    getInterfaceAddresses "h0" i example_topo
    = (Return (ethaddr x, ipaddr x, netmask x), example_topo) ∧
    getInterfaceAddresses "s0" j example_topo
    = (Return (ethaddr y, ipaddr y, netmask y), example_topo).
Proof.
  assert (Hin : ("h0", "s0") ∈ links example_topo) by (vm_compute; apply list_elem_of_here).
  split; [exact Hin|].
  exact (links_can_be_queried example_topo "h0" "s0"
           (built_topo_wf _ example_topo_built) Hin).
Defined.

(** The second link of the scenario, on the topology with the first. *)
Definition example_first_link : Topology :=
  Eval vm_compute in
    (addLink (F := example_formatting) "h0" "s0" "100mbps" "10ms" example_nodes).2.

Lemma example_first_link_built : built (F := example_formatting) example_first_link.
Proof.
  pose proof example_nodes_built as H.
  apply (built_addLink "h0" "s0" "100mbps" "10ms") in H; [|reflexivity]. exact H.
Qed.

Lemma example_second_link :
  addLink_body (F := example_formatting) "h1" "s0" "100mbps" "10ms" example_first_link
  = (Return ("eth0", "eth1"), example_topo).
Proof. vm_compute. reflexivity. Qed.

(** X7, a witness: the second link of the example scenario makes eth0 on
    h1 and eth1 on s0. *)
Lemma addLink_adds_fresh_interfaces_witness :
  iface example_first_link "s0" "eth1" = None ∧
  iface example_topo "s0" "eth1"
  = Some (Interface_init "eth1" (PStr "00:00:00:00:00:04") PNone PNone).
Proof.
  destruct (addLink_adds_fresh_interfaces (F := example_formatting) example_first_link
              "h1" "s0" "100mbps" "10ms" "eth0" "eth1" example_topo
              (built_topo_wf _ example_first_link_built) example_second_link)
    as (_ & H2 & _ & _ & H5 & _).
  split; [exact H2 | exact H5].
Defined.

(** X8, a witness: the same call. *)
Lemma addLink_link_data_witness :
  (("h1", "s0") ∈ links example_topo ∨ ("s0", "h1") ∈ links example_topo) ∧
  ∃ ld, getLink "s0" "h1" example_topo = (Return ld, example_topo) ∧
        dict_get ld "capacity" = Some (AInt 100000000).
Proof.
  destruct (addLink_link_data (F := example_formatting) example_first_link
              "h1" "s0" "100mbps" "10ms" "eth0" "eth1" example_topo 100000000%Z ten_ms
              (built_topo_wf _ example_first_link_built) eq_refl eq_refl example_second_link)
    as (Hl & ld & _ & H21 & _ & _ & _ & Hattr).
  split; [exact Hl|]. exists ld. split; [exact H21|].
  apply Hattr; vm_compute; intros H; repeat (apply elem_of_cons in H as [H|H]; [discriminate H|]);
    by apply elem_of_nil in H.
Defined.

(** X9, a witness: an IP address and a netmask for eth0 of h0; the MAC
    address stays. *)
Lemma setInterfaceAddresses_then_get_witness :
  ∃ t',
    setInterfaceAddresses "h0" "eth0" PNone (PStr "10.0.0.1") (PStr "255.0.0.0") example_topo
    = (Return tt, t') ∧
    getInterfaceAddresses "h0" "eth0" t'
    = (Return (PEthAddr "00:00:00:00:00:01", PIPAddr "10.0.0.1", PIPAddr "255.0.0.0"), t').
Proof.
  destruct (setInterfaceAddresses_then_get example_topo "h0" "eth0"
              PNone (PStr "10.0.0.1") (PStr "255.0.0.0")
              (Interface_init "eth0" (PStr "00:00:00:00:00:01") PNone PNone) eq_refl)
    as (t' & Hset & Hget & _).
  exists t'. split; [exact Hset | exact Hget].
Defined.

(** X10, a witness: no interface eth7 on h0, no node h9. *)
Lemma interface_addresses_unknown_witness :
  getInterfaceAddresses "h0" "eth7" example_topo = (Raise (KeyError "eth7"), example_topo) ∧
  setInterfaceAddresses "h9" "eth0" PNone PNone PNone example_topo
  = (Raise (KeyError "h9"), example_topo).
Proof.
  split.
  - exact (proj2 (interface_addresses_unknown example_topo "h0" "eth7" PNone PNone PNone eq_refl)).
  - exact (proj1 (interface_addresses_unknown example_topo "h9" "eth0" PNone PNone PNone eq_refl)).
Defined.

(** ** Serialising and reading back, in general *)

Section Serial.












(** *** The links *)




(** *** The nodes *)









(** *** The document *)




(** *** What comes back *)

Lemma NoDup_key_eq (E : list (string * string * dict attr)) e1 e2 :
  NoDup (key <$> E) → e1 ∈ E → e2 ∈ E → key e1 = key e2 → e1 = e2.
Proof.
  induction E as [|e E IH]; [intros _ H; by apply elem_of_nil in H|].
  rewrite fmap_cons, NoDup_cons. intros [Hn Hnd] H1 H2 Hk.
  apply elem_of_cons in H1 as [->|H1]; apply elem_of_cons in H2 as [->|H2]; [done | | |by apply IH].
  - exfalso. apply Hn. rewrite Hk. apply list_elem_of_fmap. by exists e2.
  - exfalso. apply Hn. rewrite <- Hk. apply list_elem_of_fmap. by exists e1.
Qed.

(** [G[u][v]] is the same on the edges as [G.edges()] reports them. *)
Lemma lookup_edge_Graph_edges G u v :
  graph_wf G → lookup_edge (Graph_edges G) u v = lookup_edge (edge G) u v.
Proof.
  intros Hwf. destruct (lookup_edge (Graph_edges G) u v) as [d|] eqn:E1.
  - apply lookup_edge_Some in E1 as (a & b & Hin & Hj).
    apply elem_of_Graph_edges in Hin as [_ Hin].
    assert (∃ x y, (x, y, d) ∈ edge G ∧ key (x, y, d) = unordered (u, v)) as (x & y & Hxy & Hkey).
    { destruct Hin as [Hin|Hin]; [exists a, b | exists b, a]; (split; [done|]);
        unfold key; cbn [fst]; apply unordered_eq; tauto. }
    destruct (lookup_edge (edge G) u v) as [d'|] eqn:E2.
    + apply lookup_edge_Some in E2 as (a' & b' & Hin' & Hj').
      assert (Hkey' : key (a', b', d') = unordered (u, v)).
      { unfold key. cbn [fst]. apply unordered_eq. tauto. }
      assert (Heq : (a', b', d') = (x, y, d)).
      { apply (NoDup_key_eq (edge G)); [apply (wf_simple G Hwf) | done | done | congruence]. }
      by injection Heq as _ _ ->.
    + apply lookup_edge_None in E2. exfalso. apply E2.
      rewrite <- Hkey. apply list_elem_of_fmap. by exists (x, y, d).
  - symmetry. apply lookup_edge_None. apply lookup_edge_None in E1.
    by rewrite <- (key_Graph_edges G Hwf).
Qed.







End Serial.

(** *** The links of a built topology are plain *)

Section BuiltLinks.
Context {F : Formatting}.



Lemma add_of_class_edge c name t :
  edge (nxgraph (add_of_class c name t).2) = edge (nxgraph t).
Proof.
  assert (Hnode : ∀ n t0, edge (nxgraph ((addNode n c ;;; ret n)%topo t0).2) = edge (nxgraph t0)).
  { intros n t0. unfold bind, addNode. by destruct (decide (n ∈ nodes t0)). }
  destruct name as [n|].
  - rewrite add_named. apply Hnode.
  - destruct c; cbn [add_of_class]; unfold addHost, addSwitch, addRouter;
      (destruct (next_name _ _ _ _) as [[n k]|]; [|done]); by rewrite Hnode.
Qed.





End BuiltLinks.

(** ** Interfaces written as text and read back *)

Section Printing.

(** No character of [s] satisfies [P]. *)
Fixpoint avoids (P : ascii → bool) (s : string) : bool :=
  match s with
  | "" => true
  | String c r => negb (P c) && avoids P r
  end.

Definition is_colon (c : ascii) : bool := bool_decide (c = ":"%char).
Definition is_slash (c : ascii) : bool := bool_decide (c = "/"%char).

(** A text that can stand for an address in the string of an interface:
    no whitespace, no colon, no slash. *)
Definition field (s : string) : Prop :=
  avoids isspace s = true ∧ avoids is_colon s = true ∧ avoids is_slash s = true.

(** An interface whose string [Node.__init__] can take apart: the name is
    a word, the MAC address has no whitespace, and the IP address and the
    netmask, when they are printed, are fields. *)
Definition printable (i : Interface) : Prop :=
  name i ≠ "" ∧ avoids isspace (name i) = true ∧ avoids isspace (str (ethaddr i)) = true ∧
  (str (ipaddr i) ≠ "0.0.0.0" → field (str (ipaddr i)) ∧ field (str (netmask i))).

Lemma append_nil_l (s : string) : "" +:+ s = s.
Proof. reflexivity. Qed.

Lemma append_cons (c : ascii) (a b : string) : String c a +:+ b = String c (a +:+ b).
Proof. reflexivity. Qed.

Lemma append_nil_r (s : string) : s +:+ "" = s.
Proof. induction s as [|c s IH]; [done|]. by rewrite append_cons, IH. Qed.

Lemma append_assoc (a b c : string) : (a +:+ b) +:+ c = a +:+ (b +:+ c).
Proof. induction a as [|x a IH]; [done|]. by rewrite !append_cons, IH. Qed.

Lemma avoids_app P a b : avoids P (a +:+ b) = avoids P a && avoids P b.
Proof.
  induction a as [|x a IH]; [done|]. rewrite append_cons. simpl. by rewrite IH, andb_assoc.
Qed.

(** *** [split] *)

Lemma split_aux_word w r :
  avoids isspace w = true → split_aux (w +:+ r) = (w +:+ (split_aux r).1, (split_aux r).2).
Proof.
  induction w as [|c w IH].
  - intros _. rewrite !append_nil_l. by destruct (split_aux r).
  - intros H. simpl in H. apply andb_true_iff in H as [Hc Hw]. apply negb_true_iff in Hc.
    rewrite !append_cons. cbn [split_aux]. rewrite (IH Hw). by rewrite Hc.
Qed.

Lemma split_aux_space r : split_aux (String " " r) = ("", split r).
Proof. unfold split. cbn [split_aux]. by destruct (split_aux r) as [w ws]. Qed.

Lemma split_word w : w ≠ "" → avoids isspace w = true → split w = [w].
Proof.
  intros Hne Hw. unfold split. rewrite <- (append_nil_r w) at 1.
  rewrite (split_aux_word w "" Hw). cbn [split_aux fst snd]. rewrite append_nil_r.
  by destruct w.
Qed.

Lemma split_word_space w r :
  w ≠ "" → avoids isspace w = true → split (w +:+ String " " r) = w :: split r.
Proof.
  intros Hne Hw. unfold split at 1. rewrite (split_aux_word w _ Hw), split_aux_space.
  cbn [fst snd]. rewrite append_nil_r. by destruct w.
Qed.

(** *** [split] with a separator *)

Lemma split_on_plain sep p :
  avoids (fun c => bool_decide (c = sep)) p = true → split_on sep p = [p].
Proof.
  induction p as [|c p IH]; simpl; [done|].
  intros H. apply andb_true_iff in H as [Hc Hp]. apply negb_true_iff, bool_decide_eq_false in Hc.
  rewrite decide_False by done. by rewrite (IH Hp).
Qed.

Lemma split_on_first sep p r :
  avoids (fun c => bool_decide (c = sep)) p = true →
  split_on sep (p +:+ String sep r) = p :: split_on sep r.
Proof.
  induction p as [|c p IH].
  - intros _. rewrite append_nil_l. cbn [split_on]. by rewrite decide_True.
  - intros H. simpl in H.
    apply andb_true_iff in H as [Hc Hp]. apply negb_true_iff, bool_decide_eq_false in Hc.
    rewrite append_cons. cbn [split_on]. rewrite decide_False by done. by rewrite (IH Hp).
Qed.

(** *** One interface *)

Lemma Interface_str_eq i :
  Interface_str i
  = if decide (str (ipaddr i) = "0.0.0.0")
    then name i +:+ String " " ("mac:" +:+ str (ethaddr i))
    else name i +:+ String " " (("mac:" +:+ str (ethaddr i)) +:+
           String " " ("ip:" +:+ (str (ipaddr i) +:+ String "/" (str (netmask i))))).
Proof.
  unfold Interface_str. destruct (decide (str (ipaddr i) = "0.0.0.0")); [done|].
  rewrite !append_assoc. reflexivity.
Qed.

Lemma parse_interface_printed (i : Interface) (ifname : string) :
  printable i →
  parse_interface ifname (Interface_str i)
  = Return (if decide (str (ipaddr i) = "0.0.0.0")
            then Interface_init ifname (PStr (str (ethaddr i))) PNone PNone
            else Interface_init ifname (PStr (str (ethaddr i)))
                   (PStr (str (ipaddr i))) (PStr (str (netmask i)))).
Proof.
  intros (Hne & Hname & Hmac & Hip). rewrite Interface_str_eq. unfold parse_interface.
  assert (Hmacw : avoids isspace ("mac:" +:+ str (ethaddr i)) = true).
  { by rewrite avoids_app, Hmac. }
  destruct (decide (str (ipaddr i) = "0.0.0.0")) as [Hz|Hz].
  - rewrite (split_word_space _ _ Hne Hname), split_word by done.
    cbn [index lookup list_lookup obind length]. rewrite decide_False by (simpl; lia).
    reflexivity.
  - destruct (Hip Hz) as ((Hi1 & Hi2 & Hi3) & (Hm1 & Hm2 & Hm3)).
    rewrite (split_word_space _ _ Hne Hname).
    rewrite (split_word_space ("mac:" +:+ str (ethaddr i))) by done.
    rewrite split_word; [|done|by rewrite !avoids_app; simpl; rewrite Hi1, Hm1].
    cbn [index lookup list_lookup obind length]. rewrite decide_True by (simpl; lia).
    change ("ip:" +:+ (str (ipaddr i) +:+ String "/" (str (netmask i))))
      with ("ip" +:+ String ":" (str (ipaddr i) +:+ String "/" (str (netmask i)))).
    rewrite (split_on_first ":" "ip") by done.
    rewrite split_on_plain by (rewrite avoids_app; simpl; fold is_colon; by rewrite Hi2, Hm2).
    cbn [index lookup list_lookup obind].
    rewrite (split_on_first "/") by done. rewrite (split_on_plain "/") by done.
    reflexivity.
Qed.

(** What [Node.__init__] makes of the string of [i], under the name
    [ifname]. *)
Definition read_back (ifname : string) (i : Interface) : Interface :=
  if decide (str (ipaddr i) = "0.0.0.0")
  then Interface_init ifname (PStr (str (ethaddr i))) PNone PNone
  else Interface_init ifname (PStr (str (ethaddr i)))
         (PStr (str (ipaddr i))) (PStr (str (netmask i))).

Lemma Interface_str_read_back (i : Interface) :
  Interface_str (read_back (name i) i) = Interface_str i.
Proof.
  unfold read_back, Interface_str.
  destruct (decide (str (ipaddr i) = "0.0.0.0")) as [Hz|Hz]; cbn [Interface_init name ethaddr
    ipaddr netmask ethaddr_setter ipaddr_setter netmask_setter str].
  - by rewrite decide_True.
  - by rewrite decide_False.
Qed.

(** X12: [Node.__init__] reads back the string that [Interface.__str__]
    writes.  For an interface whose name is a word, whose MAC address has
    no whitespace and whose IP address and netmask, when printed, have no
    whitespace, colon or slash, the parse returns an interface with the
    same name and the same address texts, which prints as the same string.
    When the IP address prints as 0.0.0.0 the string has no address part:
    the interface comes back with the default IP address and the default
    netmask 255.255.255.255, whatever netmask it had. *)
Theorem parse_interface_Interface_str (i : Interface) :
  printable i →
  ∃ i',
    parse_interface (name i) (Interface_str i) = Return i' ∧
    name i' = name i ∧ str (ethaddr i') = str (ethaddr i) ∧
    Interface_str i' = Interface_str i ∧
    (str (ipaddr i) ≠ "0.0.0.0" →
       str (ipaddr i') = str (ipaddr i) ∧ str (netmask i') = str (netmask i)) ∧
    (str (ipaddr i) = "0.0.0.0" →
       ipaddr i' = PStr "0.0.0.0" ∧ netmask i' = PStr "255.255.255.255").
Proof.
  intros Hp. exists (read_back (name i) i).
  split; [by apply parse_interface_printed|].
  split; [unfold read_back; by destruct (decide _)|].
  split; [unfold read_back; by destruct (decide _)|].
  split; [apply Interface_str_read_back|].
  unfold read_back. split; intros Hz.
  - by rewrite decide_False.
  - by rewrite decide_True.
Qed.

(** *** All the interfaces of a node *)

Lemma load_interfaces_printed (ifs : dict Interface) (acc : dict Interface) :
  NoDup (keys acc ++ keys ifs) →
  (∀ k i, (k, i) ∈ ifs → printable i) →
  load_interfaces (map (fun '(ifname, ifobj) => (ifname, Interface_str ifobj)) ifs) acc
  = Return (acc ++ map (fun '(k, i) => (k, read_back k i)) ifs).
Proof.
  revert acc. induction ifs as [|[k i] ifs IH]; intros acc Hnd Hp.
  - simpl. by rewrite app_nil_r.
  - cbn [map load_interfaces]. rewrite parse_interface_printed
      by (apply (Hp k); apply list_elem_of_here).
    cbn [obind]. fold (read_back k i). apply NoDup_app in Hnd as (Ha & Hd & Hn).
    assert (Hk : k ∉ keys acc).
    { intros Hin. apply (Hd k Hin). unfold keys. simpl. apply list_elem_of_here. }
    assert (Hset : dict_set acc k (read_back k i) = acc ++ [(k, read_back k i)]).
    { clear -Hk. unfold keys in Hk. induction acc as [|[k' v'] acc IHa]; simpl; [done|].
      simpl in Hk. apply not_elem_of_cons in Hk as [Hne Hk].
      rewrite decide_False by congruence. by rewrite IHa. }
    rewrite Hset, IH.
    + by rewrite <- app_assoc.
    + unfold keys in *. rewrite fmap_app. cbn [fmap list_fmap fst].
      rewrite <- app_assoc. apply NoDup_app. split; [done|]. split; [|done].
      intros x Hx. by apply Hd in Hx.
    + intros k' i' Hin. apply (Hp k'). by apply list_elem_of_further.
Qed.

(** X13: [Node.__init__] given the interfaces that [asDict] wrote.  For a
    node whose interfaces are printable and stored under their own names,
    the class called with [interfaces=asDict()['interfaces']] returns a
    node of which [asDict] gives the same dictionary again: the same
    interface names in the same order, each with the same string.  The
    interface counter of the new node is zero, however many interfaces
    were loaded. *)
Theorem Node_init_asDict (n : Node) :
  NoDup (keys (interfaces n)) →
  (∀ k i, (k, i) ∈ interfaces n → name i = k ∧ printable i) →
  ∃ n',
    Node_init (cls n) (Some (asDict n).2) = Return n' ∧
    asDict n' = asDict n ∧
    keys (interfaces n') = keys (interfaces n) ∧
    ifnum n' = 0.
Proof.
  intros Hnd Hp. unfold Node_init, asDict. cbn [snd].
  rewrite (load_interfaces_printed (interfaces n) []);
    [|done | intros k i Hin; by apply (Hp k i)].
  cbn [obind app]. eexists. split; [done|]. cbn [cls interfaces ifnum].
  split; [|split; [|done]].
  - f_equal. induction (interfaces n) as [|[k i] ifs IH]; [done|].
    cbn [map]. rewrite IH.
    + destruct (Hp k i) as [Hname _]; [apply list_elem_of_here|].
      rewrite <- Hname at 2. by rewrite Interface_str_read_back.
    + by apply NoDup_cons in Hnd as [_ ?].
    + intros k' i' Hin. apply Hp. by apply list_elem_of_further.
  - unfold keys. clear. induction (interfaces n) as [|[k i] ifs IH]; [done|].
    cbn [map fmap list_fmap fst]. f_equal. exact IH.
Qed.

End Printing.

(** An [ipaddress.IPv4Address] prints as a field: its text has digits and
    dots only.  So the interfaces that [assignIPAddresses] numbers are
    printable when their names and MAC addresses are. *)
Lemma field_octet (n : N) : n < 256 → field (str_int n).
Proof.
  intros Hn.
  assert (Hall : forallb (fun k => avoids isspace (str_int (N.of_nat k))
                                   && avoids is_colon (str_int (N.of_nat k))
                                   && avoids is_slash (str_int (N.of_nat k)))
                         (seq 0 256) = true) by (by vm_compute).
  rewrite forallb_forall in Hall. specialize (Hall (N.to_nat n)).
  rewrite N2Nat.id in Hall.
  destruct (andb_prop _ _ (Hall ltac:(apply in_seq; lia))) as [H12 H3].
  destruct (andb_prop _ _ H12) as [H1 H2]. by repeat split.
Qed.

Lemma field_append (a b : string) : field a → field b → field (a +:+ b).
Proof.
  intros (H1 & H2 & H3) (H4 & H5 & H6). unfold field. rewrite !avoids_app.
  by rewrite H1, H2, H3, H4, H5, H6.
Qed.

Lemma field_dotted_quad (a : N) : field (dotted_quad a).
Proof.
  unfold dotted_quad.
  repeat (apply field_append; [first [apply field_octet; by apply N.mod_lt | by vm_compute]|]).
  apply field_octet. by apply N.mod_lt.
Qed.

Lemma printable_assigned (x : Interface) (a m : N) :
  printable x → printable (mkInterface (name x) (ethaddr x) (PIPv4Address a) (PIPv4Address m)).
Proof.
  intros (H1 & H2 & H3 & _). split; [done|]. split; [done|]. split; [done|].
  intros _. split; apply field_dotted_quad.
Qed.

(** The interface eth0 of h0 as [assignIPAddresses] leaves it with
    192.168.1.0/24: the addresses are [ipaddress.IPv4Address] objects. *)
Definition example_interface : Interface :=
  mkInterface "eth0" (PEthAddr "00:00:00:00:00:01")
    (PIPv4Address 3232235777) (PIPv4Address 4294967040).

Lemma example_interface_assigned :
  iface (assignIPAddresses (Some (3232235776, 24)) example_topo).2 "h0" "eth0"
  = Some example_interface.
Proof. by vm_compute. Qed.

Lemma example_interface_printable : printable example_interface.
Proof.
  split; [done|]. split; [reflexivity|]. split; [reflexivity|]. intros _.
  by vm_compute.
Qed.

(** X12, a witness: 192.168.1.1/255.255.255.0 on eth0.  The addresses
    come back as [IPAddr] objects of the same text. *)
Lemma parse_interface_Interface_str_witness :
  Interface_str example_interface
  = "eth0 mac:00:00:00:00:00:01 ip:192.168.1.1/255.255.255.0" ∧
  parse_interface "eth0" (Interface_str example_interface)
  = Return (mkInterface "eth0" (PEthAddr "00:00:00:00:00:01")
              (PIPAddr "192.168.1.1") (PIPAddr "255.255.255.0")) ∧
  ∃ i', parse_interface "eth0" (Interface_str example_interface) = Return i' ∧
        Interface_str i' = Interface_str example_interface.
Proof.
  split; [by vm_compute|]. split; [by vm_compute|].
  destruct (parse_interface_Interface_str example_interface example_interface_printable)
    as (i' & Hrun & _ & _ & Hstr & _).
  exists i'. split; [exact Hrun | exact Hstr].
Defined.

(** X13, a witness: the switch of the example scenario, with eth0 and
    eth1. *)
Definition example_switch : Node :=
  Eval vm_compute in
    match dict_get (node (nxgraph example_topo)) "s0" with
    | Some nd => nodeobj nd
    | None => Node_new Switch
    end.

(** The host h0 of the example scenario after [assignIPAddresses] with
    192.168.1.0/24. *)
Definition example_host : Node :=
  Eval vm_compute in
    match dict_get (node (nxgraph (assignIPAddresses (Some (3232235776, 24)) example_topo).2))
                   "h0" with
    | Some nd => nodeobj nd
    | None => Node_new Host
    end.

Lemma Node_init_asDict_witness :
  (keys (interfaces example_switch) = ["eth0"; "eth1"] ∧ ifnum example_switch = 2 ∧
   ∃ n', Node_init Switch (Some (asDict example_switch).2) = Return n' ∧
         asDict n' = asDict example_switch ∧ ifnum n' = 0) ∧
  (asDict example_host
   = ("Host", [("eth0", "eth0 mac:00:00:00:00:00:01 ip:192.168.1.1/255.255.255.0")]) ∧
   ∃ n', Node_init Host (Some (asDict example_host).2) = Return n' ∧
         asDict n' = asDict example_host ∧ ifnum n' = 0).
Proof.
  split.
  - split; [reflexivity|]. split; [reflexivity|].
    destruct (Node_init_asDict example_switch) as (n' & Hrun & Hd & _ & Hnum).
    + apply (bool_decide_unpack (NoDup (keys (interfaces example_switch)))). reflexivity.
    + intros k i Hin. apply list_elem_of_In in Hin.
      destruct Hin as [[= <- <-]|[[= <- <-]|[]]];
        (split; [reflexivity|]); (split; [done|]); (split; [reflexivity|]);
        (split; [reflexivity|]); intros H; by contradiction H.
    + exists n'. split; [exact Hrun|]. split; [exact Hd | exact Hnum].
  - split; [by vm_compute|].
    destruct (Node_init_asDict example_host) as (n' & Hrun & Hd & _ & Hnum).
    + apply (bool_decide_unpack (NoDup (keys (interfaces example_host)))). reflexivity.
    + intros k i Hin. apply list_elem_of_In in Hin.
      destruct Hin as [[= <- <-]|[]].
      split; [reflexivity|]. split; [done|]. split; [reflexivity|]. split; [reflexivity|].
      intros _. by vm_compute.
    + exists n'. split; [exact Hrun|]. split; [exact Hd | exact Hnum].
Defined.

(** ** Address assignment that runs out of addresses *)

Section Exhaustion.

Local Ltac narith :=
  repeat match goal with H : context [endpoint_ok] |- _ => clear H end; lia.

(** One link on which the generator is exhausted: the endpoints that got
    an address before keep it. *)
Lemma assign_link_stop mask ntn u v rest t g :
  link_ok t ntn (u, v) →
  stop g - cur g < N.of_nat (length (link_visits t ntn (u, v))) →
  (assign_links mask ntn ((u, v) :: rest) (t, Gen g)).2.1
  = assign_all mask (take (N.to_nat (stop g - cur g)) (link_visits t ntn (u, v))) (cur g) t.
Proof.
  intros (ld & Hl & H1 & H2). simpl in Hl, H1, H2.
  unfold link_visits. cbn [fst snd].
  assert (Hf : find_edge (nxgraph t) u v = Some ld).
  { unfold getLink, getEdge in Hl. destruct (has_node (nxgraph t) u); [|done].
    destruct (find_edge (nxgraph t) u v); [|done]. by injection Hl as ->. }
  rewrite Hf. cbn [omap list_omap].
  remember (assign_links mask ntn ((u, v) :: rest) (t, Gen g)) as R eqn:HR.
  cbn [assign_links] in HR. unfold bind in HR. cbn [fst snd] in HR. rewrite Hl in HR.
  destruct g as [c s]. cbn [cur stop].
  destruct (decide (u ∈ ntn)) as [Hu|Hu].
  - destruct (assign_endpoint_run mask ntn ld u t {| cur := c; stop := s |} Hu (H1 Hu))
      as (i & Hv & Hrun). rewrite Hrun in HR. clear Hrun. cbn [cur stop] in HR. rewrite Hv.
    destruct (c <? s) eqn:Ec.
    + apply N.ltb_lt in Ec.
      destruct (decide (v ∈ ntn)) as [Hv2|Hv2].
      * assert (Hok : endpoint_ok (with_address t u i c mask) ld v = true)
          by (rewrite endpoint_ok_with_address; auto).
        destruct (assign_endpoint_run mask ntn ld v _ {| cur := c + 1; stop := s |} Hv2 Hok)
          as (i2 & Hvv & Hrun). rewrite Hrun in HR. clear Hrun. cbn [cur stop] in HR.
        rewrite Hvv. cbn [length].
        destruct (c + 1 <? s) eqn:Ec2; subst R.
        -- apply N.ltb_lt in Ec2. intros; exfalso; narith.
        -- apply N.ltb_ge in Ec2. intros _.
           replace (s - c) with 1 by narith. reflexivity.
      * rewrite (visit_skip ntn ld v) by done. cbn [length]. intros; exfalso; narith.
    + apply N.ltb_ge in Ec. subst R. intros _.
      replace (s - c) with 0 by narith. reflexivity.
  - rewrite assign_endpoint_skip in HR by done.
    rewrite (visit_skip ntn ld u) by done.
    destruct (decide (v ∈ ntn)) as [Hv2|Hv2].
    + destruct (assign_endpoint_run mask ntn ld v t {| cur := c; stop := s |} Hv2 (H2 Hv2))
        as (i2 & Hvv & Hrun). rewrite Hrun in HR. clear Hrun. cbn [cur stop] in HR.
      rewrite Hvv. cbn [length].
      destruct (c <? s) eqn:Ec; subst R.
      * apply N.ltb_lt in Ec. intros; exfalso; narith.
      * apply N.ltb_ge in Ec. intros _. replace (s - c) with 0 by narith. reflexivity.
    + rewrite (visit_skip ntn ld v) by done. cbn [length]. intros; exfalso; narith.
Qed.

Lemma assign_links_stop mask ntn ls t g :
  Forall (link_ok t ntn) ls →
  stop g - cur g < N.of_nat (length (visits t ntn ls)) →
  (assign_links mask ntn ls (t, Gen g)).2.1
  = assign_all mask (take (N.to_nat (stop g - cur g)) (visits t ntn ls)) (cur g) t.
Proof.
  revert t g. induction ls as [|[u v] ls IH]; intros t g Hok.
  - unfold visits. simpl. intros; exfalso; lia.
  - apply Forall_cons in Hok as [Huv Hls].
    assert (HV : visits t ntn ((u, v) :: ls) = link_visits t ntn (u, v) ++ visits t ntn ls)
      by done.
    rewrite HV, length_app. intros Hlt.
    destruct (decide (stop g - cur g < N.of_nat (length (link_visits t ntn (u, v))))) as [Hs|Hs].
    + rewrite (assign_link_stop mask ntn u v ls t g Huv Hs).
      rewrite take_app_le by lia. done.
    + destruct (assign_link_run mask ntn u v ls t g Huv) as [Hgo _].
      rewrite Hgo by lia.
      set (V1 := link_visits t ntn (u, v)) in *.
      assert (Hls1 : Forall (link_ok (assign_all mask V1 (cur g) t) ntn) ls).
      { eapply Forall_impl; [exact Hls|]. intros uv. apply link_ok_assign_all. }
      rewrite (IH _ _ Hls1); cbn [cur stop]; rewrite visits_assign_all; [|lia].
      rewrite take_app_ge by lia. rewrite assign_all_app.
      do 2 f_equal. f_equal. lia.
Qed.

(** X14: [assignIPAddresses] is not undone when the addresses run out.  On
    a topology whose links name interfaces that are there, with fewer
    addresses in the host range than the walk has interfaces, the call
    raises the exception of the exhausted generator and leaves the
    topology changed: the interfaces that the walk met while addresses
    were left have their address and the netmask (the [k]-th of them the
    [k]-th address), and every other interface is as before. *)
Theorem assignIPAddresses_exhausted_keeps (t : Topology) (prefix : option (N * N))
    (subnet : IPv4Network) (g : generator) :
  links_ok t = true →
  subnet_of prefix = Return subnet →
  subnet_hosts subnet = Gen g →
  usable g < N.of_nat (length (visited t)) →
  ∃ t',
    assignIPAddresses prefix t = (Raise StopIteration, t') ∧
    (∀ k n i,
       (k < N.to_nat (usable g))%nat →
       visited t !! k = Some (n, i) →
       (∀ k', (k < k' < N.to_nat (usable g))%nat →
              visited t !! k' ≠ Some (n, i)) →
       ∃ intf, iface t n i = Some intf ∧
               iface t' n i
               = Some (mkInterface (name intf) (ethaddr intf)
                         (PIPv4Address (cur g + N.of_nat k))
                         (PIPv4Address (subnet_netmask subnet)))) ∧
    (∀ n i, (n, i) ∉ take (N.to_nat (usable g)) (visited t) →
            iface t' n i = iface t n i).
Proof.
  intros Hok Hsub Hgen Hfew.
  assert (Hall : Forall (link_ok t (hosts t ++ routers t)) (sorted (links t))).
  { apply Forall_forall. intros uv Huv. apply links_ok_link_ok; [done|].
    by apply elem_of_sorted. }
  destruct (assignIPAddresses_run prefix subnet g t Hok Hsub Hgen) as [_ Hstop].
  specialize (Hstop Hfew).
  pose proof (assign_links_stop (subnet_netmask subnet) (hosts t ++ routers t)
                (sorted (links t)) t g Hall Hfew) as Hstate.
  fold (visited t) in Hstate. fold (usable g) in Hstate.
  assert (Hrun : assignIPAddresses prefix t
                 = (Raise StopIteration,
                    assign_all (subnet_netmask subnet)
                      (take (N.to_nat (usable g)) (visited t))
                      (cur g) t)).
  { rewrite <- Hstate. clear Hstate. revert Hstop. unfold assignIPAddresses.
    fold (subnet_of prefix). rewrite Hsub, Hgen.
    destruct (assign_links _ _ _ _) as [r [t' g']]. cbn [fst snd]. by intros ->. }
  eexists. split; [exact Hrun|]. split.
  - intros k n i Hk Hvis Hlast.
    assert (Hin : (n, i) ∈ visited t) by (by eapply list_elem_of_lookup_2).
    destruct (elem_of_visits t (hosts t ++ routers t) (sorted (links t)) n i Hall Hin)
      as [_ [intf Hi]].
    exists intf. split; [done|]. apply assign_all_last; [| |done].
    + by rewrite lookup_take_lt.
    + intros k' Hlt Hk'. destruct (decide (k' < N.to_nat (usable g))%nat).
      * rewrite lookup_take_lt in Hk' by done. by apply (Hlast k').
      * rewrite lookup_take_ge in Hk' by lia. done.
  - intros n i Hn. by apply assign_all_untouched.
Qed.

End Exhaustion.

(** X14, a witness: the three hosts of [example_star] and 192.168.1.0/30
    with its two host addresses: h0 and h1 have an address after the call
    that raised, h2 has not. *)
Lemma assignIPAddresses_exhausted_keeps_witness :
  ∃ t',
    assignIPAddresses (Some (3232235776, 30)) example_star = (Raise StopIteration, t') ∧
    iface t' "h1" "eth0"
    = Some (mkInterface "eth0" (PEthAddr "00:00:00:00:00:03")
              (PIPv4Address 3232235778) (PIPv4Address 4294967292)) ∧
    iface t' "h2" "eth0" = iface example_star "h2" "eth0".
Proof.
  destruct (assignIPAddresses_exhausted_keeps example_star (Some (3232235776, 30))
              (mkIPv4Network 3232235776 30) (mkGenerator 3232235777 3232235779))
    as (t' & Hrun & Hk & Hrest).
  - reflexivity.
  - reflexivity.
  - reflexivity.
  - vm_compute. reflexivity.
  - exists t'. split; [exact Hrun|]. split.
    + destruct (Hk 1%nat "h1" "eth0") as (intf & Hi & ->).
      * vm_compute. lia.
      * reflexivity.
      * intros k' [Hlo Hhi]. vm_compute in Hhi. lia.
      * by injection Hi as <-.
    + apply Hrest. vm_compute. intros H.
      repeat (apply elem_of_cons in H as [H|H]; [discriminate H|]). by apply elem_of_nil in H.
Defined.
(** ** Hosts, switches and routers *)

Section Kinds.
Context {F : Formatting}.

(** The node names with their types, in node order. *)
Definition kinds (t : Topology) : list (string * string) :=
  map (fun '(n, nd) => (n, type nd)) (node (nxgraph t)).

Definition of_kind (ty : string) (K : list (string * string)) : list string :=
  omap (fun '(n, ty') => if decide (ty' = ty) then Some n else None) K.

Lemma getnodes_kinds t ty : getnodes t ty = of_kind ty (kinds t).
Proof.
  unfold getnodes, of_kind, kinds.
  induction (node (nxgraph t)) as [|[n nd] l IH]; [done|].
  cbn [map omap list_omap]. rewrite <- IH. reflexivity.
Qed.

Lemma nodes_kinds t : nodes t = (kinds t).*1.
Proof.
  unfold nodes, Graph_nodes, keys, kinds.
  induction (node (nxgraph t)) as [|[n nd] l IH]; [done|].
  cbn [map fmap list_fmap fst]. f_equal. exact IH.
Qed.

Lemma of_kind_app ty K1 K2 : of_kind ty (K1 ++ K2) = of_kind ty K1 ++ of_kind ty K2.
Proof. unfold of_kind. apply omap_app. Qed.

(** The nodes and their types are the same in [t'] as in [t]. *)
Definition same_kinds (t t' : Topology) : Prop :=
  nodes t' = nodes t ∧
  ∀ n, type <$> dict_get (node (nxgraph t')) n = type <$> dict_get (node (nxgraph t)) n.

Lemma same_kinds_refl t : same_kinds t t.
Proof. by split. Qed.

Lemma same_kinds_trans t1 t2 t3 : same_kinds t1 t2 → same_kinds t2 t3 → same_kinds t1 t3.
Proof. intros [H1 H2] [H3 H4]. split; [congruence|]. intros n. by rewrite H4, H2. Qed.

Lemma same_kinds_node t t' : node (nxgraph t') = node (nxgraph t) → same_kinds t t'.
Proof. intros H. unfold same_kinds, nodes, Graph_nodes. by rewrite H. Qed.

Lemma same_shape_kinds t t' : same_shape t t' → same_kinds t t'.
Proof.
  intros (_ & Hn & Hp). split; [done|]. intros n. specialize (Hp n). unfold profile in Hp.
  destruct (dict_get (node (nxgraph t')) n), (dict_get (node (nxgraph t)) n); try done.
  injection Hp as Hty _ _. cbn. by rewrite Hty.
Qed.

Lemma with_interface_kinds t n mac : same_kinds t (with_interface t n mac).
Proof.
  split; [by destruct (with_interface_steady t n mac) as (_&_&_&_&_&?)|].
  intros n'. destruct (decide (n = n')) as [<-|Hne].
  - destruct (dict_get (node (nxgraph t)) n) as [a|] eqn:E.
    + by rewrite (node_with_interface_eq _ _ _ _ E).
    + unfold with_interface, on_nodeobj. rewrite E. simpl. by rewrite E.
  - by rewrite node_with_interface_ne.
Qed.

Lemma prepared_kinds t n1 n2 : same_kinds t (prepared t n1 n2).
Proof.
  unfold prepared.
  eapply same_kinds_trans; [|apply same_kinds_node, with_edge_node].
  eapply same_kinds_trans; [|apply with_interface_kinds].
  eapply same_kinds_trans; [|apply with_interface_kinds].
  apply same_kinds_node. by rewrite bump_nxgraph.
Qed.

Lemma addLink_body_kinds n1 n2 cap d t : same_kinds t (addLink_body n1 n2 cap d t).2.
Proof.
  destruct (has_node (nxgraph t) n1) eqn:H1.
  - destruct (has_node (nxgraph t) n2) eqn:H2.
    + rewrite (addLink_body_run n1 n2 cap d t H1 H2).
      destruct (unhumanize_capacity cap) as [c|err]; [|apply prepared_kinds].
      destruct (unhumanize_delay d) as [s|err]; [|apply prepared_kinds].
      cbv zeta. cbn [snd].
      eapply same_kinds_trans; [apply prepared_kinds|].
      apply same_kinds_node, labelled_node.
    + rewrite (addLink_body_no_node2 n1 n2 cap d t H1 H2). apply same_kinds_refl.
  - rewrite (addLink_body_no_node1 n1 n2 cap d t H1). apply same_kinds_refl.
Qed.

Lemma addLink_kinds n1 n2 cap d t : same_kinds t (addLink n1 n2 cap d t).2.
Proof.
  pose proof (addLink_body_kinds n1 n2 cap d t) as H. unfold addLink, bind.
  by destruct (addLink_body n1 n2 cap d t) as [[[i1 i2]|err] t1].
Qed.

Lemma kinds_lookup (d : dict NodeAttrs) :
  NoDup (keys d) →
  map (fun '(n, nd) => (n, type nd)) d
  = map (fun n => (n, from_option id "" (type <$> dict_get d n))) (keys d).
Proof.
  unfold keys. induction d as [|[n nd] d IH]; [done|].
  cbn [map fmap list_fmap fst]. intros Hnd. apply NoDup_cons in Hnd as [Hn Hnd].
  cbn [dict_get]. rewrite decide_True by done. cbn. f_equal.
  rewrite (IH Hnd). apply map_ext_in. intros n' Hin. apply list_elem_of_In in Hin.
  rewrite decide_False by (intros ->; done). done.
Qed.

Lemma same_kinds_eq t t' : NoDup (nodes t) → same_kinds t t' → kinds t' = kinds t.
Proof.
  intros Hnd [Hn Hty]. unfold kinds.
  rewrite !kinds_lookup; [|done | unfold nodes, Graph_nodes in *; by rewrite Hn].
  unfold nodes, Graph_nodes in Hn. rewrite Hn. apply map_ext. intros n. by rewrite Hty.
Qed.

(** *** A new node *)

Lemma addNode_kinds n c t :
  n ∉ nodes t → kinds (addNode n c t).2 = kinds t ++ [(n, class_name c)].
Proof.
  intros Hn. unfold addNode. rewrite decide_False by done. unfold kinds. cbn [snd nxgraph
    set_nxgraph node].
  unfold nodes, Graph_nodes, keys in Hn.
  induction (node (nxgraph t)) as [|[n' nd] l IH]; [done|].
  cbn [fmap list_fmap fst] in Hn. apply not_elem_of_cons in Hn as [Hne Hn].
  cbn [dict_set]. rewrite decide_False by congruence. cbn [map app]. f_equal. by apply IH.
Qed.

Lemma add_of_class_kinds c name t n t' :
  add_of_class c name t = (Return n, t') → kinds t' = kinds t ++ [(n, class_name c)].
Proof.
  assert (Hstep : ∀ m t0, (addNode m c ;;; ret m)%topo t0 = (Return n, t') →
                          m = n ∧ kinds t' = kinds t0 ++ [(m, class_name c)]).
  { intros m t0. unfold bind. destruct (decide (m ∈ nodes t0)) as [Hin|Hin].
    - by rewrite (addNode_raise m c t0 Hin).
    - pose proof (addNode_kinds m c t0 Hin) as Hk.
      destruct (addNode m c t0) as [[[]|err] t1]; [|done].
      unfold ret. intros [= <- <-]. done. }
  destruct name as [m|].
  - rewrite add_named. intros H. by destruct (Hstep _ _ H) as [-> ?].
  - destruct c; cbn [add_of_class]; unfold addHost, addSwitch, addRouter;
      (destruct (next_name _ _ _ _) as [[m k]|]; [|done]);
      intros H; by destruct (Hstep _ _ H) as [-> ?].
Qed.

Lemma add_of_class_raise c name t err t' :
  add_of_class c name t = (Raise err, t') → kinds t' = kinds t.
Proof.
  assert (Hstep : ∀ m t0, (addNode m c ;;; ret m)%topo t0 = (Raise err, t') → t' = t0).
  { intros m t0. unfold bind, addNode. destruct (decide (m ∈ nodes t0)); [|done].
    by intros [= _ <-]. }
  destruct name as [m|].
  - rewrite add_named. intros H. by rewrite (Hstep _ _ H).
  - destruct c; cbn [add_of_class]; unfold addHost, addSwitch, addRouter;
      (destruct (next_name _ _ _ _) as [[m k]|]; [|by intros [= _ <-]]);
      intros H; by rewrite (Hstep _ _ H).
Qed.

(** X15: [addHost], [addSwitch] and [addRouter] put the node at the end of
    their own list.  When the call returns the name [n], the list of
    [hosts] (or [switches], or [routers], by the method called) is the
    list from before followed by [n], and the lists of the two other
    types are as before. *)
Theorem add_extends_its_list (c : NodeClass) (name : option string) (t : Topology)
    (n : string) (t' : Topology) :
  add_of_class c name t = (Return n, t') →
  getnodes t' (class_name c) = getnodes t (class_name c) ++ [n] ∧
  ∀ c', c' ≠ c → getnodes t' (class_name c') = getnodes t (class_name c').
Proof.
  intros Hrun. rewrite !getnodes_kinds, (add_of_class_kinds _ _ _ _ _ Hrun), of_kind_app.
  split.
  - unfold of_kind at 2. cbn [omap list_omap]. by rewrite decide_True.
  - intros c' Hc. rewrite getnodes_kinds, (add_of_class_kinds _ _ _ _ _ Hrun), of_kind_app.
    unfold of_kind at 2. cbn [omap list_omap].
    rewrite decide_False. 2: { intros Heq. apply Hc. by destruct c, c'. }
    cbn. by rewrite app_nil_r, getnodes_kinds.
Qed.

(** *** Built topologies *)

Definition classes : list string := ["Host"; "Switch"; "Router"].

Lemma built_kinds t : built t → Forall (fun p => p.2 ∈ classes) (kinds t).
Proof.
  induction 1 as [name am | c name t Hb IH | n1 n2 cap d t Hb IH Hret
                 | n i mac ip mask t Hb IH | prefix t Hb IH].
  - constructor.
  - destruct (add_of_class c name t) as [[n|err] t'] eqn:E; cbn [snd].
    + rewrite (add_of_class_kinds _ _ _ _ _ E). apply Forall_app. split; [done|].
      constructor; [|done]. cbn [snd]. unfold classes. destruct c; set_solver.
    + by rewrite (add_of_class_raise _ _ _ _ _ E).
  - rewrite (same_kinds_eq t); [done | |apply addLink_kinds].
    apply (wf_nodes _ (proj1 (built_topo_wf t Hb))).
  - rewrite (same_kinds_eq t); [done | |].
    + apply (wf_nodes _ (proj1 (built_topo_wf t Hb))).
    + eapply same_shape_kinds, setInterfaceAddresses_same_shape, surjective_pairing.
  - rewrite (same_kinds_eq t); [done | |].
    + apply (wf_nodes _ (proj1 (built_topo_wf t Hb))).
    + eapply same_shape_kinds, assignIPAddresses_same_shape, surjective_pairing.
Qed.

Lemma of_kind_partition (K : list (string * string)) :
  Forall (fun p => p.2 ∈ classes) K →
  K.*1 ≡ₚ of_kind "Host" K ++ of_kind "Switch" K ++ of_kind "Router" K.
Proof.
  induction 1 as [|[n ty] K Hty HK IH]; [done|].
  cbn [fmap list_fmap fst]. unfold of_kind in *. cbn [omap list_omap].
  cbn [snd] in Hty. unfold classes in Hty. rewrite !elem_of_cons in Hty.
  destruct Hty as [->|[->|[->|Hnil]]]; [| | |by apply elem_of_nil in Hnil].
  - rewrite decide_True by done. rewrite !decide_False by done. cbn. by rewrite IH.
  - rewrite (decide_False (P := "Switch" = "Host")) by done.
    rewrite decide_True by done. rewrite decide_False by done.
    rewrite IH. apply Permutation_middle.
  - rewrite !decide_False by done. rewrite decide_True by done.
    rewrite IH, !app_assoc. apply Permutation_middle.
Qed.

(** X16: in a built topology the lists [hosts], [switches] and [routers]
    divide the nodes: together they hold every node name exactly once.
    The lists stay as they are under [addLink] (returning or raising),
    [setInterfaceAddresses] and [assignIPAddresses]. *)
Theorem node_lists_divide_nodes (t : Topology) :
  built t →
  nodes t ≡ₚ hosts t ++ switches t ++ routers t ∧
  NoDup (hosts t ++ switches t ++ routers t) ∧
  ∀ ty,
    (∀ n1 n2 cap d, getnodes (addLink n1 n2 cap d t).2 ty = getnodes t ty) ∧
    (∀ n i mac ip mask,
       getnodes (setInterfaceAddresses n i mac ip mask t).2 ty = getnodes t ty) ∧
    (∀ prefix, getnodes (assignIPAddresses prefix t).2 ty = getnodes t ty).
Proof.
  intros Hb.
  pose proof (wf_nodes _ (proj1 (built_topo_wf t Hb))) as Hnd. fold (nodes t) in Hnd.
  assert (Hperm : nodes t ≡ₚ hosts t ++ switches t ++ routers t).
  { unfold hosts, switches, routers. rewrite !getnodes_kinds, nodes_kinds.
    apply of_kind_partition, built_kinds, Hb. }
  split; [done|]. split; [by rewrite <- Hperm|].
  intros ty. rewrite !getnodes_kinds. split; [|split].
  - intros n1 n2 cap d. by rewrite getnodes_kinds, (same_kinds_eq t _ Hnd (addLink_kinds _ _ _ _ t)).
  - intros n i mac ip mask. rewrite getnodes_kinds, (same_kinds_eq t); [done | done |].
    eapply same_shape_kinds, setInterfaceAddresses_same_shape, surjective_pairing.
  - intros prefix. rewrite getnodes_kinds, (same_kinds_eq t); [done | done |].
    eapply same_shape_kinds, assignIPAddresses_same_shape, surjective_pairing.
Qed.

End Kinds.

(** X15, a witness: a router added to the example scenario. *)
Lemma add_extends_its_list_witness :
  ∃ t', addRouter None example_topo = (Return "r0", t') ∧
        routers t' = ["r0"] ∧ hosts t' = ["h0"; "h1"] ∧ switches t' = ["s0"].
Proof.
  destruct (addRouter None example_topo) as [r t'] eqn:E.
  assert (Hr : r = Return "r0") by (by apply (f_equal fst) in E; vm_compute in E).
  subst r. exists t'. split; [done|].
  destruct (add_extends_its_list Router None example_topo "r0" t' E) as [Hown Hother].
  split; [exact Hown|]. split.
  - exact (Hother Host ltac:(done)).
  - exact (Hother Switch ltac:(done)).
Defined.

(** X16, a witness: the example scenario. *)
Lemma node_lists_divide_nodes_witness :
  nodes example_topo ≡ₚ hosts example_topo ++ switches example_topo ++ routers example_topo.
Proof.
  exact (proj1 (node_lists_divide_nodes (F := example_formatting) example_topo
                  example_topo_built)).
Defined.

(** ** Relabelling *)

Section Relabel.

(** The graph of lines 383-388: nodes and edge ends renamed, labels set. *)
Definition relabelled (G : Graph) (prefix : string) : Graph :=
  let G1 := relabel_nodes G (renamer prefix) in
  {| graph_name := graph_name G1;
     node := map (fun '(n, ndict) =>
                    (n, {| label := n; nodeobj := nodeobj ndict; type := type ndict |}))
                 (node G1);
     edge := edge G1 |}.

Lemma relabel_graph_eq G prefix :
  relabel_graph G prefix
  = relabel_edges (String.length prefix) (Graph_edges (relabelled G prefix)) (relabelled G prefix).
Proof. reflexivity. Qed.

(** [Topology.__relabel_graph] with [prefix=None], the default.  The
    renamer formats [None] as the text None; in the loop over the edges,
    [len(prefix)] raises on the first edge. *)
Definition relabel_graph_none (nxgraph : Graph) : outcome Graph :=
  match Graph_edges (relabelled nxgraph "None") with
  | [] => Return (relabelled nxgraph "None")
  | _ :: _ => Raise TypeError
  end.

(** [Topology.addNodeLabelPrefix] with [copy=False], the default: the
    graph is replaced when the relabelling returns. *)
Definition addNodeLabelPrefix (prefix : option string) : M Topology unit :=
  fun self =>
    match (match prefix with
           | Some p => relabel_graph (nxgraph self) p
           | None => relabel_graph_none (nxgraph self)
           end) with
    | Return G => (Return tt, set_nxgraph self G)
    | Raise e => (Raise e, self)
    end.

(** *** The renamed graph *)

Lemma renamer_inj prefix : Inj (=) (=) (renamer prefix).
Proof.
  intros a b H. unfold renamer in H. apply append_inj_r in H.
  by apply (append_inj_r "_") in H.
Qed.

Lemma lookup_edge_elem E u v d :
  NoDup (key <$> E) → (u, v, d) ∈ E → lookup_edge E u v = Some d.
Proof.
  intros Hnd Hin.
  destruct (lookup_edge_is_Some E u v u v d Hin) as [d' Hd']; [tauto|].
  rewrite Hd'. apply lookup_edge_Some in Hd' as (a & b & Hin' & Hj).
  assert (Heq : (a, b, d') = (u, v, d)).
  { apply (NoDup_key_eq E); [done | done | done |]. unfold key. cbn [fst].
    apply unordered_eq. tauto. }
  by injection Heq as _ _ ->.
Qed.

(** The node table *)

Lemma dict_get_renamed prefix (l : dict NodeAttrs) n :
  dict_get (map (fun '(n, ndict) => (renamer prefix n, ndict)) l) (renamer prefix n)
  = dict_get l n.
Proof.
  induction l as [|[n' nd] l IH]; [done|]. cbn [map dict_get].
  destruct (decide (n' = n)) as [->|Hne]; [by rewrite decide_True|].
  rewrite decide_False; [exact IH|]. intros H. by apply renamer_inj in H.
Qed.

Lemma dict_get_renamed_Some prefix (l : dict NodeAttrs) m nd :
  dict_get (map (fun '(n, ndict) => (renamer prefix n, ndict)) l) m = Some nd →
  ∃ n, m = renamer prefix n ∧ dict_get l n = Some nd.
Proof.
  induction l as [|[n' nd'] l IH]; [done|]. cbn [map dict_get].
  destruct (decide (renamer prefix n' = m)) as [<-|Hne].
  - intros [= <-]. exists n'. by rewrite decide_True.
  - intros H. destruct (IH H) as (n & -> & Hg). exists n. split; [done|].
    rewrite decide_False; [done|]. by intros ->.
Qed.

Lemma dict_get_labelled (l : dict NodeAttrs) m :
  dict_get (map (fun '(n, ndict) =>
                   (n, {| label := n; nodeobj := nodeobj ndict; type := type ndict |})) l) m
  = (fun nd => {| label := m; nodeobj := nodeobj nd; type := type nd |}) <$> dict_get l m.
Proof.
  induction l as [|[n' nd] l IH]; [done|]. cbn [map dict_get].
  destruct (decide (n' = m)) as [->|Hne]; [done | exact IH].
Qed.

Lemma dict_get_relabelled G prefix n :
  dict_get (node (relabelled G prefix)) (renamer prefix n)
  = (fun nd => {| label := renamer prefix n; nodeobj := nodeobj nd; type := type nd |})
      <$> dict_get (node G) n.
Proof.
  unfold relabelled. cbn [node]. rewrite dict_get_labelled. cbn [relabel_nodes node].
  rewrite dict_get_table, dict_get_renamed.
  destruct (decide (renamer prefix n ∈ _)) as [Hin|Hout]; [done|].
  destruct (dict_get (node G) n) as [nd|] eqn:E; [|done].
  exfalso. apply Hout. apply elem_of_add_names. right. rewrite map_fmap.
  apply list_elem_of_fmap_2. apply dict_get_is_Some. by eauto.
Qed.

Lemma dict_get_relabelled_Some G prefix m nd' :
  dict_get (node (relabelled G prefix)) m = Some nd' →
  ∃ n nd, m = renamer prefix n ∧ dict_get (node G) n = Some nd ∧ nodeobj nd' = nodeobj nd.
Proof.
  unfold relabelled. cbn [node]. rewrite dict_get_labelled. cbn [relabel_nodes node].
  rewrite dict_get_table. destruct (decide (m ∈ _)) as [Hin|Hout]; [|done].
  destruct (dict_get _ m) as [nd|] eqn:E; [|done]. intros [= <-].
  apply dict_get_renamed_Some in E as (n & -> & Hn). by exists n, nd.
Qed.

Lemma Graph_nodes_relabel_nodes G prefix :
  Graph_nodes (relabelled G prefix) = Graph_nodes (relabel_nodes G (renamer prefix)).
Proof. unfold Graph_nodes, relabelled. cbn [node]. apply keys_labelled. Qed.

Lemma elem_of_nodes_relabelled G prefix m :
  m ∈ Graph_nodes (relabelled G prefix) ↔ m ∈ renamer prefix <$> Graph_nodes G.
Proof. rewrite Graph_nodes_relabel_nodes. apply elem_of_relabel_nodes. Qed.

Lemma NoDup_nodes_relabelled G prefix : NoDup (Graph_nodes (relabelled G prefix)).
Proof. rewrite Graph_nodes_relabel_nodes. apply NoDup_relabel_nodes. Qed.

Lemma NoDup_renamed prefix (ns : list string) : NoDup ns → NoDup (renamer prefix <$> ns).
Proof.
  intros Hnd. apply NoDup_fmap_2_strong; [|done]. intros x y _ _ H. by apply renamer_inj in H.
Qed.

(** The nodes of the renamed graph are the renamed nodes, in the order in
    which the edges name them. *)
Lemma Graph_nodes_relabelled G prefix :
  NoDup (Graph_nodes G) →
  Graph_nodes (relabelled G prefix) ≡ₚ renamer prefix <$> Graph_nodes G.
Proof.
  intros Hnd. apply NoDup_Permutation.
  - apply NoDup_nodes_relabelled.
  - by apply NoDup_renamed.
  - intros m. apply elem_of_nodes_relabelled.
Qed.

(** Without edges the nodes keep their order. *)
Lemma Graph_nodes_relabelled_no_edges G prefix :
  NoDup (Graph_nodes G) → Graph_edges G = [] →
  Graph_nodes (relabelled G prefix) = renamer prefix <$> Graph_nodes G.
Proof.
  intros Hnd Hno. rewrite Graph_nodes_relabel_nodes.
  unfold Graph_nodes at 1. cbn [relabel_nodes node]. rewrite Hno. cbn [map concat].
  change (add_names [] []) with (@nil string).
  rewrite (map_fmap (renamer prefix) (Graph_nodes G)).
  rewrite add_names_fresh; [|by apply NoDup_renamed | intros n _; apply not_elem_of_nil].
  cbn [app]. unfold Graph_nodes in *.
  rewrite <- (keys_renamed (renamer prefix) (node G)).
  rewrite table_own_keys; [done | | done].
  rewrite keys_renamed. by apply NoDup_renamed.
Qed.

(** The edges *)

Lemma unordered_idemp p : unordered (unordered p) = unordered p.
Proof.
  destruct p as [a b]. unfold unordered. cbn [fst snd].
  destruct (String.leb a b) eqn:E; cbn [fst snd]; [by rewrite E|].
  destruct (String.leb b a) eqn:E'; [done|].
  destruct (String.leb_total a b); congruence.
Qed.

(** The key of a renamed pair. *)
Definition renamed_key (prefix : string) (k : string * string) : string * string :=
  unordered (renamer prefix k.1, renamer prefix k.2).

Lemma renamed_key_unordered prefix p q :
  renamed_key prefix (unordered (p, q)) = unordered (renamer prefix p, renamer prefix q).
Proof.
  unfold renamed_key.
  assert (H : unordered (p, q) = (p, q) ∨ unordered (p, q) = (q, p)).
  { unfold unordered. cbn [fst snd]. destruct (String.leb p q); tauto. }
  destruct H as [-> | ->]; cbn [fst snd]; [done | apply unordered_swap].
Qed.

Lemma key_renamed prefix (E : list (string * string * dict attr)) :
  key <$> map (fun '(u, v, d) => (renamer prefix u, renamer prefix v, d)) E
  = renamed_key prefix <$> (key <$> E).
Proof.
  induction E as [|[[a b] d] E IH]; [done|].
  cbn [map fmap list_fmap]. f_equal; [|exact IH].
  unfold key. cbn [fst]. by rewrite renamed_key_unordered.
Qed.

Lemma NoDup_key_renamed prefix (E : list (string * string * dict attr)) :
  NoDup (key <$> E) →
  NoDup (key <$> map (fun '(u, v, d) => (renamer prefix u, renamer prefix v, d)) E).
Proof.
  intros Hnd. rewrite key_renamed. apply NoDup_fmap_2_strong; [|done].
  intros x y Hx Hy Hg.
  apply list_elem_of_fmap in Hx as ([[a b] d] & -> & _).
  apply list_elem_of_fmap in Hy as ([[a' b'] d'] & -> & _).
  unfold key in *. cbn [fst] in *.
  rewrite !renamed_key_unordered in Hg. apply unordered_eq in Hg. apply unordered_eq.
  destruct Hg as [[H1 H2]|[H1 H2]]; apply renamer_inj in H1, H2; tauto.
Qed.

(** The edges of the renamed graph are those that [G.edges()] reports,
    with both ends renamed. *)
Lemma edge_relabelled G prefix :
  graph_wf G →
  edge (relabelled G prefix)
  = map (fun '(u, v, d) => (renamer prefix u, renamer prefix v, d)) (Graph_edges G).
Proof.
  intros Hwf. unfold relabelled. cbn [edge relabel_nodes]. unfold add_edges_from.
  rewrite foldl_add_edge_data; [done|]. cbn [app]. apply NoDup_key_renamed.
  rewrite (key_Graph_edges G Hwf). apply (wf_simple G Hwf).
Qed.

Lemma elem_of_edge_relabelled G prefix u v d :
  graph_wf G →
  (u, v, d) ∈ edge (relabelled G prefix) ↔
  ∃ a b, u = renamer prefix a ∧ v = renamer prefix b ∧ (a, b, d) ∈ Graph_edges G.
Proof.
  intros Hwf. rewrite edge_relabelled by done. split.
  - intros H. apply list_elem_of_In, in_map_iff in H as ([[a b] d'] & [= <- <- <-] & Hin).
    exists a, b. split; [done|]. split; [done|]. by apply list_elem_of_In.
  - intros (a & b & -> & -> & Hin). apply list_elem_of_In, in_map_iff.
    exists (a, b, d). split; [done|]. by apply list_elem_of_In.
Qed.

(** An edge of the renamed graph comes from an edge of [G], and every
    edge of [G] is there under the new names, from one of its ends. *)
Lemma edge_relabelled_from G prefix u v d :
  graph_wf G → (u, v, d) ∈ edge (relabelled G prefix) →
  ∃ a b, u = renamer prefix a ∧ v = renamer prefix b ∧
         ((a, b, d) ∈ edge G ∨ (b, a, d) ∈ edge G).
Proof.
  intros Hwf Hin. apply elem_of_edge_relabelled in Hin as (a & b & -> & -> & Hin); [|done].
  apply elem_of_Graph_edges in Hin as [_ Hin]. by exists a, b.
Qed.

Lemma edge_relabelled_of G prefix a b d :
  graph_wf G → (a, b, d) ∈ edge G →
  (renamer prefix a, renamer prefix b, d) ∈ edge (relabelled G prefix) ∨
  (renamer prefix b, renamer prefix a, d) ∈ edge (relabelled G prefix).
Proof.
  intros Hwf Hin.
  pose proof (lookup_edge_elem _ _ _ _ (wf_simple G Hwf) Hin) as Hl.
  rewrite <- (lookup_edge_Graph_edges G a b Hwf) in Hl.
  apply lookup_edge_Some in Hl as (a' & b' & Hin' & [[-> ->]|[-> ->]]).
  - left. apply elem_of_edge_relabelled; [done|]. by exists a, b.
  - right. apply elem_of_edge_relabelled; [done|]. by exists b, a.
Qed.

Lemma relabelled_wf G prefix : graph_wf G → graph_wf (relabelled G prefix).
Proof.
  intros Hwf. constructor.
  - apply NoDup_nodes_relabelled.
  - intros u v d Hin. apply edge_relabelled_from in Hin as (a & b & -> & -> & Hin); [|done].
    rewrite !elem_of_nodes_relabelled.
    assert (Hab : a ∈ Graph_nodes G ∧ b ∈ Graph_nodes G).
    { destruct Hin as [Hin|Hin]; destruct (wf_ends G Hwf _ _ _ Hin); by split. }
    destruct Hab. split; by apply list_elem_of_fmap_2.
  - rewrite edge_relabelled by done. apply NoDup_key_renamed.
    rewrite (key_Graph_edges G Hwf). apply (wf_simple G Hwf).
Qed.

Lemma length_edges_relabelled G prefix :
  graph_wf G → length (Graph_edges (relabelled G prefix)) = length (edge G).
Proof.
  intros Hwf. rewrite (length_Graph_edges _ (relabelled_wf G prefix Hwf)).
  rewrite edge_relabelled by done. rewrite length_map. by apply length_Graph_edges.
Qed.

(** X17: [addNodeLabelPrefix] without a prefix does not take the name of
    the graph as the prefix, as its docstring has it.  On a well-formed
    topology with at least one link the call raises [TypeError]
    ([len(None)] on line 392) and the topology stays as it was; on a
    topology without links it returns and every node name has the text
    None and an underscore before it. *)
Theorem addNodeLabelPrefix_default (t : Topology) :
  graph_wf (nxgraph t) →
  (links t ≠ [] → addNodeLabelPrefix None t = (Raise TypeError, t)) ∧
  (links t = [] →
   ∃ t', addNodeLabelPrefix None t = (Return tt, t') ∧
         nodes t' = renamer "None" <$> nodes t).
Proof.
  intros Hwf. unfold addNodeLabelPrefix, relabel_graph_none.
  pose proof (length_edges_relabelled (nxgraph t) "None" Hwf) as Hlen.
  pose proof (length_links t Hwf) as Hlinks.
  destruct (Graph_edges (relabelled (nxgraph t) "None")) as [|e es]; split.
  - intros Hne. exfalso. apply Hne. apply length_zero_iff_nil. simpl in Hlen. lia.
  - intros Hnil. eexists. split; [done|].
    apply Graph_nodes_relabelled_no_edges; [apply (wf_nodes _ Hwf)|].
    unfold links in Hnil. by apply map_eq_nil in Hnil.
  - done.
  - intros Hnil. rewrite Hnil in Hlinks. simpl in Hlinks, Hlen. lia.
Qed.

(** *** The loop over the edges *)

Lemma string_drop_renamer prefix n :
  string_drop (String.length prefix + 1) (renamer prefix n) = n.
Proof.
  unfold renamer. induction prefix as [|c p IH]; [reflexivity|].
  cbn [String.length Nat.add]. rewrite append_cons. cbn [string_drop]. exact IH.
Qed.

Lemma dict_get_del_ne {V} (d : dict V) k k' :
  k ≠ k' → dict_get (dict_del d k) k' = dict_get d k'.
Proof.
  intros Hne. induction d as [|[k0 v0] d IH]; [done|]. cbn [dict_del].
  destruct (decide (k0 = k)) as [->|H0]; cbn [dict_get].
  - by rewrite decide_False.
  - destruct (decide (k0 = k')); [done | exact IH].
Qed.

(** [d[new] = d[old]; del d[old]] on one dictionary *)
Definition rekey_dict (new old : string) (d : dict attr) : option (dict attr) :=
  match dict_get d old with
  | Some x => Some (dict_del (dict_set d new x) old)
  | None => None
  end.

(** Lines 392-395 on the dictionary of the edge between the nodes that
    were [a] and [b]. *)
Definition rekeyed (prefix a b : string) (d : dict attr) : option (dict attr) :=
  match rekey_dict (renamer prefix a) a d with
  | Some d1 => rekey_dict (renamer prefix b) b d1
  | None => None
  end.

Lemma edge_apply_value E u v g d :
  lookup_edge E u v = Some d → edge_apply E u v g = edge_apply E u v (fun _ => g d).
Proof.
  induction E as [|e E IH]; cbn [lookup_edge edge_apply]; [done|].
  destruct (joins u v e); [by intros [= ->]|]. intros H. by rewrite (IH H).
Qed.

Lemma lookup_edge_apply_other E u v g x y :
  unordered (x, y) ≠ unordered (u, v) →
  lookup_edge (edge_apply E u v g) x y = lookup_edge E x y.
Proof.
  intros Hne. induction E as [|[[a b] d] E IH]; cbn [edge_apply lookup_edge]; [done|].
  destruct (joins u v (a, b, d)) eqn:Ej; cbn [lookup_edge fst snd].
  - change (joins x y (a, b, g d)) with (joins x y (a, b, d)).
    destruct (joins x y (a, b, d)) eqn:Ex; [|done].
    apply joins_key in Ej, Ex. congruence.
  - destruct (joins x y (a, b, d)); [done | exact IH].
Qed.

Lemma rekey_run G u v new old d d' :
  lookup_edge (edge G) u v = Some d → rekey_dict new old d = Some d' →
  rekey G u v new old
  = Return {| graph_name := graph_name G; node := node G;
              edge := edge_apply (edge G) u v (fun _ => d') |}.
Proof.
  intros Hl Hr. unfold rekey, find_edge, rekey_dict in *. rewrite Hl.
  destruct (dict_get d old) as [x|]; [|done]. injection Hr as <-.
  f_equal. f_equal. by apply (edge_apply_value _ _ _ (fun d0 => dict_del (dict_set d0 new x) old)).
Qed.

Lemma rekey_twice G prefix a b d d' :
  lookup_edge (edge G) (renamer prefix a) (renamer prefix b) = Some d →
  rekeyed prefix a b d = Some d' →
  obind (rekey G (renamer prefix a) (renamer prefix b) (renamer prefix a) a)
        (fun G1 => rekey G1 (renamer prefix a) (renamer prefix b) (renamer prefix b) b)
  = Return {| graph_name := graph_name G; node := node G;
              edge := edge_apply (edge G) (renamer prefix a) (renamer prefix b) (fun _ => d') |}.
Proof.
  intros Hl Hr. unfold rekeyed in Hr.
  destruct (rekey_dict (renamer prefix a) a d) as [d1|] eqn:E1; [|done].
  rewrite (rekey_run G _ _ _ _ d d1 Hl E1). cbn [obind].
  rewrite (rekey_run _ _ _ _ _ d1 d'); cbn [edge graph_name node].
  - by rewrite edge_apply_twice.
  - rewrite lookup_edge_apply_same. by rewrite Hl.
  - done.
Qed.

Lemma relabel_edges_run prefix es G :
  NoDup (key <$> es) →
  (∀ u v d0, (u, v, d0) ∈ es →
     ∃ a b d, u = renamer prefix a ∧ v = renamer prefix b ∧
              lookup_edge (edge G) u v = Some d ∧ is_Some (rekeyed prefix a b d)) →
  ∃ G',
    relabel_edges (String.length prefix) es G = Return G' ∧
    node G' = node G ∧ graph_name G' = graph_name G ∧
    (edge G').*1 = (edge G).*1 ∧
    (∀ x y, unordered (x, y) ∉ key <$> es →
            lookup_edge (edge G') x y = lookup_edge (edge G) x y) ∧
    (∀ a b d0 d, (renamer prefix a, renamer prefix b, d0) ∈ es →
       lookup_edge (edge G) (renamer prefix a) (renamer prefix b) = Some d →
       ∃ d', rekeyed prefix a b d = Some d' ∧
             lookup_edge (edge G') (renamer prefix a) (renamer prefix b) = Some d').
Proof.
  revert G. induction es as [|[[u v] d0] es IH]; intros G Hnd Hready.
  - exists G. split; [done|]. split; [done|]. split; [done|]. split; [done|].
    split; [done|]. intros a b d0 d Hin. by apply elem_of_nil in Hin.
  - rewrite fmap_cons in Hnd. apply NoDup_cons in Hnd as [Hhead Hnd].
    destruct (Hready u v d0) as (a & b & d & -> & -> & Hl & [d' Hr]); [apply list_elem_of_here|].
    pose proof (rekey_twice G prefix a b d d' Hl Hr) as Hstep.
    set (G2 := {| graph_name := graph_name G; node := node G;
                  edge := edge_apply (edge G) (renamer prefix a) (renamer prefix b)
                            (fun _ => d') |}) in *.
    assert (Hother : ∀ x y, unordered (x, y) ≠ unordered (renamer prefix a, renamer prefix b) →
              lookup_edge (edge G2) x y = lookup_edge (edge G) x y).
    { intros x y Hne. by apply lookup_edge_apply_other. }
    destruct (IH G2 Hnd) as (G' & Hrun & Hnode & Hname & Hends & Hkeep & Hnew).
    { intros u2 v2 d2 Hin.
      destruct (Hready u2 v2 d2) as (a2 & b2 & dd & -> & -> & Hl2 & Hr2);
        [by apply list_elem_of_further|].
      exists a2, b2, dd. split; [done|]. split; [done|]. split; [|done].
      rewrite Hother; [done|]. intros Heq. apply Hhead. unfold key at 1. cbn [fst].
      rewrite <- Heq. apply list_elem_of_fmap. by exists (renamer prefix a2, renamer prefix b2, d2). }
    exists G'. split.
    { cbn [relabel_edges]. rewrite !string_drop_renamer.
      destruct (rekey G (renamer prefix a) (renamer prefix b) (renamer prefix a) a) as [G1|err]
        eqn:E1; [|done].
      cbn [obind] in Hstep |- *. rewrite Hstep. cbn [obind]. exact Hrun. }
    split; [by rewrite Hnode|]. split; [by rewrite Hname|].
    split; [rewrite Hends; apply edge_apply_endpoints|]. split.
    + intros x y Hxy. rewrite fmap_cons, not_elem_of_cons in Hxy. destruct Hxy as [Hne Hxy].
      rewrite (Hkeep x y Hxy). by apply Hother.
    + intros a2 b2 d2 dd Hin Hl2. apply elem_of_cons in Hin as [Heq|Hin].
      * injection Heq as Ha Hb _. apply renamer_inj in Ha, Hb. subst a2 b2.
        rewrite Hl in Hl2. injection Hl2 as <-. exists d'. split; [done|].
        rewrite Hkeep by done. unfold G2. cbn [edge].
        rewrite lookup_edge_apply_same. by rewrite Hl.
      * apply (Hnew a2 b2 d2 dd Hin). rewrite Hother; [done|].
        intros Heq. apply Hhead. unfold key at 1. cbn [fst]. rewrite <- Heq.
        apply list_elem_of_fmap. by exists (renamer prefix a2, renamer prefix b2, d2).
Qed.

(** *** One dictionary *)

Lemma rekeyed_spec prefix a b d x y :
  a ≠ b → a ≠ renamer prefix a → a ≠ renamer prefix b →
  b ≠ renamer prefix a → b ≠ renamer prefix b →
  dict_get d a = Some x → dict_get d b = Some y →
  ∃ d', rekeyed prefix a b d = Some d' ∧
        dict_get d' (renamer prefix a) = Some x ∧ dict_get d' (renamer prefix b) = Some y ∧
        ∀ k, k ∉ [a; b; renamer prefix a; renamer prefix b] → dict_get d' k = dict_get d k.
Proof.
  intros Hab Haa Hab' Hba Hbb Hx Hy. unfold rekeyed, rekey_dict. rewrite Hx.
  assert (H1 : dict_get (dict_del (dict_set d (renamer prefix a) x) a) b = Some y).
  { rewrite dict_get_del_ne by done. rewrite dict_get_set_ne by done. done. }
  rewrite H1. eexists. split; [done|].
  assert (Hne : renamer prefix a ≠ renamer prefix b).
  { intros H. by apply renamer_inj in H. }
  split; [|split].
  - rewrite dict_get_del_ne by done. rewrite dict_get_set_ne by done.
    rewrite dict_get_del_ne by done. apply dict_get_set_eq.
  - rewrite dict_get_del_ne by done. apply dict_get_set_eq.
  - intros k Hk. rewrite !not_elem_of_cons in Hk. destruct Hk as (? & ? & ? & ? & _).
    rewrite dict_get_del_ne by done. rewrite dict_get_set_ne by done.
    rewrite dict_get_del_ne by done. by rewrite dict_get_set_ne.
Qed.

(** *** The whole graph *)

(** What [__relabel_graph] needs of a graph: no link from a node to
    itself, every link with an entry under the name of each end, and no
    node whose name is the new name of a node. *)
Record relabel_ready (G : Graph) (prefix : string) : Prop := mk_relabel_ready {
  ready_ends : ∀ a b d, (a, b, d) ∈ edge G →
                 a ≠ b ∧ is_Some (dict_get d a) ∧ is_Some (dict_get d b);
  ready_names : ∀ n m, n ∈ Graph_nodes G → m ∈ Graph_nodes G → m ≠ renamer prefix n
}.

Lemma relabel_graph_run G prefix :
  graph_wf G → relabel_ready G prefix →
  ∃ G',
    relabel_graph G prefix = Return G' ∧
    node G' = node (relabelled G prefix) ∧ graph_name G' = graph_name G ∧
    (edge G').*1 = (edge (relabelled G prefix)).*1 ∧
    ∀ a b d, (a, b, d) ∈ edge G →
      ∃ d', lookup_edge (edge G') (renamer prefix a) (renamer prefix b) = Some d' ∧
            dict_get d' (renamer prefix a) = dict_get d a ∧
            dict_get d' (renamer prefix b) = dict_get d b ∧
            ∀ k, k ∉ [a; b; renamer prefix a; renamer prefix b] → dict_get d' k = dict_get d k.
Proof.
  intros Hwf [Hends Hnames]. rewrite relabel_graph_eq.
  pose proof (relabelled_wf G prefix Hwf) as Hwf2.
  set (G2 := relabelled G prefix) in *.
  assert (Hnd : NoDup (key <$> Graph_edges G2)).
  { rewrite (key_Graph_edges G2 Hwf2). apply (wf_simple _ Hwf2). }
  (* an edge of the renamed graph, in either direction *)
  assert (Hspec : ∀ a b d, (a, b, d) ∈ edge G →
            lookup_edge (edge G2) (renamer prefix a) (renamer prefix b) = Some d ∧
            lookup_edge (edge G2) (renamer prefix b) (renamer prefix a) = Some d ∧
            (∃ d', rekeyed prefix a b d = Some d' ∧
               dict_get d' (renamer prefix a) = dict_get d a ∧
               dict_get d' (renamer prefix b) = dict_get d b ∧
               ∀ k, k ∉ [a; b; renamer prefix a; renamer prefix b] →
                    dict_get d' k = dict_get d k) ∧
            (∃ d', rekeyed prefix b a d = Some d' ∧
               dict_get d' (renamer prefix a) = dict_get d a ∧
               dict_get d' (renamer prefix b) = dict_get d b ∧
               ∀ k, k ∉ [a; b; renamer prefix a; renamer prefix b] →
                    dict_get d' k = dict_get d k)).
  { intros a b d Hin.
    assert (Hl : lookup_edge (edge G2) (renamer prefix a) (renamer prefix b) = Some d).
    { destruct (edge_relabelled_of G prefix a b d Hwf Hin) as [H|H].
      - by apply lookup_edge_elem; [apply (wf_simple _ Hwf2)|].
      - rewrite lookup_edge_sym. by apply lookup_edge_elem; [apply (wf_simple _ Hwf2)|]. }
    split; [done|]. split; [by rewrite lookup_edge_sym|].
    destruct (Hends a b d Hin) as (Hab & [x Hx] & [y Hy]).
    destruct (wf_ends G Hwf a b d Hin) as [Ha Hb].
    split.
    - destruct (rekeyed_spec prefix a b d x y) as (d' & Hr & H1 & H2 & H3); auto.
      exists d'. by rewrite Hx, Hy.
    - destruct (rekeyed_spec prefix b a d y x) as (d' & Hr & H1 & H2 & H3); auto.
      exists d'. rewrite Hx, Hy. split; [done|]. split; [done|]. split; [done|].
      intros k Hk. apply H3. rewrite !not_elem_of_cons in Hk |- *. tauto. }
  destruct (relabel_edges_run prefix (Graph_edges G2) G2 Hnd)
    as (G' & Hrun & Hnode & Hname & Hendp & Hkeep & Hnew).
  { intros u v d0 Hin. apply elem_of_Graph_edges in Hin as [_ Hin].
    assert (Hfrom : ∃ a b, ((u = renamer prefix a ∧ v = renamer prefix b) ∨
                            (u = renamer prefix b ∧ v = renamer prefix a)) ∧
                           (a, b, d0) ∈ edge G).
    { destruct Hin as [Hin|Hin];
        apply edge_relabelled_from in Hin as (a & b & -> & -> & [Hin|Hin]); try done;
        [exists a, b | exists b, a | exists a, b | exists b, a]; tauto. }
    destruct Hfrom as (a & b & [[-> ->]|[-> ->]] & Hin');
      destruct (Hspec a b d0 Hin') as (H1 & H2 & (d1 & Hr1 & _) & (d2 & Hr2 & _)).
    - exists a, b, d0. by eauto.
    - exists b, a, d0. by eauto. }
  exists G'. split; [done|]. split; [done|]. split; [done|]. split; [done|].
  intros a b d Hin. destruct (Hspec a b d Hin) as (H1 & H2 & (d1 & Hr1 & Hd1) & (d2 & Hr2 & Hd2)).
  assert (Hk : unordered (renamer prefix a, renamer prefix b) ∈ key <$> Graph_edges G2).
  { rewrite (key_Graph_edges G2 Hwf2). apply list_elem_of_fmap.
    destruct (edge_relabelled_of G prefix a b d Hwf Hin) as [H|H].
    - by exists (renamer prefix a, renamer prefix b, d).
    - exists (renamer prefix b, renamer prefix a, d). split; [|exact H].
      unfold key. cbn [fst]. symmetry. apply unordered_swap. }
  apply list_elem_of_fmap in Hk as ([[u v] d0] & Hkey & Hin0).
  unfold key in Hkey. cbn [fst] in Hkey. apply unordered_eq in Hkey as [[<- <-]|[<- <-]].
  - destruct (Hnew a b d0 d Hin0 H1) as (d' & Hr & Hl). rewrite Hr1 in Hr. injection Hr as <-.
    by exists d1.
  - destruct (Hnew b a d0 d Hin0 H2) as (d' & Hr & Hl). rewrite Hr2 in Hr. injection Hr as <-.
    exists d2. split; [|done]. by rewrite lookup_edge_sym.
Qed.
(** *** The topology under its new names *)

Lemma topo_wf_ready t prefix :
  topo_wf t →
  (∀ a b d, (a, b, d) ∈ edge (nxgraph t) → a ≠ b) →
  (∀ n m, n ∈ nodes t → m ∈ nodes t → m ≠ renamer prefix n) →
  relabel_ready (nxgraph t) prefix.
Proof.
  intros (Hwf & Hl & _) Hloop Hnames. constructor; [|done].
  intros a b d Hin. split; [by eapply Hloop|].
  apply links_ok_Forall in Hl. rewrite Forall_forall in Hl.
  destruct (Hl _ Hin) as [H1 H2]. cbn [fst snd] in H1, H2.
  apply endpoint_ok_true in H1 as (i & x & -> & _).
  apply endpoint_ok_true in H2 as (j & y & -> & _). by eauto.
Qed.

(** X18: [addNodeLabelPrefix] with a prefix, on a well-formed topology
    that has no link from a node to itself and no node whose name is the
    prefix, an underscore and the name of a node.  The call returns; the
    nodes are the old ones under their new names (in the order in which
    [nx.relabel_nodes] leaves them: the ends of the links first), each
    with the node object it had; every link joins the renamed ends, and
    [getLinkInterfaces] gives for the renamed ends what it gave for the
    old ones; the topology is well formed again. *)
Theorem addNodeLabelPrefix_renames (t : Topology) (prefix : string) :
  topo_wf t →
  (∀ a b d, (a, b, d) ∈ edge (nxgraph t) → a ≠ b) →
  (∀ n m, n ∈ nodes t → m ∈ nodes t → m ≠ renamer prefix n) →
  ∃ t',
    addNodeLabelPrefix (Some prefix) t = (Return tt, t') ∧
    nodes t' ≡ₚ renamer prefix <$> nodes t ∧
    topo_name t' = topo_name t ∧
    (∀ n i, iface t' (renamer prefix n) i = iface t n i) ∧
    (∀ a b, (a, b) ∈ links t →
       ∃ i j,
         getLinkInterfaces a b t = (Return (AStr i, AStr i), t) ∧
         getLinkInterfaces (renamer prefix a) (renamer prefix b) t'
         = (Return (AStr i, AStr i), t') ∧
         getLinkInterfaces b a t = (Return (AStr j, AStr j), t) ∧
         getLinkInterfaces (renamer prefix b) (renamer prefix a) t'
         = (Return (AStr j, AStr j), t')) ∧
    topo_wf t'.
Proof.
  intros Hwf Hloop Hnames.
  pose proof (topo_wf_ready t prefix Hwf Hloop Hnames) as Hready.
  destruct Hwf as (Hg & Hl & Ha).
  destruct (relabel_graph_run (nxgraph t) prefix Hg Hready)
    as (G' & Hrun & Hnode & Hname & Hendp & Hedges).
  pose proof (relabelled_wf (nxgraph t) prefix Hg) as Hg2.
  assert (Hg' : graph_wf G').
  { apply (graph_wf_endpoints (relabelled (nxgraph t) prefix)); [|done|done].
    unfold Graph_nodes. by rewrite Hnode. }
  assert (Hnodes : Graph_nodes G' ≡ₚ renamer prefix <$> nodes t).
  { unfold Graph_nodes at 1. rewrite Hnode. apply Graph_nodes_relabelled, (wf_nodes _ Hg). }
  assert (Hiface : ∀ n i, iface (set_nxgraph t G') (renamer prefix n) i = iface t n i).
  { intros n i. unfold iface. cbn [nxgraph set_nxgraph]. rewrite Hnode, dict_get_relabelled.
    by destruct (dict_get (node (nxgraph t)) n). }
  assert (Hhas : ∀ n, n ∈ nodes t → has_node G' (renamer prefix n) = true).
  { intros n Hn. apply has_node_true. rewrite Hnodes. by apply list_elem_of_fmap_2. }
  (* a link of [t] and the link that it became *)
  assert (Hlink : ∀ a b d, (a, b, d) ∈ edge (nxgraph t) →
            ∃ i j x y d',
              dict_get d a = Some (AStr i) ∧ dict_get d b = Some (AStr j) ∧
              iface t a i = Some x ∧ iface t b j = Some y ∧
              find_edge (nxgraph t) a b = Some d ∧
              find_edge G' (renamer prefix a) (renamer prefix b) = Some d' ∧
              dict_get d' (renamer prefix a) = Some (AStr i) ∧
              dict_get d' (renamer prefix b) = Some (AStr j)).
  { intros a b d Hin. apply links_ok_Forall in Hl. rewrite Forall_forall in Hl.
    destruct (Hl _ Hin) as [H1 H2]. cbn [fst snd] in H1, H2.
    apply endpoint_ok_true in H1 as (i & x & Hi & Hx).
    apply endpoint_ok_true in H2 as (j & y & Hj & Hy).
    destruct (Hedges a b d Hin) as (d' & Hl' & Hd1 & Hd2 & _).
    exists i, j, x, y, d'. rewrite Hd1, Hd2. repeat (split; [done|]). split; [|done].
    unfold find_edge. apply lookup_edge_elem; [apply (wf_simple _ Hg) | done]. }
  exists (set_nxgraph t G'). split; [unfold addNodeLabelPrefix; by rewrite Hrun|].
  split; [done|]. split; [done|]. split; [done|]. split.
  - intros a b Hin. apply elem_of_links in Hin as [d0 Hin].
    apply elem_of_Graph_edges in Hin as [_ Hin].
    assert (Hsym : ∀ G u v, find_edge G v u = find_edge G u v)
      by (intros; apply lookup_edge_sym).
    destruct Hin as [Hin|Hin].
    + destruct (Hlink a b d0 Hin) as (i & j & x & y & d' & Hi & Hj & _ & _ & Hf & Hf' & Hi' & Hj').
      destruct (wf_ends _ Hg a b d0 Hin) as [Hna Hnb].
      exists i, j. split; [|split; [|split]].
      * apply (getLinkInterfaces_found t a b d0); [|done].
        apply getLink_found; [by apply has_node_true | done].
      * apply (getLinkInterfaces_found _ _ _ d'); [|done].
        apply getLink_found; [by apply Hhas | done].
      * apply (getLinkInterfaces_found t b a d0); [|done].
        apply getLink_found; [by apply has_node_true | by rewrite Hsym].
      * apply (getLinkInterfaces_found _ _ _ d'); [|done].
        apply getLink_found; [by apply Hhas | by rewrite Hsym].
    + destruct (Hlink b a d0 Hin) as (j & i & y & x & d' & Hj & Hi & _ & _ & Hf & Hf' & Hj' & Hi').
      destruct (wf_ends _ Hg b a d0 Hin) as [Hnb Hna].
      exists i, j. split; [|split; [|split]].
      * apply (getLinkInterfaces_found t a b d0); [|done].
        apply getLink_found; [by apply has_node_true | by rewrite Hsym].
      * apply (getLinkInterfaces_found _ _ _ d'); [|done].
        apply getLink_found; [by apply Hhas | by rewrite Hsym].
      * apply (getLinkInterfaces_found t b a d0); [|done].
        apply getLink_found; [by apply has_node_true | done].
      * apply (getLinkInterfaces_found _ _ _ d'); [|done].
        apply getLink_found; [by apply Hhas | done].
  - split; [done|]. split.
    + apply links_ok_Forall. apply Forall_forall. intros [[u v] d''] Hin'. cbn [fst snd].
      cbn [nxgraph set_nxgraph] in Hin'.
      assert (Hin2 : (u, v) ∈ (edge (relabelled (nxgraph t) prefix)).*1).
      { rewrite <- Hendp. apply elem_of_endpoints. by eauto. }
      apply elem_of_endpoints in Hin2 as [d Hin2].
      apply edge_relabelled_from in Hin2 as (a & b & -> & -> & Hin); [|done].
      pose proof (lookup_edge_elem _ _ _ _ (wf_simple _ Hg') Hin') as Hl'.
      destruct Hin as [Hin|Hin].
      * destruct (Hlink a b d Hin) as (i & j & x & y & d' & _ & _ & Hx & Hy & _ & Hf' & Hi' & Hj').
        assert (Hd : d'' = d') by (unfold find_edge in Hf'; congruence).
        subst d''. unfold endpoint_ok. rewrite Hi', Hj', !Hiface, Hx, Hy. done.
      * destruct (Hlink b a d Hin) as (j & i & y & x & d' & _ & _ & Hy & Hx & _ & Hf' & Hj' & Hi').
        assert (Hd : d'' = d').
        { unfold find_edge in Hf'. rewrite lookup_edge_sym in Hf'. congruence. }
        subst d''. unfold endpoint_ok. rewrite Hi', Hj', !Hiface, Hx, Hy. done.
    + intros m nd'. cbn [nxgraph set_nxgraph]. rewrite Hnode. intros Hm.
      apply dict_get_relabelled_Some in Hm as (n & nd & -> & Hn & Ho).
      rewrite Ho. by apply (Ha n nd).
Qed.

(** *** A link from a node to itself *)

Lemma length_append (a b : string) :
  String.length (a +:+ b) = (String.length a + String.length b)%nat.
Proof. induction a as [|c a IH]; [done|]. rewrite append_cons. simpl. by rewrite IH. Qed.

Lemma renamer_ne prefix n : n ≠ renamer prefix n.
Proof.
  intros H. apply (f_equal String.length) in H. unfold renamer in H.
  rewrite !length_append in H. simpl in H. lia.
Qed.

Lemma dict_get_del_eq {V} (d : dict V) k : NoDup (keys d) → dict_get (dict_del d k) k = None.
Proof.
  unfold keys. induction d as [|[k0 v0] d IH]; [done|].
  cbn [fmap list_fmap fst]. intros Hnd. apply NoDup_cons in Hnd as [Hn Hnd].
  cbn [dict_del]. destruct (decide (k0 = k)) as [->|Hne].
  - by apply dict_get_None.
  - cbn [dict_get]. rewrite decide_False by done. by apply IH.
Qed.

(** The second pass over the same name finds it deleted. *)
Lemma rekeyed_loop prefix n d : NoDup (keys d) → rekeyed prefix n n d = None.
Proof.
  intros Hnd. unfold rekeyed, rekey_dict.
  destruct (dict_get d n) as [x|]; [|done].
  rewrite dict_get_del_eq; [done|]. by apply NoDup_keys_dict_set.
Qed.

Lemma rekey_raises G u v new old e : rekey G u v new old = Raise e → ∃ k, e = KeyError k.
Proof.
  unfold rekey. destruct (find_edge G u v) as [d|]; [|intros [= <-]; by eauto].
  destruct (dict_get d old); [done | intros [= <-]; by eauto].
Qed.

Lemma relabel_edges_raises plen es G e :
  relabel_edges plen es G = Raise e → ∃ k, e = KeyError k.
Proof.
  revert G. induction es as [|[[u v] d] es IH]; intros G; cbn [relabel_edges]; [done|].
  destruct (rekey G u v u _) as [G1|e1] eqn:E1; cbn [obind].
  - destruct (rekey G1 u v v _) as [G2|e2] eqn:E2; cbn [obind]; [apply IH|].
    intros [= <-]. by eapply rekey_raises.
  - intros [= <-]. by eapply rekey_raises.
Qed.

Lemma rekey_Return G u v new old G' :
  rekey G u v new old = Return G' →
  ∃ d d', lookup_edge (edge G) u v = Some d ∧ rekey_dict new old d = Some d' ∧
          G' = {| graph_name := graph_name G; node := node G;
                  edge := edge_apply (edge G) u v (fun _ => d') |}.
Proof.
  intros H. unfold rekey, find_edge in H.
  destruct (lookup_edge (edge G) u v) as [d|] eqn:El; [|done].
  destruct (dict_get d old) as [x|] eqn:Ex; [|done].
  exists d, (dict_del (dict_set d new x) old). split; [done|].
  split; [unfold rekey_dict; by rewrite Ex|].
  injection H as <-. f_equal.
  by apply (edge_apply_value _ _ _ (fun d0 => dict_del (dict_set d0 new x) old)).
Qed.

Lemma relabel_edges_loop prefix es G n d0 d :
  (renamer prefix n, renamer prefix n, d0) ∈ es →
  lookup_edge (edge G) (renamer prefix n) (renamer prefix n) = Some d →
  NoDup (keys d) →
  ∃ k, relabel_edges (String.length prefix) es G = Raise (KeyError k).
Proof.
  intros Hin Hl Hnd.
  destruct (relabel_edges (String.length prefix) es G) as [G'|e] eqn:E.
  - exfalso. revert G Hl E.
    induction es as [|[[u v] d1] es IH]; intros G Hl E; [by apply elem_of_nil in Hin|].
    cbn [relabel_edges] in E.
    destruct (rekey G u v u _) as [G1|e1] eqn:E1; [|done]. cbn [obind] in E.
    destruct (rekey G1 u v v _) as [G2|e2] eqn:E2; [|done]. cbn [obind] in E.
    apply rekey_Return in E1 as (da & da' & Hla & Hra & ->).
    apply rekey_Return in E2 as (db & db' & Hlb & Hrb & ->). cbn [edge graph_name node] in *.
    rewrite lookup_edge_apply_same, Hla in Hlb. injection Hlb as <-.
    destruct (decide (unordered (renamer prefix n, renamer prefix n) = unordered (u, v)))
      as [Heq|Hne].
    + apply unordered_eq in Heq. assert (u = renamer prefix n ∧ v = renamer prefix n) as [-> ->]
        by (destruct Heq as [[? ?]|[? ?]]; by subst).
      rewrite !string_drop_renamer in *. rewrite Hl in Hla. injection Hla as <-.
      pose proof (rekeyed_loop prefix n d Hnd) as Hloop. unfold rekeyed in Hloop.
      rewrite Hra in Hloop. congruence.
    + apply elem_of_cons in Hin as [Hin|Hin].
      { injection Hin as <- <- _. done. }
      eapply (IH Hin); [|exact E]. cbn [edge].
      rewrite edge_apply_twice, lookup_edge_apply_other by done. exact Hl.
  - destruct (relabel_edges_raises _ _ _ _ E) as [k ->]. by eauto.
Qed.

(** X19: a topology with a link from a node to itself cannot be
    relabelled.  On a well-formed graph with such a link (as
    [addLink(n, n, ...)] makes it), [addNodeLabelPrefix] with any prefix
    and [union] with [rename=True] raise [KeyError]: the loop of
    [__relabel_graph] moves the entry of the node twice and does not find
    it the second time.  The topologies stay as they were. *)
Theorem relabel_self_link (t : Topology) (n : string) (d : dict attr) :
  graph_wf (nxgraph t) →
  (n, n, d) ∈ edge (nxgraph t) →
  NoDup (keys d) →
  (∀ prefix, ∃ k, addNodeLabelPrefix (Some prefix) t = (Raise (KeyError k), t)) ∧
  (∀ other, ∃ k, union true (t, other) = (Raise (KeyError k), (t, other))).
Proof.
  intros Hwf Hin Hnd.
  assert (Hrel : ∀ prefix, ∃ k, relabel_graph (nxgraph t) prefix = Raise (KeyError k)).
  { intros prefix. rewrite relabel_graph_eq.
    pose proof (relabelled_wf (nxgraph t) prefix Hwf) as Hwf2.
    assert (Hin2 : (renamer prefix n, renamer prefix n, d) ∈ edge (relabelled (nxgraph t) prefix)).
    { by destruct (edge_relabelled_of (nxgraph t) prefix n n d Hwf Hin). }
    assert (Hk : unordered (renamer prefix n, renamer prefix n)
                 ∈ key <$> Graph_edges (relabelled (nxgraph t) prefix)).
    { rewrite (key_Graph_edges _ Hwf2). apply list_elem_of_fmap.
      by exists (renamer prefix n, renamer prefix n, d). }
    apply list_elem_of_fmap in Hk as ([[u v] d0] & Hkey & Hin0).
    unfold key in Hkey. cbn [fst] in Hkey.
    assert (u = renamer prefix n ∧ v = renamer prefix n) as [-> ->].
    { apply unordered_eq in Hkey. destruct Hkey as [[? ?]|[? ?]]; by subst. }
    apply (relabel_edges_loop prefix _ _ n d0 d Hin0); [|done].
    apply lookup_edge_elem; [apply (wf_simple _ Hwf2) | done]. }
  split.
  - intros prefix. destruct (Hrel prefix) as [k Hk]. exists k.
    unfold addNodeLabelPrefix. by rewrite Hk.
  - intros other. destruct (Hrel (topo_name t)) as [k Hk]. exists k.
    unfold union. by rewrite Hk.
Qed.

End Relabel.

(** X17, a witness: the example scenario. *)
Lemma addNodeLabelPrefix_default_witness :
  addNodeLabelPrefix None example_topo = (Raise TypeError, example_topo).
Proof.
  apply (addNodeLabelPrefix_default example_topo).
  - by apply graph_check_wf.
  - by vm_compute.
Defined.

(** No node whose name begins with a given text. *)
Lemma not_renamed (prefix : string) (ns : list string) :
  forallb (fun m => negb (String.prefix (prefix +:+ "_") m)) ns = true →
  ∀ n m, n ∈ ns → m ∈ ns → m ≠ renamer prefix n.
Proof.
  intros H n m _ Hm ->. rewrite forallb_forall in H.
  apply list_elem_of_In, H, negb_true_iff in Hm.
  unfold renamer in Hm.
  assert (Hp : ∀ p s, String.prefix p (p +:+ s) = true).
  { clear. induction p as [|c p IH]; intros s; [by destruct s|].
    rewrite append_cons. cbn [String.prefix]. destruct (ascii_dec c c); [apply IH | done]. }
  replace (prefix +:+ "_" +:+ n) with ((prefix +:+ "_") +:+ n) in Hm by apply append_assoc.
  rewrite Hp in Hm. done.
Qed.

(** X18, a witness: the example scenario under the prefix net. *)
Lemma addNodeLabelPrefix_renames_witness :
  ∃ t',
    addNodeLabelPrefix (Some "net") example_topo = (Return tt, t') ∧
    nodes t' ≡ₚ ["net_h0"; "net_h1"; "net_s0"] ∧
    ∃ i, getLinkInterfaces "net_s0" "net_h1" t' = (Return (AStr i, AStr i), t') ∧
         getLinkInterfaces "s0" "h1" example_topo = (Return (AStr i, AStr i), example_topo).
Proof.
  destruct (addNodeLabelPrefix_renames example_topo "net")
    as (t' & Hrun & Hn & _ & _ & Hlinks & _).
  - apply (built_topo_wf (F := example_formatting)), example_topo_built.
  - intros a b d Hin Heq. apply list_elem_of_In in Hin. vm_compute in Hin.
    destruct Hin as [[= <- <- _]|[[= <- <- _]|[]]]; discriminate Heq.
  - by apply not_renamed.
  - exists t'. split; [exact Hrun|]. split; [exact Hn|].
    destruct (Hlinks "h1" "s0") as (i & j & _ & _ & H3 & H4).
    + vm_compute. apply list_elem_of_further, list_elem_of_here.
    + exists j. split; [exact H4 | exact H3].
Defined.

(** A host with a link to itself. *)
Definition example_loop : Topology :=
  Eval vm_compute in
    ((addHost None ;;;
      addLink (F := example_formatting) "h0" "h0" "100mbps" "10ms")%topo Topology_new).2.

Definition example_loop_data : dict attr :=
  Eval vm_compute in
    match edge (nxgraph example_loop) with
    | (_, _, d) :: _ => d
    | [] => []
    end.

(** X19, a witness *)
Lemma relabel_self_link_witness :
  links example_loop = [("h0", "h0")] ∧
  ∃ k, addNodeLabelPrefix (Some "net") example_loop = (Raise (KeyError k), example_loop).
Proof.
  split; [reflexivity|].
  destruct (relabel_self_link example_loop "h0" example_loop_data) as [Hrel _].
  - by apply graph_check_wf.
  - apply list_elem_of_here.
  - apply (bool_decide_unpack (NoDup (keys example_loop_data))). reflexivity.
  - exact (Hrel "net").
Defined.

(** ** Every interface of the walk gets an address of its own *)

Section Distinct.
Context {F : Formatting}.

(** The interface that the attributes of a link record for the node [n]. *)
Definition recorded (d : dict attr) (n : string) : option (string * string) :=
  match dict_get d n with
  | Some (AStr i) => Some (n, i)
  | _ => None
  end.

(** The two ends of an edge with their interfaces, and the ends of all
    edges. *)
Definition ends_of (e : string * string * dict attr) : list (string * string) :=
  omap (recorded e.2) [e.1.1; e.1.2].

Definition all_ends (E : list (string * string * dict attr)) : list (string * string) :=
  concat (map ends_of E).

(** No link from a node to itself. *)
Definition no_loops (t : Topology) : Prop :=
  ∀ a b, (a, b) ∈ (edge (nxgraph t)).*1 → a ≠ b.

Lemma visit_recorded ntn ld n :
  visit ntn ld n = if decide (n ∈ ntn) then recorded ld n else None.
Proof. unfold visit, recorded. destruct (decide (n ∈ ntn)); [|done]. by destruct (dict_get ld n) as [[]|]. Qed.

Lemma recorded_Some d n x : recorded d n = Some x → ∃ i, x = (n, i) ∧ dict_get d n = Some (AStr i).
Proof.
  unfold recorded. destruct (dict_get d n) as [[i|z|f]|]; try done. intros [= <-]. by eauto.
Qed.

Lemma elem_of_ends_of a b d x :
  x ∈ ends_of (a, b, d) ↔ recorded d a = Some x ∨ recorded d b = Some x.
Proof.
  unfold ends_of. cbn [fst snd]. rewrite list_elem_of_omap. split.
  - intros (n & Hn & Hr). rewrite !elem_of_cons in Hn.
    destruct Hn as [->|[->|Hn]]; [tauto | tauto | by apply elem_of_nil in Hn].
  - intros [H|H]; [exists a | exists b]; (split; [|done]); rewrite !elem_of_cons; tauto.
Qed.

Lemma elem_of_all_ends E x : x ∈ all_ends E ↔ ∃ e, e ∈ E ∧ x ∈ ends_of e.
Proof.
  unfold all_ends. induction E as [|e E IH]; cbn [map concat].
  - split; [intros H; by apply elem_of_nil in H | intros (e & H & _); by apply elem_of_nil in H].
  - rewrite elem_of_app, IH. split.
    + intros [H|(e' & He' & H)]; [exists e | exists e'];
        (split; [|done]); [apply list_elem_of_here | by apply list_elem_of_further].
    + intros (e' & He' & H). apply elem_of_cons in He' as [->|He']; [by left|].
      right. by exists e'.
Qed.

Lemma all_ends_app E1 E2 : all_ends (E1 ++ E2) = all_ends E1 ++ all_ends E2.
Proof. unfold all_ends. by rewrite map_app, concat_app. Qed.

(** The ends that are recorded are interfaces that exist. *)
Lemma all_ends_iface t n i :
  links_ok t = true → (n, i) ∈ all_ends (edge (nxgraph t)) → is_Some (iface t n i).
Proof.
  intros Hl Hin. apply elem_of_all_ends in Hin as ([[a b] d] & He & Hx).
  apply links_ok_Forall in Hl. rewrite Forall_forall in Hl.
  destruct (Hl _ He) as [H1 H2]. cbn [fst snd] in H1, H2.
  apply endpoint_ok_true in H1 as (i1 & x1 & Hi1 & Hx1).
  apply endpoint_ok_true in H2 as (i2 & x2 & Hi2 & Hx2).
  apply elem_of_ends_of in Hx as [Hr|Hr]; apply recorded_Some in Hr as (i' & [= -> ->] & Hd).
  - rewrite Hi1 in Hd. injection Hd as <-. by eauto.
  - rewrite Hi2 in Hd. injection Hd as <-. by eauto.
Qed.

(** *** One more link *)

Lemma elem_of_all_ends_apply E u v f (new : list (string * string)) x :
  (∀ a b d y, joins u v (a, b, d) = true → y ∈ ends_of (a, b, f d) → y ∈ new) →
  x ∈ all_ends (edge_apply E u v f) → x ∈ all_ends E ∨ x ∈ new.
Proof.
  intros Hnew. unfold all_ends.
  induction E as [|[[a b] d] E IH]; cbn [edge_apply map concat]; [by left|].
  destruct (joins u v (a, b, d)) eqn:Ej; cbn [map concat fst snd]; rewrite !elem_of_app.
  - intros [H|H]; [right; by eapply Hnew | tauto].
  - intros [H|H]; [tauto|]. destruct (IH H); tauto.
Qed.

Lemma NoDup_all_ends_apply E u v f (new : list (string * string)) :
  NoDup (all_ends E) →
  (∀ x, x ∈ new → x ∉ all_ends E) →
  (∀ a b d, joins u v (a, b, d) = true →
     NoDup (ends_of (a, b, f d)) ∧ ∀ y, y ∈ ends_of (a, b, f d) → y ∈ new) →
  NoDup (all_ends (edge_apply E u v f)).
Proof.
  intros Hnd Hfresh Hnew. induction E as [|[[a b] d] E IH]; cbn [edge_apply]; [done|].
  unfold all_ends in Hnd, Hfresh. cbn [map concat] in Hnd, Hfresh.
  apply NoDup_app in Hnd as (Hn1 & Hdis & Hn2).
  destruct (joins u v (a, b, d)) eqn:Ej; unfold all_ends; cbn [map concat fst snd].
  - destruct (Hnew a b d Ej) as [Hn Hsub]. apply NoDup_app. split; [done|]. split; [|done].
    intros y Hy Hy'. apply (Hfresh y (Hsub y Hy)). apply elem_of_app. by right.
  - apply NoDup_app. split; [done|]. split.
    + intros y Hy Hy'.
      apply (elem_of_all_ends_apply E u v f new) in Hy' as [Hy'|Hy'].
      * by apply (Hdis y).
      * apply (Hfresh y Hy'). apply elem_of_app. by left.
      * intros a' b' d' y' Hj. by apply Hnew.
    + apply IH; [done|]. intros x Hx Hx'. apply (Hfresh x Hx). apply elem_of_app. by right.
Qed.

Lemma recorded_link_attrs n1 n2 c s i1 i2 d :
  n1 ≠ n2 →
  recorded (link_attrs n1 n2 c s i1 i2 d) n1 = Some (n1, i1) ∧
  recorded (link_attrs n1 n2 c s i1 i2 d) n2 = Some (n2, i2).
Proof.
  intros Hne. unfold recorded, link_attrs. split.
  - rewrite dict_get_set_ne by done. by rewrite dict_get_set_eq.
  - by rewrite dict_get_set_eq.
Qed.

Lemma addLink_body_fresh n1 n2 cap d t i1 i2 t' :
  nodes_ahead t → n1 ≠ n2 →
  addLink_body n1 n2 cap d t = (Return (i1, i2), t') →
  iface t n1 i1 = None ∧ iface t n2 i2 = None.
Proof.
  intros Ha Hne Hrun.
  apply addLink_body_returns in Hrun as (H1 & H2 & -> & -> & _).
  split; [by apply new_ifname_fresh|].
  replace (new_ifname (with_interface (bump t) n1 (fresh_macs t).1) n2) with (new_ifname t n2).
  - by apply new_ifname_fresh.
  - unfold new_ifname. by rewrite node_with_interface_ne, bump_nxgraph.
Qed.

Lemma addLink_body_ends n1 n2 cap d t i1 i2 t' :
  topo_wf t → n1 ≠ n2 →
  addLink_body n1 n2 cap d t = (Return (i1, i2), t') →
  NoDup (all_ends (edge (nxgraph t))) → NoDup (all_ends (edge (nxgraph t'))).
Proof.
  intros (Hg & Hl & Ha) Hne Hrun Hnd.
  destruct (addLink_body_fresh _ _ _ _ _ _ _ _ Ha Hne Hrun) as [Hf1 Hf2].
  apply addLink_body_returns in Hrun as (_ & _ & _ & _ & c & s & _ & _ & ->).
  rewrite labelled_prepared_edge.
  assert (Hnew : ∀ a b ld, joins n1 n2 (a, b, ld) = true →
            NoDup (ends_of (a, b, link_attrs n1 n2 c s i1 i2 ld)) ∧
            ∀ y, y ∈ ends_of (a, b, link_attrs n1 n2 c s i1 i2 ld) → y ∈ [(n1, i1); (n2, i2)]).
  { intros a b ld Hj. destruct (recorded_link_attrs n1 n2 c s i1 i2 ld Hne) as [Hr1 Hr2].
    unfold joins in Hj. apply orb_true_iff in Hj as [Hj|Hj];
      apply bool_decide_eq_true in Hj as [-> ->];
      unfold ends_of; cbn [fst snd omap list_omap]; rewrite Hr1, Hr2; cbn.
    - split; [|by intros y Hy].
      apply NoDup_cons. split; [|apply NoDup_singleton].
      rewrite list_elem_of_singleton. by intros [= ->].
    - split.
      + apply NoDup_cons. split; [|apply NoDup_singleton].
        rewrite list_elem_of_singleton. by intros [= ->].
      + intros y Hy. rewrite !elem_of_cons in Hy |- *. tauto. }
  assert (Hfresh : ∀ x, x ∈ [(n1, i1); (n2, i2)] → x ∉ all_ends (edge (nxgraph t))).
  { intros x Hx Hin. rewrite !elem_of_cons in Hx.
    destruct Hx as [->|[->|Hx]]; [| |by apply elem_of_nil in Hx];
      apply (all_ends_iface t _ _ Hl) in Hin as [y Hy]; congruence. }
  rewrite edge_add_edge. destruct (lookup_edge (edge (nxgraph t)) n1 n2) eqn:E.
  - by apply (NoDup_all_ends_apply _ _ _ _ [(n1, i1); (n2, i2)]).
  - apply (NoDup_all_ends_apply _ _ _ _ [(n1, i1); (n2, i2)]).
    + rewrite all_ends_app. unfold all_ends at 2. cbn. by rewrite app_nil_r.
    + intros x Hx. rewrite all_ends_app. unfold all_ends at 2. cbn. rewrite app_nil_r.
      by apply Hfresh.
    + done.
Qed.

(** *** Built topologies without a link from a node to itself *)

Lemma built_ends t : built t → no_loops t → NoDup (all_ends (edge (nxgraph t))).
Proof.
  induction 1 as [name am | c name t Hb IH | n1 n2 cap d t Hb IH Hret
                 | n i mac ip mask t Hb IH | prefix t Hb IH]; intros Hloop.
  - constructor.
  - rewrite add_of_class_edge. apply IH. intros a b. specialize (Hloop a b).
    by rewrite add_of_class_edge in Hloop.
  - destruct (addLink n1 n2 cap d t) as [r t'] eqn:E. cbn [fst snd] in *. subst r.
    apply addLink_returns in E as (i1 & i2 & Hrun).
    pose proof Hrun as Hrun'.
    apply addLink_body_returns in Hrun' as (_ & _ & _ & _ & c & s & _ & _ & Ht').
    assert (Hends : (edge (nxgraph t')).*1 = (edge (add_edge (nxgraph t) n1 n2)).*1).
    { rewrite Ht', labelled_prepared_edge. apply edge_apply_endpoints. }
    assert (Hne : n1 ≠ n2).
    { destruct (find_edge_add_edge (nxgraph t) n1 n2) as [d0 Hd0].
      apply lookup_edge_Some in Hd0 as (a & b & Hin & Hj).
      assert (Hab : a ≠ b).
      { apply Hloop. rewrite Hends. apply elem_of_endpoints. by eauto. }
      destruct Hj as [[-> ->]|[-> ->]]; [done | by apply not_eq_sym]. }
    apply (addLink_body_ends n1 n2 cap d t i1 i2 t' (built_topo_wf t Hb) Hne Hrun).
    apply IH. intros a b Hin. apply Hloop. rewrite Hends, edge_add_edge.
    destruct (lookup_edge (edge (nxgraph t)) n1 n2); [done|].
    rewrite fmap_app. apply elem_of_app. by left.
  - assert (He : edge (nxgraph (setInterfaceAddresses n i mac ip mask t).2) = edge (nxgraph t)).
    { eapply setInterfaceAddresses_same_shape, surjective_pairing. }
    rewrite He. apply IH. intros a b. specialize (Hloop a b). by rewrite He in Hloop.
  - assert (He : edge (nxgraph (assignIPAddresses prefix t).2) = edge (nxgraph t)).
    { eapply assignIPAddresses_same_shape, surjective_pairing. }
    rewrite He. apply IH. intros a b. specialize (Hloop a b). by rewrite He in Hloop.
Qed.

(** *** The walk meets no interface twice *)

Lemma NoDup_concat_map {A B} (g : A → list B) (L : list A) :
  NoDup L →
  (∀ l, l ∈ L → NoDup (g l)) →
  (∀ l l' x, l ∈ L → l' ∈ L → l ≠ l' → x ∈ g l → x ∈ g l' → False) →
  NoDup (concat (map g L)).
Proof.
  induction 1 as [|l L Hl HL IH]; intros Heach Hdis; cbn [map concat]; [constructor|].
  apply NoDup_app. split; [apply Heach, list_elem_of_here|]. split.
  - intros x Hx Hx'. apply list_elem_of_In, in_concat in Hx' as (ys & Hys & Hx').
    apply in_map_iff in Hys as (l' & <- & Hl'). apply list_elem_of_In in Hl', Hx'.
    apply (Hdis l l' x); [apply list_elem_of_here | by apply list_elem_of_further | | done | done].
    by intros ->.
  - apply IH.
    + intros l' Hl'. by apply Heach, list_elem_of_further.
    + intros l1 l2 x H1 H2. apply Hdis; by apply list_elem_of_further.
Qed.

Lemma all_ends_two E e e' x :
  NoDup (all_ends E) → e ∈ E → e' ∈ E → e ≠ e' → x ∈ ends_of e → x ∈ ends_of e' → False.
Proof.
  unfold all_ends. induction E as [|e0 E IH]; [intros _ H; by apply elem_of_nil in H|].
  cbn [map concat]. intros Hnd He He' Hne Hx Hx'.
  apply NoDup_app in Hnd as (_ & Hdis & Hnd).
  assert (Hin : ∀ e1, e1 ∈ E → x ∈ ends_of e1 → x ∈ concat (map ends_of E)).
  { intros e1 H1 H2. apply (elem_of_all_ends E x). by exists e1. }
  apply elem_of_cons in He as [->|He]; apply elem_of_cons in He' as [->|He'].
  - done.
  - apply (Hdis x Hx). by apply (Hin e').
  - apply (Hdis x Hx'). by apply (Hin e).
  - by apply IH.
Qed.

Lemma NoDup_fmap_eq {A B} `{EqDecision A} (f : A → B) (L : list A) l l' :
  NoDup (f <$> L) → l ∈ L → l' ∈ L → f l = f l' → l = l'.
Proof.
  induction L as [|l0 L IH]; [intros _ H; by apply elem_of_nil in H|].
  rewrite fmap_cons, NoDup_cons. intros [Hn Hnd] H1 H2 Hf.
  apply elem_of_cons in H1 as [->|H1]; apply elem_of_cons in H2 as [->|H2]; [done | | |by apply IH].
  - exfalso. apply Hn. rewrite Hf. by apply list_elem_of_fmap_2.
  - exfalso. apply Hn. rewrite <- Hf. by apply list_elem_of_fmap_2.
Qed.

Lemma links_keys_NoDup t : graph_wf (nxgraph t) → NoDup (unordered <$> links t).
Proof.
  intros Hwf. rewrite links_fst, <- key_fmap, (key_Graph_edges _ Hwf). apply (wf_simple _ Hwf).
Qed.

(** What a visit to the link [(u, v)] meets is recorded by the edge
    between [u] and [v]. *)
Lemma link_visits_ends t ntn u v x :
  x ∈ link_visits t ntn (u, v) →
  ∃ a b d, (a, b, d) ∈ edge (nxgraph t) ∧ unordered (a, b) = unordered (u, v) ∧
           x ∈ ends_of (a, b, d) ∧ (x.1 = u ∨ x.1 = v).
Proof.
  unfold link_visits. cbn [fst snd].
  destruct (find_edge (nxgraph t) u v) as [ld|] eqn:Hf; [|intros H; by apply elem_of_nil in H].
  unfold find_edge in Hf. apply lookup_edge_Some in Hf as (a & b & Hin & Hj).
  intros Hx. apply list_elem_of_omap in Hx as (n & Hn & Hv).
  rewrite visit_recorded in Hv. destruct (decide (n ∈ ntn)); [|done].
  pose proof (recorded_Some _ _ _ Hv) as (i & -> & _).
  exists a, b, ld. split; [done|]. split; [apply unordered_eq; tauto|].
  rewrite !elem_of_cons in Hn. split.
  - apply elem_of_ends_of.
    destruct Hn as [->|[->|Hn]]; [| |by apply elem_of_nil in Hn];
      destruct Hj as [[-> ->]|[-> ->]]; tauto.
  - cbn [fst]. destruct Hn as [->|[->|Hn]]; [tauto | tauto | by apply elem_of_nil in Hn].
Qed.

Lemma link_visits_NoDup t ntn u v : u ≠ v → NoDup (link_visits t ntn (u, v)).
Proof.
  intros Hne. unfold link_visits. cbn [fst snd].
  destruct (find_edge (nxgraph t) u v) as [ld|]; [|constructor].
  cbn [omap list_omap]. rewrite !visit_recorded.
  destruct (decide (u ∈ ntn)), (decide (v ∈ ntn));
    destruct (recorded ld u) as [x|] eqn:Eu; destruct (recorded ld v) as [y|] eqn:Ev;
    cbn; try apply NoDup_singleton; try apply NoDup_nil_2.
  apply recorded_Some in Eu as (i & -> & _). apply recorded_Some in Ev as (j & -> & _).
  apply NoDup_cons. split; [|apply NoDup_singleton].
  rewrite list_elem_of_singleton. by intros [= ->].
Qed.

Lemma visited_NoDup t :
  graph_wf (nxgraph t) → no_loops t → NoDup (all_ends (edge (nxgraph t))) →
  NoDup (visited t).
Proof.
  intros Hwf Hloop Hends. unfold visited, visits.
  pose proof (links_keys_NoDup t Hwf) as Hkeys.
  assert (Hlinks : NoDup (links t)) by (by apply NoDup_fmap_1 in Hkeys).
  assert (Hne : ∀ u v, (u, v) ∈ links t → u ≠ v).
  { intros u v Hin. apply elem_of_links in Hin as [d Hin].
    apply elem_of_Graph_edges in Hin as [_ [Hin|Hin]].
    - apply Hloop, elem_of_endpoints. by eauto.
    - apply not_eq_sym, Hloop, elem_of_endpoints. by eauto. }
  apply NoDup_concat_map.
  - by rewrite sorted_perm.
  - intros [u v] Hin. apply link_visits_NoDup, Hne. by apply (proj1 (elem_of_sorted _ _)).
  - intros [u v] [u' v'] x Hl Hl' Hdiff Hx Hx'.
    apply (proj1 (elem_of_sorted _ _)) in Hl. apply (proj1 (elem_of_sorted _ _)) in Hl'.
    apply link_visits_ends in Hx as (a & b & d & Hin & Hk & Hxe & _).
    apply link_visits_ends in Hx' as (a' & b' & d' & Hin' & Hk' & Hxe' & _).
    apply (all_ends_two _ _ _ x Hends Hin Hin'); [|done|done].
    intros [= -> -> ->]. apply Hdiff.
    apply (NoDup_fmap_eq unordered (links t)); [done | done | done | congruence].
Qed.

(** X20: in a built topology without a link from a node to itself,
    [assignIPAddresses] with enough addresses gives every interface of
    the walk an address of its own.  The walk meets no interface twice;
    the [k]-th interface it meets has the [k]-th host address of the
    subnet and the subnet's netmask; every link end at a host or a router
    is met; and two different interfaces of the walk have different IP
    addresses after the call. *)
Theorem assigned_addresses_distinct (t : Topology) (prefix : option (N * N))
    (subnet : IPv4Network) (g : generator) :
  built t → no_loops t →
  subnet_of prefix = Return subnet →
  subnet_hosts subnet = Gen g →
  N.of_nat (length (visited t)) ≤ usable g →
  ∃ t',
    assignIPAddresses prefix t = (Return tt, t') ∧
    NoDup (visited t) ∧
    (∀ k n i, visited t !! k = Some (n, i) →
       ∃ intf, iface t n i = Some intf ∧
               iface t' n i
               = Some (mkInterface (name intf) (ethaddr intf)
                         (PIPv4Address (cur g + N.of_nat k))
                         (PIPv4Address (subnet_netmask subnet)))) ∧
    (∀ u v i, (u, v) ∈ links t ∨ (v, u) ∈ links t →
       u ∈ hosts t ++ routers t →
       getLinkInterfaces u v t = (Return (AStr i, AStr i), t) → (u, i) ∈ visited t) ∧
    (∀ n i n' i' x x',
       (n, i) ∈ visited t → (n', i') ∈ visited t → (n, i) ≠ (n', i') →
       iface t' n i = Some x → iface t' n' i' = Some x' → ipaddr x ≠ ipaddr x').
Proof.
  intros Hb Hloop Hsub Hgen Henough.
  pose proof (built_topo_wf t Hb) as (Hwf & Hok & _).
  pose proof (visited_NoDup t Hwf Hloop (built_ends t Hb Hloop)) as Hnd.
  destruct (assignIPAddresses_run prefix subnet g t Hok Hsub Hgen) as [Hgo _].
  specialize (Hgo Henough).
  assert (Hall : Forall (link_ok t (hosts t ++ routers t)) (sorted (links t))).
  { apply Forall_forall. intros uv Huv. apply links_ok_link_ok; [done|].
    by apply elem_of_sorted. }
  assert (Hk : ∀ k n i, visited t !! k = Some (n, i) →
            ∃ intf, iface t n i = Some intf ∧
              iface (assign_all (subnet_netmask subnet) (visited t)
                       (cur g) t) n i
              = Some (mkInterface (name intf) (ethaddr intf)
                        (PIPv4Address (cur g + N.of_nat k))
                        (PIPv4Address (subnet_netmask subnet)))).
  { intros k n i Hk.
    destruct (elem_of_visits t _ _ n i Hall) as [_ [intf Hi]];
      [by eapply list_elem_of_lookup_2|].
    exists intf. split; [done|]. apply assign_all_last; [done| |done].
    intros k' Hlt Hk'. assert (k = k'); [|lia].
    by apply (NoDup_lookup (visited t) k k' (n, i)). }
  eexists. split; [exact Hgo|]. split; [done|]. split; [done|]. split.
  - intros u v i Hlink Hu Hget.
    assert (Hin : ∃ p, p ∈ sorted (links t) ∧ (p = (u, v) ∨ p = (v, u))).
    { destruct Hlink as [H|H]; eexists; (split; [by apply elem_of_sorted|]); tauto. }
    destruct Hin as (p & Hp & Hor).
    assert (Hf : ∃ ld, find_edge (nxgraph t) u v = Some ld ∧ dict_get ld u = Some (AStr i)).
    { unfold getLinkInterfaces, bind, getLink, getEdge, lift, getitem in Hget.
      destruct (has_node (nxgraph t) u); [|done].
      destruct (find_edge (nxgraph t) u v) as [ld|]; [|done]. cbn in Hget.
      destruct (dict_get ld u) as [x|] eqn:Ex; [|done]. cbn in Hget.
      exists ld. split; [done|]. by injection Hget as ->. }
    destruct Hf as (ld & Hf & Hi).
    unfold visited, visits. apply list_elem_of_In, in_concat.
    exists (link_visits t (hosts t ++ routers t) p). split.
    + apply in_map_iff. exists p. split; [done | by apply list_elem_of_In].
    + apply list_elem_of_In. unfold link_visits.
      assert (Hfp : find_edge (nxgraph t) p.1 p.2 = Some ld).
      { destruct Hor as [-> | ->]; cbn [fst snd]; [done|].
        unfold find_edge in *. by rewrite lookup_edge_sym. }
      rewrite Hfp. apply list_elem_of_omap. exists u. split.
      * destruct Hor as [-> | ->]; cbn [fst snd]; rewrite !elem_of_cons; tauto.
      * rewrite visit_recorded, decide_True by done. unfold recorded. by rewrite Hi.
  - intros n i n' i' x x' Hin Hin' Hne Hx Hx' Heq.
    apply list_elem_of_lookup in Hin as [k Hkk]. apply list_elem_of_lookup in Hin' as [k' Hkk'].
    destruct (Hk k n i Hkk) as (intf & _ & Hi). destruct (Hk k' n' i' Hkk') as (intf' & _ & Hi').
    rewrite Hi in Hx. rewrite Hi' in Hx'. injection Hx as <-. injection Hx' as <-.
    cbn [ipaddr] in Heq. injection Heq as Heq.
    assert (k = k') by lia. subst k'. rewrite Hkk in Hkk'. by injection Hkk' as <- <-.
Qed.

End Distinct.

(** X20, a witness: the example scenario with 192.168.1.0/24. *)
Lemma assigned_addresses_distinct_witness :
  ∃ t',
    assignIPAddresses (Some (3232235776, 24)) example_topo = (Return tt, t') ∧
    visited example_topo = [("h0", "eth0"); ("h1", "eth0")] ∧
    ∀ x x', iface t' "h0" "eth0" = Some x → iface t' "h1" "eth0" = Some x' →
            ipaddr x ≠ ipaddr x'.
Proof.
  destruct (assigned_addresses_distinct (F := example_formatting) example_topo
              (Some (3232235776, 24)) (mkIPv4Network 3232235776 24)
              (mkGenerator 3232235777 3232236031))
    as (t' & Hrun & _ & _ & _ & Hdis).
  - exact example_topo_built.
  - intros a b Hin Heq. apply list_elem_of_In in Hin. vm_compute in Hin.
    destruct Hin as [[= <- <-]|[[= <- <-]|[]]]; discriminate Heq.
  - reflexivity.
  - reflexivity.
  - vm_compute. discriminate.
  - exists t'. split; [exact Hrun|]. split; [reflexivity|].
    intros x x'. apply Hdis.
    + vm_compute. apply list_elem_of_here.
    + vm_compute. apply list_elem_of_further, list_elem_of_here.
    + discriminate.
Defined.

(** ** Union with renaming *)

Section UnionRename.

(** The topology that [Topology(nxgraph=G, name=...)] makes of the graph
    that [nx.union] returned. *)
Lemma Topology_init_union (G1 G2 : Graph) (name : string) (new : Topology) :
  graph_wf G1 → graph_wf G2 →
  graph_wf {| graph_name := graph_name G2; node := node G1 ++ node G2;
              edge := Graph_edges G1 ++ Graph_edges G2 |} →
  new = Topology_init name
          (Some {| graph_name := graph_name G2; node := node G1 ++ node G2;
                   edge := Graph_edges G1 ++ Graph_edges G2 |}) true →
  nodes new = Graph_nodes G1 ++ Graph_nodes G2 ∧
  length (links new) = (length (edge G1) + length (edge G2))%nat ∧
  graph_wf (nxgraph new) ∧
  edge (nxgraph new) = Graph_edges G1 ++ Graph_edges G2.
Proof.
  intros H1 H2 Hwf ->. unfold Topology_init. cbn [node].
  destruct (node G1 ++ node G2) as [|x l] eqn:Hnodes.
  - apply app_eq_nil in Hnodes as [Hn1 Hn2].
    unfold nodes, Graph_nodes, keys. cbn [nxgraph Graph_new node edge]. rewrite Hn1, Hn2.
    split; [done|].
    rewrite !Graph_edges_no_edges by (by apply graph_wf_no_nodes).
    rewrite (graph_wf_no_nodes G1 H1 Hn1), (graph_wf_no_nodes G2 H2 Hn2).
    split; [done|]. split; [apply graph_wf_new | done].
  - cbn [nxgraph]. rewrite <- !Hnodes. rewrite <- Hnodes in Hwf.
    split; [unfold nodes, Graph_nodes, keys; cbn [nxgraph node]; by rewrite fmap_app|].
    split; [|split; [exact Hwf | done]].
    rewrite links_fst, length_fmap. cbn [nxgraph]. rewrite (length_Graph_edges _ Hwf).
    cbn [edge]. by rewrite length_app, !length_Graph_edges.
Qed.

(** C7: the union of two well-formed topologies without a common node
    name, with [rename=False], returns a new topology and leaves both
    inputs as they were.  The nodes of the result are the nodes of the
    first followed by the nodes of the second, no name twice; its links,
    as unordered pairs of node names, are those of the first together
    with those of the second, no pair twice; so the numbers of nodes and
    of links are the sums of the inputs' numbers. *)
Theorem union_disjoint_sums (self other : Topology) :
  graph_wf (nxgraph self) → graph_wf (nxgraph other) →
  (∀ n, n ∈ nodes self → n ∉ nodes other) →
  ∃ new,
    union false (self, other) = (Return new, (self, other)) ∧
    nodes new = nodes self ++ nodes other ∧
    NoDup (nodes new) ∧
    unordered <$> links new ≡ₚ (unordered <$> links self) ++ (unordered <$> links other) ∧
    NoDup (unordered <$> links new) ∧
    length (nodes new) = (length (nodes self) + length (nodes other))%nat ∧
    length (links new) = (length (links self) + length (links other))%nat.
Proof.
  intros Hs Ho Hdis.
  destruct (nx_union_disjoint (nxgraph self) (nxgraph other)
              (topo_name self +:+ "_" +:+ topo_name other) Hs Ho Hdis) as [Hrun Hwf].
  destruct (Topology_init_union (nxgraph self) (nxgraph other)
              (topo_name self +:+ "_" +:+ topo_name other) _ Hs Ho Hwf eq_refl)
    as (Hnodes & Hlen & Hwfn & Hedge).
  eexists. split; [unfold union; by rewrite Hrun|].
  assert (Hkeys : unordered <$> links (Topology_init (topo_name self +:+ "_" +:+ topo_name other)
                    (Some {| graph_name := graph_name (nxgraph other);
                             node := node (nxgraph self) ++ node (nxgraph other);
                             edge := Graph_edges (nxgraph self) ++ Graph_edges (nxgraph other) |})
                    true)
                  ≡ₚ (unordered <$> links self) ++ (unordered <$> links other)).
  { rewrite !links_fst, <- !key_fmap. rewrite (key_Graph_edges _ Hwfn), Hedge.
    by rewrite fmap_app. }
  split; [exact Hnodes|]. split; [apply (wf_nodes _ Hwfn)|]. split; [exact Hkeys|]. split.
  { rewrite links_fst, <- key_fmap, (key_Graph_edges _ Hwfn). apply (wf_simple _ Hwfn). }
  split.
  - rewrite Hnodes. apply length_app.
  - rewrite Hlen. by rewrite !length_links.
Qed.

(** X21: [union] with [rename=True] of two well-formed topologies, neither
    with a link from a node to itself nor with a node whose name is the
    new name of one of its nodes, and such that no new name of the first
    is a new name of the second.  The call returns a topology whose nodes
    are the nodes of the relabelled first input followed by those of the
    relabelled second input, and whose links number as many as the two
    have together; both inputs are left relabelled, their nodes being the
    old ones under the new names (in the order in which
    [nx.relabel_nodes] leaves them). *)
Theorem union_rename_returns (self other : Topology) :
  topo_wf self → topo_wf other →
  (∀ a b d, (a, b, d) ∈ edge (nxgraph self) → a ≠ b) →
  (∀ a b d, (a, b, d) ∈ edge (nxgraph other) → a ≠ b) →
  (∀ n m, n ∈ nodes self → m ∈ nodes self → m ≠ renamer (topo_name self) n) →
  (∀ n m, n ∈ nodes other → m ∈ nodes other → m ≠ renamer (topo_name other) n) →
  (∀ n m, n ∈ nodes self → m ∈ nodes other →
          renamer (topo_name self) n ≠ renamer (topo_name other) m) →
  ∃ new self' other',
    union true (self, other) = (Return new, (self', other')) ∧
    nodes self' ≡ₚ renamer (topo_name self) <$> nodes self ∧
    nodes other' ≡ₚ renamer (topo_name other) <$> nodes other ∧
    nodes new = nodes self' ++ nodes other' ∧
    length (links new) = (length (links self) + length (links other))%nat ∧
    graph_wf (nxgraph new).
Proof.
  intros Hs Ho Hls Hlo Hns Hno Hdis.
  pose proof (topo_wf_ready self _ Hs Hls Hns) as Hrs.
  pose proof (topo_wf_ready other _ Ho Hlo Hno) as Hro.
  destruct Hs as (Hgs & _ & _), Ho as (Hgo & _ & _).
  destruct (relabel_graph_run _ _ Hgs Hrs) as (G1 & Hrun1 & Hnode1 & Hname1 & Hend1 & _).
  destruct (relabel_graph_run _ _ Hgo Hro) as (G2 & Hrun2 & Hnode2 & Hname2 & Hend2 & _).
  assert (Hn1 : Graph_nodes G1 ≡ₚ renamer (topo_name self) <$> nodes self).
  { unfold Graph_nodes at 1. rewrite Hnode1. apply Graph_nodes_relabelled, (wf_nodes _ Hgs). }
  assert (Hn2 : Graph_nodes G2 ≡ₚ renamer (topo_name other) <$> nodes other).
  { unfold Graph_nodes at 1. rewrite Hnode2. apply Graph_nodes_relabelled, (wf_nodes _ Hgo). }
  assert (Hw1 : graph_wf G1).
  { apply (graph_wf_endpoints (relabelled (nxgraph self) (topo_name self)));
      [unfold Graph_nodes; by rewrite Hnode1 | done | by apply relabelled_wf]. }
  assert (Hw2 : graph_wf G2).
  { apply (graph_wf_endpoints (relabelled (nxgraph other) (topo_name other)));
      [unfold Graph_nodes; by rewrite Hnode2 | done | by apply relabelled_wf]. }
  assert (Hl1 : length (edge G1) = length (links self)).
  { rewrite <- (length_fmap fst (edge G1)), Hend1, length_fmap, edge_relabelled, length_map by done.
    by rewrite links_fst, length_fmap. }
  assert (Hl2 : length (edge G2) = length (links other)).
  { rewrite <- (length_fmap fst (edge G2)), Hend2, length_fmap, edge_relabelled, length_map by done.
    by rewrite links_fst, length_fmap. }
  destruct (nx_union_disjoint G1 G2
              (topo_name (set_nxgraph self G1) +:+ "_" +:+ topo_name (set_nxgraph other G2))
              Hw1 Hw2) as [Hrun Hwf].
  { intros n Hn Hm. rewrite Hn1 in Hn. rewrite Hn2 in Hm.
    apply list_elem_of_fmap in Hn as (a & -> & Ha). apply list_elem_of_fmap in Hm as (b & Hb & Hb').
    by apply (Hdis a b). }
  destruct (Topology_init_union G1 G2
              (topo_name (set_nxgraph self G1) +:+ "_" +:+ topo_name (set_nxgraph other G2))
              _ Hw1 Hw2 Hwf eq_refl) as (Hnodes & Hlen & Hwfn & _).
  eexists _, (set_nxgraph self G1), (set_nxgraph other G2). split.
  { unfold union. rewrite Hrun1, Hrun2. cbn [nxgraph set_nxgraph]. by rewrite Hrun. }
  split; [done|]. split; [done|].
  split; [exact Hnodes|]. split; [|exact Hwfn]. by rewrite Hlen, Hl1, Hl2.
Qed.

End UnionRename.

(** C7, a witness: the example scenario and [example_other]. *)
Lemma union_disjoint_sums_witness :
  ∃ new,
    union false (example_topo, example_other) = (Return new, (example_topo, example_other)) ∧
    nodes new = ["h0"; "h1"; "s0"; "r0"; "hx"] ∧
    length (nodes new) = 5%nat ∧ length (links new) = 3%nat.
Proof.
  destruct (union_disjoint_sums example_topo example_other)
    as (new & Hrun & Hnodes & _ & _ & _ & Hn & Hl).
  - by apply graph_check_wf.
  - by apply graph_check_wf.
  - intros n Hn Ho. vm_compute in Hn, Ho.
    repeat (apply elem_of_cons in Hn as [->|Hn];
            [repeat (apply elem_of_cons in Ho as [Ho|Ho]; [discriminate Ho|]);
             by apply elem_of_nil in Ho|]).
    by apply elem_of_nil in Hn.
  - exists new. split; [exact Hrun|]. split; [exact Hnodes|]. split; [exact Hn | exact Hl].
Defined.

(** X21, a witness: the example scenario and [example_other]. *)
Lemma union_rename_returns_witness :
  ∃ new self' other',
    union true (example_topo, example_other) = (Return new, (self', other')) ∧
    nodes new ≡ₚ ["No name topology_h0"; "No name topology_h1"; "No name topology_s0";
                  "other_r0"; "other_hx"] ∧
    length (links new) = 3%nat.
Proof.
  destruct (union_rename_returns example_topo example_other)
    as (new & s' & o' & Hrun & Hs & Ho & Hn & Hl & _).
  - apply (built_topo_wf (F := example_formatting)), example_topo_built.
  - apply (built_topo_wf (F := example_formatting)).
    pose proof (built_init (F := example_formatting) "other" false) as H.
    apply (built_add Router None) in H. apply (built_add Host (Some "hx")) in H.
    apply (built_addLink "r0" "hx" "100mbps" "10ms") in H; [|reflexivity]. exact H.
  - intros a b d Hin Heq. apply list_elem_of_In in Hin. vm_compute in Hin.
    destruct Hin as [[= <- <- _]|[[= <- <- _]|[]]]; discriminate Heq.
  - intros a b d Hin Heq. apply list_elem_of_In in Hin. vm_compute in Hin.
    destruct Hin as [[= <- <- _]|[]]; discriminate Heq.
  - by apply not_renamed.
  - by apply not_renamed.
  - intros n m Hn Hm Heq. vm_compute in Hn, Hm.
    repeat (apply elem_of_cons in Hn as [->|Hn];
            [repeat (apply elem_of_cons in Hm as [->|Hm]; [discriminate Heq|]);
             by apply elem_of_nil in Hm|]).
    by apply elem_of_nil in Hn.
  - exists new, s', o'. split; [exact Hrun|]. split.
    + rewrite Hn, Hs, Ho. reflexivity.
    + rewrite Hl. reflexivity.
Defined.

(** ** A second link between the same nodes *)

Section SecondLink.
Context {F : Formatting}.




End SecondLink.

